(** * Imposter game: the room state machine and its session layer

    The repository holds two revisions of the same server: [src/server.js]
    and a later one, [src/unnamed/part_000].  Their [GameRoom] classes and
    socket handlers agree line for line except where noted below; the
    embedding takes the revision as a parameter ([revision]) wherever the two
    files differ, so that every definition can be read against either file.

    What is modelled: the [GameRoom] class with all its methods, the word
    catalog, and the socket.io handlers that drive rooms (authenticate,
    createRoom, joinRoom, leaveRoom, updateSettings, startGame, skipVote,
    vote, disconnect) together with the interval and timeout callbacks they
    arm, and the chat handler (sendMessage), which changes no state and is
    modelled by the broadcast it makes.  The HTTP routes, password hashing
    and the SQL text touch no room and are left out, as is the [users] map,
    which is written but never read.

    How it is modelled:
    - a method is a function from the room to the new room and the value
      returned; [Math.random()] draws and clock readings are arguments;
    - player objects are kept by value.  JavaScript shares them between
      [players], [currentRound.imposter] and the snapshots in [gameHistory],
      and the only later assignment to one is [isAdmin = true] in
      [removePlayer]; the statements below read [isAdmin] through [players]
      only;
    - room objects are kept in a store and reached by reference, since timer
      callbacks hold on to a room after the registry has dropped it;
    - what the server sends (socket.io events, stats updates) is appended to
      logs in the state of the server;
    - timer handles are numbers handed out in order, standing for the
      Timeout objects of Node.js;
    - a chat message is the sequence of its UTF-16 code units, which is what
      [trim] and [length] work on. *)

From stdpp Require Import base decidable countable list gmap sets strings.
From Stdlib Require Import ZArith NArith.

Open Scope string_scope.
Open Scope list_scope.
Open Scope nat_scope.

(** ** JavaScript values that the room code handles *)

(** An identity: [socket.userId] is [undefined] until the connection has
    authenticated and the row id of the users table afterwards
    ([id INTEGER PRIMARY KEY AUTOINCREMENT]).  Identities are compared
    with [===] and used as [Set] elements and [Map] keys.  The target of a
    vote comes from the client as it is; a target that is no user id
    behaves like an identity that no player has. *)
Inductive ident : Type :=
  | undefined
  | uid (n : Z).

#[global] Instance ident_eq_dec : EqDecision ident.
Proof. solve_decision. Defined.

Definition ident_to_option (i : ident) : option Z :=
  match i with undefined => None | uid n => Some n end.

Definition ident_of_option (o : option Z) : ident :=
  match o with None => undefined | Some n => uid n end.

#[global] Instance ident_countable : Countable ident.
Proof.
  apply (inj_countable' ident_to_option ident_of_option).
  by intros [].
Defined.

(** What a method hands back: nothing ([undefined], a function body that
    ends without [return]), [null], or a value. *)
Inductive jsval (A : Type) : Type :=
  | js_undefined
  | js_null
  | js_val (a : A).

Arguments js_undefined {A}.
Arguments js_null {A}.
Arguments js_val {A} a.

(** Truthiness as used by [if (results)] and [if (room.addSkipVote(..))]. *)
Definition truthy (v : jsval bool) : bool :=
  match v with js_val b => b | _ => false end.

(** A call either returns or throws a [TypeError] (property access on
    [undefined] or [null]). *)
Inductive completion (A : Type) : Type :=
  | Returns (a : A)
  | Throws.

Arguments Returns {A} a.
Arguments Throws {A}.

(** The two revisions of the server in the repository. *)
Inductive revision : Type :=
  | server_js   (* src/server.js *)
  | part_000.   (* src/unnamed/part_000 *)

#[global] Instance revision_eq_dec : EqDecision revision.
Proof. solve_decision. Defined.

(** ** [Math.floor(Math.random() * n)]

    [Math.random()] is a double in the half-open interval from 0 to 1; a draw
    is modelled by its 53-bit numerator [u], the value being [u / 2^53], and
    the index is the integer part of the product with [n]. *)
Definition random_denominator : N := 2 ^ 53.

Definition randomIndex (u : N) (n : nat) : nat :=
  N.to_nat (((u mod random_denominator) * N.of_nat n) / random_denominator).

(** ** [Map] with insertion order

    [votes] and [voteCount] are JavaScript [Map]s: iteration follows the
    order in which keys were first inserted, and [set] on an existing key
    keeps its position. *)
Section JsMap.
Context {K V : Type} `{EqDecision K}.

Fixpoint map_get (k : K) (m : list (K * V)) : option V :=
  match m with
  | [] => None
  | (k', v) :: m' => if decide (k' = k) then Some v else map_get k m'
  end.

Fixpoint map_set (k : K) (v : V) (m : list (K * V)) : list (K * V) :=
  match m with
  | [] => [(k, v)]
  | (k', v') :: m' =>
      if decide (k' = k) then (k, v) :: m' else (k', v') :: map_set k v m'
  end.

Definition map_size (m : list (K * V)) : nat := length m.

Definition map_keys (m : list (K * V)) : list K := m.*1.
End JsMap.

(** ** Data model *)

Inductive GameState : Type := waiting | playing | voting | ended.

#[global] Instance GameState_eq_dec : EqDecision GameState.
Proof. solve_decision. Defined.

(** The player object built by the [createRoom] and [joinRoom] handlers. *)
Record Player : Type := mkPlayer {
  player_id : ident;
  username : option string;
  socketId : string;
  isAdmin : bool
}.

#[global] Instance Player_eq_dec : EqDecision Player.
Proof. solve_decision. Defined.

Record Settings : Type := mkSettings {
  maxPlayers : Z;
  roundTime : Z;
  theme : string;
  difficulty : string
}.

(** [currentRound].  [word] and [imposter] are [None] for [null] (and for
    [undefined]); [startTime] exists in part_000 only and stays [None] in
    the model of server.js. *)
Record Round : Type := mkRound {
  word : option string;
  imposter : option Player;
  timeRemaining : Z;
  skipVotes : gset ident;
  votes : list (ident * ident);
  startTime : option Z
}.

(** An entry of [gameHistory]. *)
Record HistoryEntry : Type := mkHistoryEntry {
  h_word : option string;
  h_imposter : option Player;
  h_votedOut : option Player;
  h_imposterWon : bool;
  h_players : list Player;
  h_timestamp : Z
}.

(** The object returned by [endGame]. *)
Record Outcome : Type := mkOutcome {
  o_word : option string;
  o_imposter : option Player;
  o_votedOut : option Player;
  o_imposterWon : bool
}.

Record GameRoom : Type := mkGameRoom {
  room_id : string;
  room_name : string;
  adminId : ident;
  players : list Player;
  gameState : GameState;
  settings : Settings;
  currentRound : Round;
  gameHistory : list HistoryEntry
}.

(** Field assignments. *)
Definition set_isAdmin (b : bool) (p : Player) : Player :=
  mkPlayer (player_id p) (username p) (socketId p) b.

Definition set_adminId (a : ident) (r : GameRoom) : GameRoom :=
  mkGameRoom (room_id r) (room_name r) a (players r) (gameState r)
             (settings r) (currentRound r) (gameHistory r).

Definition set_players (ps : list Player) (r : GameRoom) : GameRoom :=
  mkGameRoom (room_id r) (room_name r) (adminId r) ps (gameState r)
             (settings r) (currentRound r) (gameHistory r).

Definition set_gameState (g : GameState) (r : GameRoom) : GameRoom :=
  mkGameRoom (room_id r) (room_name r) (adminId r) (players r) g
             (settings r) (currentRound r) (gameHistory r).

Definition set_settings (s : Settings) (r : GameRoom) : GameRoom :=
  mkGameRoom (room_id r) (room_name r) (adminId r) (players r) (gameState r)
             s (currentRound r) (gameHistory r).

Definition set_currentRound (c : Round) (r : GameRoom) : GameRoom :=
  mkGameRoom (room_id r) (room_name r) (adminId r) (players r) (gameState r)
             (settings r) c (gameHistory r).

Definition set_gameHistory (h : list HistoryEntry) (r : GameRoom) : GameRoom :=
  mkGameRoom (room_id r) (room_name r) (adminId r) (players r) (gameState r)
             (settings r) (currentRound r) h.

Definition set_word (w : option string) (c : Round) : Round :=
  mkRound w (imposter c) (timeRemaining c) (skipVotes c) (votes c) (startTime c).

Definition set_imposter (i : option Player) (c : Round) : Round :=
  mkRound (word c) i (timeRemaining c) (skipVotes c) (votes c) (startTime c).

Definition set_timeRemaining (t : Z) (c : Round) : Round :=
  mkRound (word c) (imposter c) t (skipVotes c) (votes c) (startTime c).

Definition set_skipVotes (s : gset ident) (c : Round) : Round :=
  mkRound (word c) (imposter c) (timeRemaining c) s (votes c) (startTime c).

Definition set_votes (v : list (ident * ident)) (c : Round) : Round :=
  mkRound (word c) (imposter c) (timeRemaining c) (skipVotes c) v (startTime c).

Definition set_startTime (t : option Z) (c : Round) : Round :=
  mkRound (word c) (imposter c) (timeRemaining c) (skipVotes c) (votes c) t.

(** ** Word catalog ([wordLibraries]) *)

Record WordLibrary : Type := mkWordLibrary {
  lib_name : string;
  lib_description : string;
  lib_words : list (string * list string)
}.

Definition wordLibraries : list (string * WordLibrary) :=
  [ ("animals", mkWordLibrary "Tiere" "Verschiedene Tierarten aus aller Welt"
      [ ("easy", ["Hund"; "Katze"; "Pferd"; "Kuh"; "Schwein"; "Huhn"; "Ente"; "Schaf"; "Ziege"; "Hase"]);
        ("medium", ["Elefant"; "Giraffe"; "Zebra"; "Löwe"; "Tiger"; "Panda"; "Koala"; "Pinguin"; "Delfin"; "Wal"]);
        ("hard", ["Axolotl"; "Quetzal"; "Okapi"; "Gharial"; "Aye-Aye"; "Pangolin"; "Tapir"; "Binturong"; "Fossa"; "Numbat"]) ]);
    ("food", mkWordLibrary "Essen & Trinken" "Leckere Speisen und Getränke"
      [ ("easy", ["Apfel"; "Brot"; "Käse"; "Milch"; "Wasser"; "Reis"; "Nudeln"; "Ei"; "Butter"; "Zucker"]);
        ("medium", ["Lasagne"; "Sushi"; "Cappuccino"; "Croissant"; "Paella"; "Quinoa"; "Hummus"; "Gazpacho"; "Risotto"; "Tiramisu"]);
        ("hard", ["Bouillabaisse"; "Ceviche"; "Maultasche"; "Borschtsch"; "Kimchi"; "Pho"; "Mole"; "Tagine"; "Pierogi"; "Baklava"]) ]);
    ("objects", mkWordLibrary "Gegenstände" "Alltägliche und besondere Gegenstände"
      [ ("easy", ["Stuhl"; "Tisch"; "Buch"; "Telefon"; "Auto"; "Haus"; "Fenster"; "Tür"; "Lampe"; "Uhr"]);
        ("medium", ["Computer"; "Mikrowelle"; "Staubsauger"; "Waschmaschine"; "Fernseher"; "Kühlschrank"; "Sofa"; "Schrank"; "Spiegel"; "Bild"]);
        ("hard", ["Kaleidoskop"; "Astrolabium"; "Sextant"; "Chronometer"; "Barometer"; "Hygrometer"; "Seismograph"; "Spektrometer"; "Theodolite"; "Planimeter"]) ]);
    ("activities", mkWordLibrary "Aktivitäten" "Hobbys, Sport und Freizeitaktivitäten"
      [ ("easy", ["Laufen"; "Schwimmen"; "Lesen"; "Singen"; "Tanzen"; "Malen"; "Kochen"; "Schlafen"; "Essen"; "Spielen"]);
        ("medium", ["Bergsteigen"; "Surfen"; "Fotografieren"; "Gärtnern"; "Angeln"; "Wandern"; "Radfahren"; "Skifahren"; "Segeln"; "Reiten"]);
        ("hard", ["Falknerei"; "Kalligrafie"; "Origami"; "Bonsai"; "Geocaching"; "Parkour"; "Aikido"; "Bogenschießen"; "Slacklining"; "Kite-Surfen"]) ]) ].

(** Property access [obj[key]] on an object literal: an own property, a
    property inherited from [Object.prototype] (a function or object that
    has neither a [words] property nor indexed elements), or [undefined]. *)
Inductive property (A : Type) : Type :=
  | Own (a : A)
  | Inherited
  | Absent.

Arguments Own {A} a.
Arguments Inherited {A}.
Arguments Absent {A}.

Definition objectPrototypeKeys : list string :=
  [ "constructor"; "__defineGetter__"; "__defineSetter__"; "hasOwnProperty";
    "__lookupGetter__"; "__lookupSetter__"; "isPrototypeOf";
    "propertyIsEnumerable"; "toString"; "valueOf"; "__proto__";
    "toLocaleString" ].

Definition getProperty {A} (obj : list (string * A)) (key : string) : property A :=
  match map_get key obj with
  | Some a => Own a
  | None => if bool_decide (key ∈ objectPrototypeKeys) then Inherited else Absent
  end.

(** [Word Catalog[theme][difficulty]] as the spec writes it: the list under
    two own keys. *)
Definition catalogWords (th df : string) : option (list string) :=
  lib ← map_get th wordLibraries; map_get df (lib_words lib).

(** ** Effects a room method leaves behind

    [updatePlayerStats] forwards one counter delta per player to the stats
    store ([db.get] then [INSERT] or [UPDATE]); server.js' [endGame] also
    arms [setTimeout(() => this.resetGame(), 10000)]. *)
Record StatsDelta : Type := mkStatsDelta {
  d_user : ident;
  d_games_played : Z;
  d_games_won : Z;
  d_times_imposter : Z;
  d_times_caught_imposter : Z
}.

Inductive Effect : Type :=
  | StatsUpdate (d : StatsDelta)
  | SetTimeout_resetGame.

#[global] Instance StatsDelta_eq_dec : EqDecision StatsDelta.
Proof. solve_decision. Defined.

Definition statsDeltas (es : list Effect) : list StatsDelta :=
  omap (fun e => match e with StatsUpdate d => Some d | _ => None end) es.

(** ** [class GameRoom] *)

Definition defaultSettings : Settings :=
  mkSettings 10 300 "animals" "medium".

Definition emptyRound : Round :=
  mkRound None None 0 ∅ [] None.

(** [constructor(id, name, adminId)] *)
Definition newGameRoom (rid rname : string) (admin : ident) : GameRoom :=
  mkGameRoom rid rname admin [] waiting defaultSettings emptyRound [].

Definition hasId (x : ident) (p : Player) : bool :=
  bool_decide (player_id p = x).

(** [addPlayer(player)].  The identity check is in part_000 only. *)
Definition addPlayer (rev : revision) (player : Player) (r : GameRoom)
  : GameRoom * bool :=
  if (maxPlayers (settings r) <=? Z.of_nat (length (players r)))%Z then (r, false)
  else if bool_decide (rev = part_000)
          && bool_decide (is_Some (find (hasId (player_id player)) (players r)))
  then (r, false)
  else
    match players r with
    | [] =>
        (set_players [set_isAdmin true player]
           (set_adminId (player_id player) r), true)
    | _ :: _ => (set_players (players r ++ [player]) r, true)
    end.

(** [removePlayer(playerId)]: returns whether the room is now empty. *)
Definition removePlayer (playerId : ident) (r : GameRoom) : GameRoom * bool :=
  let remaining := filter (fun p => player_id p ≠ playerId) (players r) in
  let r1 := set_players remaining r in
  match remaining with
  | first :: rest =>
      if bool_decide (adminId r = playerId) then
        (set_adminId (player_id first)
           (set_players (set_isAdmin true first :: rest) r1), false)
      else (r1, false)
  | [] => (r1, true)
  end.

(** [startGame()].  [u1] and [u2] are the two [Math.random()] draws, [now]
    is [Date.now()].  The assignments made before a [TypeError] stay. *)
Definition startGame (rev : revision) (u1 u2 : N) (now : Z) (r : GameRoom)
  : GameRoom * completion bool :=
  if (length (players r) <? 3)%nat then (r, Returns false)
  else if bool_decide (gameState r ≠ waiting) then (r, Returns false)
  else
    let r1 := set_gameState playing r in
    let imposterIndex := randomIndex u1 (length (players r1)) in
    let r2 :=
      set_currentRound
        (set_imposter (players r1 !! imposterIndex) (currentRound r1)) r1 in
    let finish (w : option string) : GameRoom * completion bool :=
      let c1 := set_word w (currentRound r2) in
      let c2 := set_timeRemaining (roundTime (settings r2)) c1 in
      let c3 := set_skipVotes ∅ c2 in
      let c4 := set_votes [] c3 in
      let c5 := match rev with
                | part_000 => set_startTime (Some now) c4
                | server_js => c4
                end in
      (set_currentRound c5 r2, Returns true) in
    match getProperty wordLibraries (theme (settings r2)) with
    | Own lib =>
        match getProperty (lib_words lib) (difficulty (settings r2)) with
        | Own words => finish (words !! randomIndex u2 (length words))
        | Inherited => finish None
        | Absent => (r2, Throws)
        end
    | Inherited | Absent => (r2, Throws)
    end.

(** [endRound()] *)
Definition votingWindow : Z := 60.

Definition endRound (r : GameRoom) : GameRoom :=
  set_currentRound (set_timeRemaining votingWindow (currentRound r))
    (set_gameState voting r).

(** [Math.ceil(this.players.length / 2)] *)
Definition skipNeeded (r : GameRoom) : nat := (length (players r) + 1) / 2.

(** [addSkipVote(playerId)].  server.js has no [return]. *)
Definition addSkipVote (rev : revision) (playerId : ident) (r : GameRoom)
  : GameRoom * jsval bool :=
  let r1 :=
    set_currentRound
      (set_skipVotes ({[playerId]} ∪ skipVotes (currentRound r)) (currentRound r))
      r in
  let needed := skipNeeded r1 in
  if (needed <=? size (skipVotes (currentRound r1)))%nat then
    (endRound r1, match rev with part_000 => js_val true | server_js => js_undefined end)
  else
    (r1, match rev with part_000 => js_val false | server_js => js_undefined end).

(** The first loop of [endGame]: [voteCount]. *)
Definition countVote (voteCount : list (ident * nat)) (vote : ident * ident)
  : list (ident * nat) :=
  let targetId := vote.2 in
  map_set targetId (default 0 (map_get targetId voteCount) + 1) voteCount.

Definition countVotes (vs : list (ident * ident)) : list (ident * nat) :=
  foldl countVote [] vs.

(** The second loop of [endGame]: [mostVoted] and [maxVotes]. *)
Definition moreVotes (ps : list Player) (acc : option Player * nat)
  (entry : ident * nat) : option Player * nat :=
  let '(playerId, n) := entry in
  if (acc.2 <? n)%nat then (find (hasId playerId) ps, n) else acc.

Definition findMostVoted (ps : list Player) (voteCount : list (ident * nat))
  : option Player :=
  (foldl (moreVotes ps) (None, 0) voteCount).1.

(** [!mostVoted || mostVoted.id !== this.currentRound.imposter.id] *)
Definition imposterWonOf (mostVoted imp : option Player) : completion bool :=
  match mostVoted with
  | None => Returns true
  | Some m =>
      match imp with
      | None => Throws
      | Some i => Returns (bool_decide (player_id m ≠ player_id i))
      end
  end.

Definition Z_of_bool (b : bool) : Z := if b then 1%Z else 0%Z.

(** One iteration of [updatePlayerStats]: the counters handed to the
    stats store for [player]. *)
Definition statsDelta (imp : Player) (imposterWon : bool)
  (votedOut : option Player) (player : Player) : StatsDelta :=
  let isImposter := bool_decide (player_id player = player_id imp) in
  let won := if isImposter then imposterWon else negb imposterWon in
  let caught :=
    isImposter &&
    match votedOut with
    | Some v => bool_decide (player_id v = player_id player)
    | None => false
    end in
  mkStatsDelta (player_id player) 1 (Z_of_bool won) (Z_of_bool isImposter)
    (Z_of_bool caught).

(** [updatePlayerStats(imposterWon, votedOut)]: with players present and
    no imposter, the first iteration throws before anything is sent. *)
Definition updatePlayerStats (imposterWon : bool) (votedOut : option Player)
  (r : GameRoom) : completion (list StatsDelta) :=
  match players r, imposter (currentRound r) with
  | [], _ => Returns []
  | _ :: _, None => Throws
  | ps, Some imp => Returns (map (statsDelta imp imposterWon votedOut) ps)
  end.

(** [endGame()]; [now] is [new Date()]. *)
Definition endGame (rev : revision) (now : Z) (r : GameRoom)
  : GameRoom * list Effect * completion Outcome :=
  let r1 := set_gameState ended r in
  let voteCount := countVotes (votes (currentRound r1)) in
  let mostVoted := findMostVoted (players r1) voteCount in
  match imposterWonOf mostVoted (imposter (currentRound r1)) with
  | Throws => (r1, [], Throws)
  | Returns imposterWon =>
      let entry :=
        mkHistoryEntry (word (currentRound r1)) (imposter (currentRound r1))
          mostVoted imposterWon (players r1) now in
      let r2 := set_gameHistory (gameHistory r1 ++ [entry]) r1 in
      match updatePlayerStats imposterWon mostVoted r2 with
      | Throws => (r2, [], Throws)
      | Returns deltas =>
          (r2,
           map StatsUpdate deltas ++
             match rev with
             | server_js => [SetTimeout_resetGame]
             | part_000 => []
             end,
           Returns (mkOutcome (word (currentRound r2)) (imposter (currentRound r2))
                      mostVoted imposterWon))
      end
  end.

(** [addVote(voterId, targetId)].  part_000 returns what [endGame] returns,
    or [null]; server.js calls [endGame] and returns nothing. *)
Definition addVote (rev : revision) (now : Z) (voterId targetId : ident)
  (r : GameRoom) : GameRoom * list Effect * completion (jsval Outcome) :=
  let r1 :=
    set_currentRound
      (set_votes (map_set voterId targetId (votes (currentRound r))) (currentRound r))
      r in
  if (map_size (votes (currentRound r1)) =? length (players r1))%nat then
    match endGame rev now r1 with
    | (r2, effs, Returns o) =>
        (r2, effs,
         Returns match rev with part_000 => js_val o | server_js => js_undefined end)
    | (r2, effs, Throws) => (r2, effs, Throws)
    end
  else
    (r1, [], Returns match rev with part_000 => js_null | server_js => js_undefined end).

(** [resetGame()] *)
Definition resetGame (r : GameRoom) : GameRoom :=
  set_currentRound emptyRound (set_gameState waiting r).

(** [toJSON()]: the public view of a room. *)
Record RoomView : Type := mkRoomView {
  v_id : string;
  v_name : string;
  v_players : list Player;
  v_gameState : GameState;
  v_settings : Settings;
  v_timeRemaining : Z;
  v_skipVotes : nat;
  v_skipNeeded : nat
}.

Definition toJSON (r : GameRoom) : RoomView :=
  mkRoomView (room_id r) (room_name r) (players r) (gameState r) (settings r)
    (timeRemaining (currentRound r)) (size (skipVotes (currentRound r)))
    (skipNeeded r).

(** ** The session layer: [io.on('connection', ...)]

    Room objects live in a store and are reached by reference: the registry
    [rooms] maps a room id to a reference, and the timer callbacks keep the
    reference of the room they were created for, also after the registry has
    dropped or replaced it. *)

Definition loc := nat.

(** A connection.  [userId] and [username] are [undefined] until
    [authenticate] succeeds; [channels] are the socket.io rooms joined with
    [socket.join]. *)
Record Socket : Type := mkSocket {
  socket_id : string;
  userId : ident;
  socket_username : option string;
  socket_roomId : option string;
  channels : gset string
}.

Inductive Message : Type :=
  | authenticated (i : Z) (name : string)
  | authError (text : string)
  | error (text : string)
  | roomCreated (roomId : string)
  | roomJoined (roomId : string)
  | roomUpdate (view : RoomView)
  | chatMessage (sender text : string) (timestamp : Z)
  | gameStarted (w : option string) (isImposter : bool) (timeLimit : Z)
  | votingPhase (ps : list Player)
  | gameEnded (results : Outcome).

Inductive Event : Type :=
  | socket_emit (sid : string) (m : Message)   (* socket.emit(...) *)
  | room_emit (roomId : string) (m : Message). (* io.to(roomId).emit(...) *)

(** The closures handed to [setInterval] and [setTimeout], with what they
    capture.  [starter] is the identity of the connection that started the
    game (server.js reads [socket.userId] when the timer runs out). *)
Inductive Callback : Type :=
  | roundTimer (roomId : string) (room : loc) (starter : ident)
      (* the interval of the startGame handler *)
  | resetAndUpdate (roomId : string) (room : loc)
      (* part_000, vote handler: resetGame, then roomUpdate *)
  | resetOnly (room : loc)
      (* server.js, endGame: resetGame *)
  | updateOnly (roomId : string) (room : loc).
      (* server.js, vote handler: roomUpdate *)

Record World : Type := mkWorld {
  rooms : gmap string loc;            (* const rooms = new Map() *)
  store : gmap loc GameRoom;          (* the GameRoom objects *)
  roomTimers : gmap string nat;       (* const roomTimers = new Map(), part_000 *)
  intervals : gmap nat Callback;      (* live setInterval timers, by handle *)
  timeouts : list Callback;           (* armed setTimeout callbacks, oldest first *)
  nextHandle : nat;
  sockets : list (string * Socket);   (* io.sockets.sockets, in connection order *)
  outbox : list Event;                (* everything emitted so far *)
  statsLog : list StatsDelta;         (* everything forwarded to the stats store *)
  uncaught : nat                      (* exceptions that escaped a handler *)
}.

Definition emptyWorld : World :=
  mkWorld ∅ ∅ ∅ ∅ [] 0 [] [] [] 0.

Definition set_rooms (x : gmap string loc) (w : World) : World :=
  mkWorld x (store w) (roomTimers w) (intervals w) (timeouts w) (nextHandle w)
    (sockets w) (outbox w) (statsLog w) (uncaught w).

Definition set_store (x : gmap loc GameRoom) (w : World) : World :=
  mkWorld (rooms w) x (roomTimers w) (intervals w) (timeouts w) (nextHandle w)
    (sockets w) (outbox w) (statsLog w) (uncaught w).

Definition set_roomTimers (x : gmap string nat) (w : World) : World :=
  mkWorld (rooms w) (store w) x (intervals w) (timeouts w) (nextHandle w)
    (sockets w) (outbox w) (statsLog w) (uncaught w).

Definition set_intervals (x : gmap nat Callback) (w : World) : World :=
  mkWorld (rooms w) (store w) (roomTimers w) x (timeouts w) (nextHandle w)
    (sockets w) (outbox w) (statsLog w) (uncaught w).

Definition set_timeouts (x : list Callback) (w : World) : World :=
  mkWorld (rooms w) (store w) (roomTimers w) (intervals w) x (nextHandle w)
    (sockets w) (outbox w) (statsLog w) (uncaught w).

Definition set_nextHandle (x : nat) (w : World) : World :=
  mkWorld (rooms w) (store w) (roomTimers w) (intervals w) (timeouts w) x
    (sockets w) (outbox w) (statsLog w) (uncaught w).

Definition set_sockets (x : list (string * Socket)) (w : World) : World :=
  mkWorld (rooms w) (store w) (roomTimers w) (intervals w) (timeouts w)
    (nextHandle w) x (outbox w) (statsLog w) (uncaught w).

Definition set_outbox (x : list Event) (w : World) : World :=
  mkWorld (rooms w) (store w) (roomTimers w) (intervals w) (timeouts w)
    (nextHandle w) (sockets w) x (statsLog w) (uncaught w).

Definition set_statsLog (x : list StatsDelta) (w : World) : World :=
  mkWorld (rooms w) (store w) (roomTimers w) (intervals w) (timeouts w)
    (nextHandle w) (sockets w) (outbox w) x (uncaught w).

Definition set_uncaught (x : nat) (w : World) : World :=
  mkWorld (rooms w) (store w) (roomTimers w) (intervals w) (timeouts w)
    (nextHandle w) (sockets w) (outbox w) (statsLog w) x.

(** Small steps shared by the handlers.  An exception that escapes a
    handler is counted: part_000 logs it ([process.on('uncaughtException')])
    and goes on; server.js has no such handler and the process ends there,
    so for server.js the runs that go on after a [throw] reach more states
    than the program does. *)
Definition emit (e : Event) (w : World) : World :=
  set_outbox (outbox w ++ [e]) w.

Definition throw (w : World) : World :=
  set_uncaught (S (uncaught w)) w.

(** [rooms.get(roomId)]: the reference and the object behind it. *)
Definition getRoom (roomId : string) (w : World) : option (loc * GameRoom) :=
  l ← rooms w !! roomId; r ← store w !! l; Some (l, r).

Definition putRoom (l : loc) (r : GameRoom) (w : World) : World :=
  set_store (<[l := r]> (store w)) w.

Definition set_socket (s : Socket) (w : World) : World :=
  set_sockets (map_set (socket_id s) s (sockets w)) w.

(** Effects of a room method, carried out. *)
Definition perform (l : loc) (e : Effect) (w : World) : World :=
  match e with
  | StatsUpdate d => set_statsLog (statsLog w ++ [d]) w
  | SetTimeout_resetGame => set_timeouts (timeouts w ++ [resetOnly l]) w
  end.

Definition performAll (l : loc) (es : list Effect) (w : World) : World :=
  foldl (fun w e => perform l e w) w es.

(** [clearInterval(roomTimers.get(roomId)); roomTimers.delete(roomId)]
    under [if (roomTimers.has(roomId))]. *)
Definition clearRoomTimer (roomId : string) (w : World) : World :=
  match roomTimers w !! roomId with
  | Some h =>
      set_roomTimers (delete roomId (roomTimers w))
        (set_intervals (delete h (intervals w)) w)
  | None => w
  end.

(** [!socket.userId] *)
Definition falsy (i : ident) : bool :=
  match i with
  | undefined => true
  | uid n => (n =? 0)%Z
  end.

Definition with_roomId (rid : option string) (s : Socket) : Socket :=
  mkSocket (socket_id s) (userId s) (socket_username s) rid (channels s).

Definition with_channels (c : gset string) (s : Socket) : Socket :=
  mkSocket (socket_id s) (userId s) (socket_username s) (socket_roomId s) c.

(** Template-literal rendering of [socket.username]. *)
Definition show (name : option string) : string :=
  default "undefined" name.

(** The [settings] payload of [updateSettings], restricted to the four keys
    the server reads; an absent key is [None]. *)
Record SettingsPatch : Type := mkSettingsPatch {
  patch_maxPlayers : option Z;
  patch_roundTime : option Z;
  patch_theme : option string;
  patch_difficulty : option string
}.

(** [{ ...room.settings, ...settings }] *)
Definition mergeSettings (s : Settings) (p : SettingsPatch) : Settings :=
  mkSettings (default (maxPlayers s) (patch_maxPlayers p))
             (default (roundTime s) (patch_roundTime p))
             (default (theme s) (patch_theme p))
             (default (difficulty s) (patch_difficulty p)).

Definition newPlayer (s : Socket) (admin : bool) : Player :=
  mkPlayer (userId s) (socket_username s) (socket_id s) admin.

(** [socket.on('authenticate', token)]; [decoded] is what [jwt.verify]
    yields, [None] when it throws. *)
Definition on_authenticate (s : Socket) (decoded : option (Z * string))
  (w : World) : World :=
  match decoded with
  | Some (i, name) =>
      emit (socket_emit (socket_id s) (authenticated i name))
        (set_socket (mkSocket (socket_id s) (uid i) (Some name)
                       (socket_roomId s) (channels s)) w)
  | None => emit (socket_emit (socket_id s) (authError "Token ungültig")) w
  end.

(** [socket.on('createRoom', roomName)]; [roomId] is the identifier drawn
    with [Math.random().toString(36).substring(2, 8).toUpperCase()]. *)
Definition on_createRoom (rev : revision) (s : Socket) (roomName roomId : string)
  (w : World) : World :=
  if falsy (userId s) then
    emit (socket_emit (socket_id s) (error "Nicht authentifiziert")) w
  else
    let room := (addPlayer rev (newPlayer s true)
                   (newGameRoom roomId roomName (userId s))).1 in
    let l : loc := fresh (dom (store w)) in
    let w1 := set_rooms (<[roomId := l]> (rooms w)) (putRoom l room w) in
    let w2 := set_socket (with_roomId (Some roomId)
                            (with_channels ({[roomId]} ∪ channels s) s)) w1 in
    emit (socket_emit (socket_id s) (roomUpdate (toJSON room)))
      (emit (socket_emit (socket_id s) (roomCreated roomId)) w2).

(** [socket.on('joinRoom', roomId)] *)
Definition on_joinRoom (rev : revision) (now : Z) (s : Socket) (roomId : string)
  (w : World) : World :=
  if falsy (userId s) then
    emit (socket_emit (socket_id s) (error "Nicht authentifiziert")) w
  else
    match getRoom roomId w with
    | None => emit (socket_emit (socket_id s) (error "Raum nicht gefunden")) w
    | Some (l, room) =>
        if bool_decide (gameState room ≠ waiting) then
          emit (socket_emit (socket_id s) (error "Spiel läuft bereits")) w
        else
          match addPlayer rev (newPlayer s false) room with
          | (_, false) =>
              emit (socket_emit (socket_id s)
                      (error match rev with
                             | server_js => "Raum ist voll"
                             | part_000 => "Raum ist voll oder du bist bereits im Raum"
                             end)) w
          | (room', true) =>
              let w1 := putRoom l room' w in
              let w2 := set_socket (with_roomId (Some roomId)
                                      (with_channels ({[roomId]} ∪ channels s) s)) w1 in
              emit (room_emit roomId
                      (chatMessage "System"
                         (show (socket_username s) +:+ " ist dem Raum beigetreten") now))
                (emit (room_emit roomId (roomUpdate (toJSON room')))
                   (emit (socket_emit (socket_id s) (roomJoined roomId)) w2))
          end
    end.

(** The part of [leaveRoom] and [disconnect] that the two share:
    [removePlayer], then delete the room or tell the others. *)
Definition departRoom (roomId : string) (l : loc) (room : GameRoom) (s : Socket)
  (notice : option string) (now : Z) (w : World) : World :=
  match removePlayer (userId s) room with
  | (room', true) => set_rooms (delete roomId (rooms w)) (putRoom l room' w)
  | (room', false) =>
      let w1 := emit (room_emit roomId (roomUpdate (toJSON room')))
                  (putRoom l room' w) in
      match notice with
      | Some text => emit (room_emit roomId (chatMessage "System" text now)) w1
      | None => w1
      end
  end.

(** [socket.on('leaveRoom', roomId)]; part_000 clears the room's timer
    first. *)
Definition on_leaveRoom (rev : revision) (now : Z) (s : Socket) (roomId : string)
  (w : World) : World :=
  match getRoom roomId w with
  | None => w
  | Some (l, room) =>
      let s1 := with_channels (channels s ∖ {[roomId]}) s in
      let w1 := match rev with
                | part_000 => clearRoomTimer roomId w
                | server_js => w
                end in
      let w2 := departRoom roomId l room s
                  (Some (show (socket_username s) +:+ " hat den Raum verlassen"))
                  now w1 in
      set_socket (with_roomId None s1) w2
  end.

(** [socket.on('disconnect')] *)
Definition on_disconnect (rev : revision) (now : Z) (s : Socket) (w : World)
  : World :=
  let w0 := set_sockets (filter (fun e => e.1 ≠ socket_id s) (sockets w)) w in
  match socket_roomId s with
  | None => w0
  | Some roomId =>
      if bool_decide (roomId = "") then w0
      else
        match getRoom roomId w0 with
        | None => w0
        | Some (l, room) =>
            let w1 := match rev with
                      | part_000 => clearRoomTimer roomId w0
                      | server_js => w0
                      end in
            let text := show (socket_username s) +:+ " hat die Verbindung verloren" in
            let notice :=
              match rev, socket_username s with
              | part_000, None | part_000, Some "" => None
              | _, _ => Some text
              end in
            departRoom roomId l room s notice now w1
        end
  end.

(** [socket.on('updateSettings', { roomId, settings })] *)
Definition on_updateSettings (s : Socket) (roomId : string) (patch : SettingsPatch)
  (w : World) : World :=
  match getRoom roomId w with
  | None => emit (socket_emit (socket_id s) (error "Keine Berechtigung")) w
  | Some (l, room) =>
      if bool_decide (adminId room ≠ userId s) then
        emit (socket_emit (socket_id s) (error "Keine Berechtigung")) w
      else
        let room' := set_settings (mergeSettings (settings room) patch) room in
        emit (room_emit roomId (roomUpdate (toJSON room'))) (putRoom l room' w)
  end.

(** The private notice of the startGame handler for one player: sent to the
    first connected socket with the player's identity, if there is one. *)
Definition notifyStart (room : GameRoom) (imp : Player) (w : World)
  (player : Player) : World :=
  match find (fun ps => bool_decide (userId ps = player_id player)) (sockets w).*2 with
  | Some playerSocket =>
      let isImp := bool_decide (player_id player = player_id imp) in
      emit (socket_emit (socket_id playerSocket)
              (gameStarted (if isImp then None else word (currentRound room))
                 isImp (roundTime (settings room)))) w
  | None => w
  end.

(** [socket.on('startGame', roomId)] *)
Definition on_startGame (rev : revision) (now : Z) (s : Socket) (roomId : string)
  (u1 u2 : N) (w : World) : World :=
  match getRoom roomId w with
  | None => emit (socket_emit (socket_id s) (error "Keine Berechtigung")) w
  | Some (l, room) =>
      if bool_decide (adminId room ≠ userId s) then
        emit (socket_emit (socket_id s) (error "Keine Berechtigung")) w
      else
        match startGame rev u1 u2 now room with
        | (room', Throws) => throw (putRoom l room' w)
        | (room', Returns false) =>
            emit (socket_emit (socket_id s)
                    (error match rev with
                           | server_js => "Spiel kann nicht gestartet werden"
                           | part_000 =>
                               "Spiel kann nicht gestartet werden (mindestens 3 Spieler benötigt)"
                           end)) (putRoom l room' w)
        | (room', Returns true) =>
            let w1 := putRoom l room' w in
            match imposter (currentRound room') with
            | None => throw w1
            | Some imp =>
                let w2 := foldl (notifyStart room' imp) w1 (players room') in
                let w3 := emit (room_emit roomId (roomUpdate (toJSON room'))) w2 in
                let timer := nextHandle w3 in
                let w4 :=
                  set_nextHandle (S timer)
                    (set_intervals
                       (<[timer := roundTimer roomId l (userId s)]> (intervals w3)) w3) in
                match rev with
                | part_000 => set_roomTimers (<[roomId := timer]> (roomTimers w4)) w4
                | server_js => w4
                end
            end
        end
  end.

(** One firing of the interval [timer]: the callback given to
    [setInterval] in the startGame handler. *)
Definition on_interval (rev : revision) (timer : nat) (w : World) : World :=
  match intervals w !! timer with
  | Some (roundTimer roomId l starter) =>
      match store w !! l with
      | None => w
      | Some room =>
          let room1 :=
            set_currentRound
              (set_timeRemaining (timeRemaining (currentRound room) - 1)%Z
                 (currentRound room)) room in
          if (timeRemaining (currentRound room1) <=? 0)%Z then
            let w1 := set_intervals (delete timer (intervals w)) w in
            let room2 := endRound room1 in
            match rev with
            | part_000 =>
                emit (room_emit roomId (roomUpdate (toJSON room2)))
                  (emit (room_emit roomId (votingPhase (players room2)))
                     (putRoom l room2
                        (set_roomTimers (delete roomId (roomTimers w1)) w1)))
            | server_js =>
                emit (room_emit roomId
                        (votingPhase
                           (filter (fun p => player_id p ≠ starter) (players room2))))
                  (putRoom l room2 w1)
            end
          else putRoom l room1 w
      end
  | _ => w
  end.

(** [socket.on('skipVote', roomId)] *)
Definition on_skipVote (rev : revision) (s : Socket) (roomId : string) (w : World)
  : World :=
  match getRoom roomId w with
  | None => w
  | Some (l, room) =>
      if bool_decide (gameState room ≠ playing) then w
      else
        let '(room', reached) := addSkipVote rev (userId s) room in
        let w1 := putRoom l room' w in
        match rev with
        | part_000 =>
            let w2 :=
              if truthy reached then
                emit (room_emit roomId (votingPhase (players room')))
                  (clearRoomTimer roomId w1)
              else w1 in
            emit (room_emit roomId (roomUpdate (toJSON room'))) w2
        | server_js =>
            let w2 := emit (room_emit roomId (roomUpdate (toJSON room'))) w1 in
            if bool_decide (gameState room' = voting) then
              emit (room_emit roomId (votingPhase (players room'))) w2
            else w2
        end
  end.

(** [socket.on('vote', { roomId, playerId })].  part_000 uses what
    [addVote] returns; server.js looks at [gameState] and calls [endGame]
    itself. *)
Definition on_vote (rev : revision) (now : Z) (s : Socket) (roomId : string)
  (playerId : ident) (w : World) : World :=
  match getRoom roomId w with
  | None => w
  | Some (l, room) =>
      if bool_decide (gameState room ≠ voting) then w
      else
        match addVote rev now (userId s) playerId room with
        | (room1, effs, Throws) => throw (performAll l effs (putRoom l room1 w))
        | (room1, effs, Returns results) =>
            let w1 := performAll l effs (putRoom l room1 w) in
            match rev with
            | part_000 =>
                match results with
                | js_val o =>
                    set_timeouts (timeouts w1 ++ [resetAndUpdate roomId l])
                      (emit (room_emit roomId (gameEnded o)) w1)
                | _ => w1
                end
            | server_js =>
                if bool_decide (gameState room1 = ended) then
                  match endGame rev now room1 with
                  | (room2, effs2, Throws) =>
                      throw (performAll l effs2 (putRoom l room2 w1))
                  | (room2, effs2, Returns o) =>
                      let w2 := performAll l effs2 (putRoom l room2 w1) in
                      set_timeouts (timeouts w2 ++ [updateOnly roomId l])
                        (emit (room_emit roomId (gameEnded o)) w2)
                  end
                else w1
            end
        end
  end.

(** One armed [setTimeout] callback runs (they all wait ten seconds, so
    the oldest runs first). *)
Definition on_timeout (w : World) : World :=
  match timeouts w with
  | [] => w
  | cb :: rest =>
      let w1 := set_timeouts rest w in
      match cb with
      | resetAndUpdate roomId l =>
          match store w1 !! l with
          | Some room =>
              emit (room_emit roomId (roomUpdate (toJSON (resetGame room))))
                (putRoom l (resetGame room) w1)
          | None => w1
          end
      | resetOnly l =>
          match store w1 !! l with
          | Some room => putRoom l (resetGame room) w1
          | None => w1
          end
      | updateOnly roomId l =>
          match store w1 !! l with
          | Some room => emit (room_emit roomId (roomUpdate (toJSON room))) w1
          | None => w1
          end
      | roundTimer _ _ _ => w1
      end
  end.

(** ** Chat: [socket.on('sendMessage', { roomId, message })]

    [message] is a string, seen as JavaScript sees it: a sequence of
    UTF-16 code units.  The handler changes no state; what it does is the
    broadcast it makes to the room, if any. *)

(** The code units that [String.prototype.trim] strips: WhiteSpace and
    LineTerminator of ECMAScript. *)
Definition isWhiteSpace (c : N) : bool :=
  ((9 <=? c) && (c <=? 13) || (c =? 32) || (c =? 160) || (c =? 5760)
   || (8192 <=? c) && (c <=? 8202) || (c =? 8232) || (c =? 8233)
   || (c =? 8239) || (c =? 8287) || (c =? 12288) || (c =? 65279))%N.

Fixpoint trimStart (s : list N) : list N :=
  match s with
  | c :: rest => if isWhiteSpace c then trimStart rest else s
  | [] => []
  end.

Definition trimEnd (s : list N) : list N := reverse (trimStart (reverse s)).

Definition trim (s : list N) : list N := trimEnd (trimStart s).

(** The payload of a user's chatMessage event. *)
Record ChatMessage : Type := mkChatMessage {
  chat_sender : option string;
  chat_text : list N;
  chat_timestamp : Z
}.

(** [!socket.username] *)
Definition noName (name : option string) : bool :=
  match name with
  | None | Some "" => true
  | Some _ => false
  end.

(** The room the handler broadcasts to, and the payload.  The name check
    and the limit of 500 are in part_000 only. *)
Definition on_sendMessage (rev : revision) (now : Z) (s : Socket) (roomId : string)
  (message : list N) (w : World) : option (string * ChatMessage) :=
  match getRoom roomId w with
  | None => None
  | Some _ =>
      if bool_decide (rev = part_000) && noName (socket_username s) then None
      else if (0 <? length (trim message))
              && (bool_decide (rev = server_js) || (length (trim message) <=? 500))
      then Some (roomId, mkChatMessage (socket_username s) (trim message) now)
      else None
  end.

(** ** The server as a transition system *)

Inductive Command : Type :=
  | authenticate (decoded : option (Z * string))
  | createRoom (roomName roomId : string)
  | joinRoom (roomId : string)
  | leaveRoom (roomId : string)
  | updateSettings (roomId : string) (patch : SettingsPatch)
  | startGameCmd (roomId : string) (u1 u2 : N)
  | skipVote (roomId : string)
  | vote (roomId : string) (playerId : ident)
  | disconnect.

Inductive Input : Type :=
  | connection (sid : string)
  | received (sid : string) (c : Command)
  | intervalFires (timer : nat)
  | timeoutFires.

Definition handle (rev : revision) (now : Z) (s : Socket) (c : Command)
  (w : World) : World :=
  match c with
  | authenticate decoded => on_authenticate s decoded w
  | createRoom roomName roomId => on_createRoom rev s roomName roomId w
  | joinRoom roomId => on_joinRoom rev now s roomId w
  | leaveRoom roomId => on_leaveRoom rev now s roomId w
  | updateSettings roomId patch => on_updateSettings s roomId patch w
  | startGameCmd roomId u1 u2 => on_startGame rev now s roomId u1 u2 w
  | skipVote roomId => on_skipVote rev s roomId w
  | vote roomId playerId => on_vote rev now s roomId playerId w
  | disconnect => on_disconnect rev now s w
  end.

(** One event of the Node.js loop at clock reading [now]. *)
Definition step (rev : revision) (w : World) (i : Z * Input) : World :=
  let '(now, input) := i in
  match input with
  | connection sid =>
      match map_get sid (sockets w) with
      | Some _ => w
      | None => set_socket (mkSocket sid undefined None None ∅) w
      end
  | received sid c =>
      match map_get sid (sockets w) with
      | Some s => handle rev now s c w
      | None => w
      end
  | intervalFires timer => on_interval rev timer w
  | timeoutFires => on_timeout w
  end.

Definition run (rev : revision) (w : World) (trace : list (Z * Input)) : World :=
  foldl (step rev) w trace.

(** A world the server can be in, and a room object it can hold. *)
Definition reachable (rev : revision) (w : World) : Prop :=
  ∃ trace, w = run rev emptyWorld trace.

Definition reachableRoom (rev : revision) (r : GameRoom) : Prop :=
  ∃ w l, reachable rev w ∧ store w !! l = Some r.

(** * Vocabulary of the properties *)

(** ** The tally of [endGame] *)

(** The number of votes whose target is [t]. *)
Definition votesFor (t : ident) (vs : list (ident * ident)) : nat :=
  length (filter (fun v => v.2 = t) vs).

(** [(t, c)] is the entry of the tally [vc] with the greatest count, the
    first such entry in iteration order when several share it. *)
Definition firstMax (vc : list (ident * nat)) (t : ident) (c : nat) : Prop :=
  ∃ before after,
    vc = before ++ (t, c) :: after ∧
    (∀ e, e ∈ before → e.2 < c) ∧
    (∀ e, e ∈ after → e.2 ≤ c).

(** ** What the handlers do to one room

    Each handler and each timer callback changes at most one room object.
    [applyOp] is that change, seen from the room; [step_store] below shows
    that the server changes its rooms in no other way. *)

Inductive RoomOp : Type :=
  | opJoin (x : ident) (name : option string) (sid : string)  (* joinRoom *)
  | opLeave (x : ident)                       (* leaveRoom, disconnect *)
  | opSettings (patch : SettingsPatch)        (* updateSettings *)
  | opStart (u1 u2 : N) (now : Z)             (* startGame *)
  | opTick                                    (* the round timer fires *)
  | opSkip (x : ident)                        (* skipVote *)
  | opVote (now : Z) (x target : ident)       (* vote *)
  | opReset.                                  (* the reset timeout fires *)

Definition tick (r : GameRoom) : GameRoom :=
  let r1 :=
    set_currentRound
      (set_timeRemaining (timeRemaining (currentRound r) - 1)%Z (currentRound r)) r in
  if (timeRemaining (currentRound r1) <=? 0)%Z then endRound r1 else r1.

Definition voteOp (rev : revision) (now : Z) (x target : ident) (r : GameRoom)
  : GameRoom :=
  match addVote rev now x target r with
  | (r1, _, Throws) => r1
  | (r1, _, Returns _) =>
      match rev with
      | part_000 => r1
      | server_js =>
          if bool_decide (gameState r1 = ended) then (endGame rev now r1).1.1 else r1
      end
  end.

Definition applyOp (rev : revision) (r : GameRoom) (op : RoomOp) : GameRoom :=
  match op with
  | opJoin x name sid =>
      if bool_decide (gameState r ≠ waiting) then r
      else (addPlayer rev (mkPlayer x name sid false) r).1
  | opLeave x => (removePlayer x r).1
  | opSettings patch => set_settings (mergeSettings (settings r) patch) r
  | opStart u1 u2 now => (startGame rev u1 u2 now r).1
  | opTick => tick r
  | opSkip x =>
      if bool_decide (gameState r ≠ playing) then r
      else (addSkipVote rev x r).1
  | opVote now x target =>
      if bool_decide (gameState r ≠ voting) then r else voteOp rev now x target r
  | opReset => resetGame r
  end.

(** The room that [createRoom] builds for an authenticated connection. *)
Definition createdRoom (rev : revision) (s : Socket) (roomName roomId : string)
  : GameRoom :=
  (addPlayer rev (newPlayer s true) (newGameRoom roomId roomName (userId s))).1.

(** Rooms by their history: created, then changed by handlers. *)
Inductive roomReach (rev : revision) : GameRoom → Prop :=
  | reach_created s roomName roomId :
      falsy (userId s) = false →
      roomReach rev (createdRoom rev s roomName roomId)
  | reach_op r op :
      roomReach rev r → roomReach rev (applyOp rev r op).

(** How one handler may change the store: not at all, by one [applyOp] on
    one room, or by adding a created room. *)
Inductive storeChange (rev : revision) (w w' : World) : Prop :=
  | store_same :
      store w' = store w → storeChange rev w w'
  | store_op l r op :
      store w !! l = Some r →
      store w' = <[l := applyOp rev r op]> (store w) →
      storeChange rev w w'
  | store_new l s roomName roomId :
      falsy (userId s) = false →
      store w' = <[l := createdRoom rev s roomName roomId]> (store w) →
      storeChange rev w w'.

(** ** Players, admins, voters *)

Definition playerIds (r : GameRoom) : list ident := player_id <$> players r.

(** The number of players with [isAdmin = true]. *)
Definition admins (ps : list Player) : nat :=
  length (filter (fun p => isAdmin p = true) ps).

(** The flag sits on a player with the identity [adminId], and on exactly
    one player unless the room is empty. *)
Definition adminInv (r : GameRoom) : Prop :=
  (∀ p, p ∈ players r → isAdmin p = true → player_id p = adminId r) ∧
  admins (players r) = min 1 (length (players r)).

(** Operations that leave the player list and [adminId] alone. *)
Definition sameRoster (r r' : GameRoom) : Prop :=
  players r' = players r ∧ adminId r' = adminId r.


(** The voters of a room: the keys of [votes]. *)
Definition voters (r : GameRoom) : list ident := map_keys (votes (currentRound r)).

(** ** Commands turned away *)

(** The command was turned away: an error event to the sender, and
    nothing else has changed. *)
Definition rejected (s : Socket) (w w' : World) : Prop :=
  rooms w' = rooms w ∧ store w' = store w ∧
  roomTimers w' = roomTimers w ∧ intervals w' = intervals w ∧
  timeouts w' = timeouts w ∧ sockets w' = sockets w ∧
  statsLog w' = statsLog w ∧
  outbox w' = outbox w ++ [socket_emit (socket_id s) (error "Keine Berechtigung")].

(** ** The round of a room, and the registry *)

(** The round of a room that waits is the empty one, and a word is never
    there without an imposter. *)
Definition roundInv (r : GameRoom) : Prop :=
  (gameState r = waiting → currentRound r = emptyRound) ∧
  (is_Some (word (currentRound r)) → is_Some (imposter (currentRound r))).

(** How one event may change registry and store: not at all; by one
    operation other than a departure on one room object; by a departure,
    which also drops the registry entry when the room is empty afterwards;
    or by a new room under a new reference. *)
Inductive worldChange (rev : revision) (w w' : World) : Prop :=
  | wc_same :
      rooms w' = rooms w → store w' = store w → worldChange rev w w'
  | wc_op l r op :
      store w !! l = Some r →
      (∀ x, op ≠ opLeave x) →
      store w' = <[l := applyOp rev r op]> (store w) →
      rooms w' = rooms w →
      worldChange rev w w'
  | wc_leave roomId l r x :
      rooms w !! roomId = Some l →
      store w !! l = Some r →
      store w' = <[l := (removePlayer x r).1]> (store w) →
      rooms w' = (if (removePlayer x r).2 then delete roomId (rooms w) else rooms w) →
      worldChange rev w w'
  | wc_new roomId l s roomName :
      falsy (userId s) = false →
      l ∉ dom (store w) →
      store w' = <[l := createdRoom rev s roomName roomId]> (store w) →
      rooms w' = <[roomId := l]> (rooms w) →
      worldChange rev w w'.

(** Every registered id leads to a room object that carries this id and
    has a player. *)
Definition registryInv (w : World) : Prop :=
  ∀ roomId l, rooms w !! roomId = Some l →
    ∃ r, store w !! l = Some r ∧ room_id r = roomId ∧ players r ≠ [].

(** ** The round timers *)

(** The fields that hold the round timers. *)
Definition timersOf (w : World) : gmap nat Callback * gmap string nat * nat :=
  (intervals w, roomTimers w, nextHandle w).

(** How one event may change them: not at all; as [clearRoomTimer] does; a
    timer stops itself at its last second; or the startGame handler arms a
    new one under the next handle. *)
Inductive timerChange (rev : revision) (w w' : World) : Prop :=
  | tc_same :
      timersOf w' = timersOf w → timerChange rev w w'
  | tc_cleared roomId :
      rev = part_000 →
      timersOf w' = timersOf (clearRoomTimer roomId w) →
      timerChange rev w w'
  | tc_stopped h roomId l starter :
      intervals w !! h = Some (roundTimer roomId l starter) →
      intervals w' = delete h (intervals w) →
      roomTimers w' = match rev with
                      | part_000 => delete roomId (roomTimers w)
                      | server_js => roomTimers w
                      end →
      nextHandle w' = nextHandle w →
      timerChange rev w w'
  | tc_armed roomId l starter :
      is_Some (store w !! l) →
      intervals w' = <[nextHandle w := roundTimer roomId l starter]> (intervals w) →
      roomTimers w' = match rev with
                      | part_000 => <[roomId := nextHandle w]> (roomTimers w)
                      | server_js => roomTimers w
                      end →
      nextHandle w' = S (nextHandle w) →
      timerChange rev w w'.

(** Every live interval is a round timer with a handle handed out earlier,
    for a room object that exists; [roomTimers] is used by part_000 only,
    and what it records for a room id is a live timer of that id. *)
Definition timerInv (rev : revision) (w : World) : Prop :=
  (∀ h cb, intervals w !! h = Some cb →
     h < nextHandle w ∧
     ∃ roomId l starter, cb = roundTimer roomId l starter ∧ is_Some (store w !! l)) ∧
  (∀ roomId h, roomTimers w !! roomId = Some h →
     rev = part_000 ∧
     ∃ l starter, intervals w !! h = Some (roundTimer roomId l starter)).

(** * Runs of the server used as examples *)

Definition roomOf (roomId : string) (w : World) : option GameRoom :=
  snd <$> getRoom roomId w.

(** ** The scenario of the spec: players A (admin), B and C *)

Definition idA : ident := uid 1.
Definition idB : ident := uid 2.
Definition idC : ident := uid 3.

Definition playerA : Player := mkPlayer idA (Some "A") "socketA" true.
Definition playerB : Player := mkPlayer idB (Some "B") "socketB" false.
Definition playerC : Player := mkPlayer idC (Some "C") "socketC" false.

(** The votes A→B, C→B, B→A, in that order. *)
Definition scenarioVotes : list (ident * ident) :=
  [(idA, idB); (idC, idB); (idB, idA)].

(** The room after the three votes have been recorded: imposter B. *)
Definition scenarioRoom : GameRoom :=
  mkGameRoom "ROOM01" "room" idA [playerA; playerB; playerC] voting
    defaultSettings
    (mkRound (Some "Zebra") (Some playerB) 60 ∅ scenarioVotes None) [].

(** Three users A, B and C connect, log in, and gather in room ROOM01,
    which A creates. *)
Definition lobbyTrace : list (Z * Input) :=
  [ (0, connection "socketA"); (0, received "socketA" (authenticate (Some (1, "A"))));
    (0, connection "socketB"); (0, received "socketB" (authenticate (Some (2, "B"))));
    (0, connection "socketC"); (0, received "socketC" (authenticate (Some (3, "C"))));
    (0, received "socketA" (createRoom "room" "ROOM01"));
    (0, received "socketB" (joinRoom "ROOM01"));
    (0, received "socketC" (joinRoom "ROOM01")) ]%Z.

Definition lobbyRoom : GameRoom :=
  mkGameRoom "ROOM01" "room" idA [playerA; playerB; playerC] waiting
    defaultSettings emptyRound [].

(** ** In the lobby *)

(** In the lobby, A (the admin) sends a theme that is not in the catalog. *)
Definition unknownTheme : SettingsPatch :=
  mkSettingsPatch None None (Some "space") None.

Definition unknownThemeTrace : list (Z * Input) :=
  lobbyTrace ++ [ (0%Z, received "socketA" (updateSettings "ROOM01" unknownTheme)) ].

Definition unknownThemeRoom : GameRoom :=
  set_settings (mkSettings 10 300 "space" "medium") lobbyRoom.

(** A connects, logs in, creates ROOM01, and then sends joinRoom for the
    room it is in. *)
Definition rejoinTrace : list (Z * Input) :=
  [ (0, connection "socketA"); (0, received "socketA" (authenticate (Some (1, "A"))));
    (0, received "socketA" (createRoom "room" "ROOM01"));
    (0, received "socketA" (joinRoom "ROOM01")) ]%Z.

(** ** While playing *)

(** A game in the lobby room: A starts it (the draws make A the imposter
    and Elefant the word). *)
Definition playingTrace : list (Z * Input) :=
  lobbyTrace ++ [ (0%Z, received "socketA" (startGameCmd "ROOM01" 0 0)) ].

(** A has cast a skip vote. *)
Definition oneSkipTrace : list (Z * Input) :=
  playingTrace ++ [ (1%Z, received "socketA" (skipVote "ROOM01")) ].

Definition oneSkipRoom : GameRoom :=
  mkGameRoom "ROOM01" "room" idA [playerA; playerB; playerC] playing
    defaultSettings
    (mkRound (Some "Elefant") (Some playerA) 300 {[idA]} [] (Some 0%Z)) [].

(** A connection that has not logged in and is in no room sends skipVote
    for the room in which A, B and C are playing. *)
Definition outsiderSkipTrace : list (Z * Input) :=
  playingTrace ++
  [ (1, connection "socketX"); (1, received "socketX" (skipVote "ROOM01")) ]%Z.


(** While the game is running, A (the admin) shortens the round. *)
Definition shorterRound : SettingsPatch :=
  mkSettingsPatch None (Some 60%Z) None None.

Definition settingsWhilePlaying : Z * Input :=
  (1%Z, received "socketA" (updateSettings "ROOM01" shorterRound)).

(** Five players: D and E join A, B and C, and A starts the game. *)
Definition fivePlayingTrace : list (Z * Input) :=
  lobbyTrace ++
  [ (0, connection "socketD"); (0, received "socketD" (authenticate (Some (4, "D"))));
    (0, connection "socketE"); (0, received "socketE" (authenticate (Some (5, "E"))));
    (0, received "socketD" (joinRoom "ROOM01"));
    (0, received "socketE" (joinRoom "ROOM01"));
    (0, received "socketA" (startGameCmd "ROOM01" 0 0)) ]%Z.

Definition twoSkipsTrace : list (Z * Input) :=
  fivePlayingTrace ++
  [ (1, received "socketA" (skipVote "ROOM01"));
    (2, received "socketB" (skipVote "ROOM01")) ]%Z.

Definition thirdSkip : Z * Input := (3%Z, received "socketC" (skipVote "ROOM01")).




(** ** While voting *)

(** The scenario of the spec as a run of the server: A starts the game
    with draws that make B the imposter and Zebra the word, A and B skip
    the discussion, then A and C vote for B. *)
Definition votingTrace : list (Z * Input) :=
  lobbyTrace ++
  [ (0, received "socketA" (startGameCmd "ROOM01" (2 ^ 52) (2 ^ 51)));
    (1, received "socketA" (skipVote "ROOM01"));
    (2, received "socketB" (skipVote "ROOM01")) ]%Z.

(** The room of part_000 at that point: voting has begun, no vote is in. *)
Definition votingRoom : GameRoom :=
  mkGameRoom "ROOM01" "room" idA [playerA; playerB; playerC] voting
    defaultSettings
    (mkRound (Some "Zebra") (Some playerB) 60 {[idA; idB]} [] (Some 0%Z)) [].

Definition twoVotesTrace : list (Z * Input) :=
  votingTrace ++
  [ (3, received "socketA" (vote "ROOM01" idB));
    (4, received "socketC" (vote "ROOM01" idB)) ]%Z.

Definition lastVote : Z * Input := (5%Z, received "socketB" (vote "ROOM01" idA)).

(** The round is over: B has voted, and the three timeouts that server.js
    arms after the last vote have run. *)
Definition roundOverTrace : list (Z * Input) :=
  twoVotesTrace ++
  [ lastVote; (15, timeoutFires); (15, timeoutFires); (15, timeoutFires) ]%Z.

(** * Proofs *)

(** ** Insertion-ordered maps *)

Section JsMapFacts.
Context {K V : Type} `{EqDecision K}.
Implicit Types (k : K) (v : V) (m : list (K * V)).

Lemma map_get_set_eq k v m : map_get k (map_set k v m) = Some v.
Proof.
  induction m as [|[k' v'] m IH]; simpl.
  - by rewrite decide_True.
  - destruct (decide (k' = k)) as [->|Hne]; simpl.
    + by rewrite decide_True.
    + by rewrite decide_False.
Qed.

Lemma map_get_set_ne k k' v m :
  k ≠ k' → map_get k' (map_set k v m) = map_get k' m.
Proof.
  intros Hne. induction m as [|[k0 v0] m IH]; simpl.
  - by rewrite decide_False.
  - destruct (decide (k0 = k)) as [->|Hne0]; simpl.
    + by rewrite !decide_False.
    + by rewrite IH.
Qed.

Lemma map_get_None k m : map_get k m = None ↔ k ∉ map_keys m.
Proof.
  unfold map_keys. induction m as [|[k0 v0] m IH]; simpl.
  - split; [intros _; apply not_elem_of_nil | done].
  - rewrite not_elem_of_cons. destruct (decide (k0 = k)) as [->|Hne].
    + split; [done | intros [? _]; done].
    + rewrite IH. split; [by intros ? | by intros [_ ?]].
Qed.

Lemma map_get_Some_elem k v m : map_get k m = Some v → (k, v) ∈ m.
Proof.
  induction m as [|[k0 v0] m IH]; simpl; [done|].
  destruct (decide (k0 = k)) as [->|Hne].
  - intros [= ->]. apply list_elem_of_here.
  - intros Hg. apply list_elem_of_further. by apply IH.
Qed.

(** [set] on a key that is present keeps the key order; on a new key it
    appends. *)
Lemma map_keys_set k v m :
  map_keys (map_set k v m) =
    if decide (k ∈ map_keys m) then map_keys m else map_keys m ++ [k].
Proof.
  unfold map_keys. induction m as [|[k0 v0] m IH].
  - destruct (decide (k ∈ ([] : list (K * V)).*1)) as [Hin|_]; [|done].
    by apply elem_of_nil in Hin.
  - cbn [map_set]. destruct (decide (k0 = k)) as [->|Hne].
    + destruct (decide (k ∈ ((k, v0) :: m).*1)) as [_|Hnin]; [done|].
      exfalso. apply Hnin. apply list_elem_of_here.
    + rewrite fmap_cons, IH. cbn [fst].
      destruct (decide (k ∈ m.*1)) as [Hin|Hnin];
        destruct (decide (k ∈ ((k0, v0) :: m).*1)) as [Hin'|Hnin']; try done.
      * exfalso. apply Hnin'. by apply list_elem_of_further.
      * apply elem_of_cons in Hin' as [->|?]; done.
Qed.

Lemma map_keys_set_NoDup k v m :
  NoDup (map_keys m) → NoDup (map_keys (map_set k v m)).
Proof.
  intros Hnd. rewrite map_keys_set. case_decide; [done|].
  apply NoDup_app. split_and!; [done | | apply NoDup_singleton].
  intros x Hx Hx'. apply list_elem_of_singleton in Hx'. by subst.
Qed.

Lemma map_size_set k v m :
  map_size (map_set k v m) =
    if decide (k ∈ map_keys m) then map_size m else S (map_size m).
Proof.
  unfold map_size.
  rewrite <-(length_fmap fst (map_set k v m)), <-(length_fmap fst m).
  change (length (map_keys (map_set k v m)) =
          if decide (k ∈ map_keys m) then length (map_keys m)
          else S (length (map_keys m))).
  rewrite map_keys_set. case_decide; [done|].
  rewrite length_app. simpl. lia.
Qed.

End JsMapFacts.

(** ** The tally of [endGame] *)

Lemma countVote_get (vc : list (ident * nat)) (v : ident * ident) (t : ident) :
  default 0 (map_get t (countVote vc v)) =
    default 0 (map_get t vc) + (if decide (v.2 = t) then 1 else 0).
Proof.
  unfold countVote. destruct (decide (v.2 = t)) as [->|Hne].
  - rewrite map_get_set_eq. simpl. lia.
  - rewrite map_get_set_ne by done. lia.
Qed.

Lemma countVotes_acc_get (vs : list (ident * ident)) (vc : list (ident * nat))
  (t : ident) :
  default 0 (map_get t (foldl countVote vc vs)) =
    default 0 (map_get t vc) + votesFor t vs.
Proof.
  revert vc. induction vs as [|v vs IH]; intros vc; simpl.
  - unfold votesFor. simpl. lia.
  - rewrite IH, countVote_get. unfold votesFor. rewrite filter_cons.
    destruct (decide (v.2 = t)); simpl; lia.
Qed.

Lemma countVotes_get (vs : list (ident * ident)) (t : ident) :
  default 0 (map_get t (countVotes vs)) = votesFor t vs.
Proof. unfold countVotes. by rewrite countVotes_acc_get. Qed.

Lemma countVotes_acc_NoDup (vs : list (ident * ident)) (vc : list (ident * nat)) :
  NoDup (map_keys vc) → NoDup (map_keys (foldl countVote vc vs)).
Proof.
  revert vc. induction vs as [|v vs IH]; intros vc Hnd; simpl; [done|].
  apply IH. unfold countVote. by apply map_keys_set_NoDup.
Qed.

Lemma countVotes_NoDup (vs : list (ident * ident)) :
  NoDup (map_keys (countVotes vs)).
Proof. apply countVotes_acc_NoDup. apply NoDup_nil_2. Qed.

Lemma countVotes_elem (vs : list (ident * ident)) (t : ident) (c : nat) :
  (t, c) ∈ countVotes vs → c = votesFor t vs.
Proof.
  intros Hin. rewrite <-countVotes_get.
  assert (map_get t (countVotes vs) = Some c) as ->; [|done].
  pose proof (countVotes_NoDup vs) as Hnd. revert Hin Hnd.
  generalize (countVotes vs). intros m. unfold map_keys.
  induction m as [|[k0 c0] m IH]; intros Hin Hnd.
  - by apply elem_of_nil in Hin.
  - simpl. apply NoDup_cons in Hnd as [Hk0 Hnd].
    apply elem_of_cons in Hin as [[= <- <-]|Hin].
    + by rewrite decide_True.
    + destruct (decide (k0 = t)) as [->|Hne]; [|by apply IH].
      exfalso. apply Hk0. apply list_elem_of_fmap. by exists (t, c).
Qed.

(** Every target in the tally has at least one vote. *)
Lemma countVotes_acc_pos (vs : list (ident * ident)) (vc : list (ident * nat)) :
  (∀ e, e ∈ vc → 0 < e.2) → ∀ e, e ∈ foldl countVote vc vs → 0 < e.2.
Proof.
  revert vc. induction vs as [|v vs IH]; intros vc Hpos; simpl; [done|].
  apply IH. intros e He. unfold countVote in He.
  remember (default 0 (map_get v.2 vc) + 1) as n eqn:Hn.
  assert (0 < n) as Hn0 by lia. clear Hn.
  induction vc as [|[k0 c0] vc IHvc]; simpl in He.
  - apply list_elem_of_singleton in He as ->. done.
  - destruct (decide (k0 = v.2)) as [->|Hne].
    + apply elem_of_cons in He as [->|He]; [done|].
      apply Hpos. by apply list_elem_of_further.
    + apply elem_of_cons in He as [->|He].
      * apply (Hpos (k0, c0)). apply list_elem_of_here.
      * apply IHvc; [|done]. intros e' He'. apply Hpos.
        by apply list_elem_of_further.
Qed.

Lemma countVotes_pos (vs : list (ident * ident)) (e : ident * nat) :
  e ∈ countVotes vs → 0 < e.2.
Proof.
  apply countVotes_acc_pos. intros e' He'. by apply elem_of_nil in He'.
Qed.

Lemma countVotes_nonempty (vs : list (ident * ident)) :
  vs ≠ [] → countVotes vs ≠ [].
Proof.
  destruct vs as [|v vs]; [done|]. intros _ Hnil.
  pose proof (countVotes_get (v :: vs) v.2) as Hget.
  rewrite Hnil in Hget. unfold votesFor in Hget.
  rewrite filter_cons, decide_True in Hget by done. simpl in Hget. lia.
Qed.

(** The second loop, after any prefix of the tally: either nothing with a
    positive count was seen, or the accumulator holds the first maximum. *)
Lemma findMostVoted_loop (ps : list Player) (vc : list (ident * nat)) :
  let acc := foldl (moreVotes ps) (None, 0) vc in
  (acc = (None, 0) ∧ ∀ e, e ∈ vc → e.2 = 0) ∨
  (0 < acc.2 ∧ ∃ t, firstMax vc t acc.2 ∧ acc.1 = find (hasId t) ps).
Proof.
  induction vc as [|[t c] vc IH] using rev_ind; simpl.
  - left. split; [done|]. intros e He. by apply elem_of_nil in He.
  - rewrite foldl_app. simpl.
    destruct (foldl (moreVotes ps) (None, 0) vc) as [mv mx] eqn:Hacc.
    simpl in IH. cbn [snd]. destruct (mx <? c) eqn:Hlt.
    + apply Nat.ltb_lt in Hlt. right. simpl. split; [lia|].
      exists t. split; [|done]. exists vc, []. split_and!; [done| |].
      * intros e He. destruct IH as [[_ Hz]|[_ (t0 & (b & a & -> & Hb & Ha) & _)]].
        -- rewrite (Hz e He). lia.
        -- apply elem_of_app in He as [He|He]; [specialize (Hb e He); lia|].
           apply elem_of_cons in He as [->|He]; [simpl; lia|].
           specialize (Ha e He). lia.
      * intros e He. by apply elem_of_nil in He.
    + apply Nat.ltb_ge in Hlt.
      destruct IH as [[[= -> ->] Hz]|[Hpos (t0 & (b & a & -> & Hb & Ha) & Hfind)]].
      * left. split; [done|]. intros e He.
        apply elem_of_app in He as [He|He]; [by apply Hz|].
        apply list_elem_of_singleton in He as ->. simpl. lia.
      * right. simpl. split; [done|]. exists t0. split; [|done].
        exists b, (a ++ [(t, c)]). split_and!; [|done|].
        -- by rewrite <-app_assoc.
        -- intros e He. apply elem_of_app in He as [He|He]; [by apply Ha|].
           apply list_elem_of_singleton in He as ->. simpl. lia.
Qed.

Lemma find_hasId (x : ident) (ps : list Player) (p : Player) :
  find (hasId x) ps = Some p → p ∈ ps ∧ player_id p = x.
Proof.
  intros Hf. apply find_some in Hf as [Hin Hid].
  split; [by apply list_elem_of_In|].
  unfold hasId in Hid. by apply bool_decide_eq_true in Hid.
Qed.

(** What [findMostVoted] yields on the tally of a list of votes. *)
Lemma findMostVoted_countVotes (ps : list Player) (vs : list (ident * ident)) :
  match vs with
  | [] => findMostVoted ps (countVotes vs) = None
  | _ :: _ =>
      ∃ t c, firstMax (countVotes vs) t c ∧ 0 < c ∧
             findMostVoted ps (countVotes vs) = find (hasId t) ps
  end.
Proof.
  destruct vs as [|v vs]; [done|].
  pose proof (findMostVoted_loop ps (countVotes (v :: vs))) as Hloop.
  simpl in Hloop. unfold findMostVoted.
  destruct Hloop as [[_ Hz]|[Hpos (t & Hmax & Hfind)]].
  - exfalso.
    pose proof (countVotes_nonempty (v :: vs)) as Hne.
    pose proof (countVotes_pos (v :: vs)) as Hp.
    destruct (countVotes (v :: vs)) as [|e vc]; [by apply Hne|].
    specialize (Hp e (list_elem_of_here _ _)).
    rewrite (Hz e (list_elem_of_here _ _)) in Hp. lia.
  - eauto.
Qed.

Lemma endGame_returns (rev : revision) (now : Z) (r : GameRoom) (imp : Player) :
  imposter (currentRound r) = Some imp →
  ∃ iw,
    let votedOut := findMostVoted (players r) (countVotes (votes (currentRound r))) in
    let entry := mkHistoryEntry (word (currentRound r)) (Some imp) votedOut iw
                   (players r) now in
    imposterWonOf votedOut (Some imp) = Returns iw ∧
    endGame rev now r =
      (set_gameHistory (gameHistory r ++ [entry]) (set_gameState ended r),
       map StatsUpdate (map (statsDelta imp iw votedOut) (players r)) ++
         match rev with server_js => [SetTimeout_resetGame] | part_000 => [] end,
       Returns (mkOutcome (word (currentRound r)) (Some imp) votedOut iw)).
Proof.
  intros Himp. unfold endGame. simpl. rewrite Himp.
  destruct (findMostVoted (players r) (countVotes (votes (currentRound r))))
    as [m|] eqn:Hmv; simpl.
  - eexists. split; [done|]. unfold updatePlayerStats. simpl. rewrite Himp.
    by destruct (players r).
  - eexists. split; [done|]. unfold updatePlayerStats. simpl. rewrite Himp.
    by destruct (players r).
Qed.

(** C3.  When a round is completed, [endGame] counts the votes per target,
    votes out the player whose identity has the greatest count (the first
    such target in the iteration order of the tally when several share
    it), and the imposter wins exactly when nobody was voted out or the
    player voted out is not the imposter.  With players A, B, C, imposter
    B and votes A→B, C→B, B→A the tally is B:2, A:1, B is voted out and
    the imposter has not won. *)
Theorem C3_endGame_tally (rev : revision) (now : Z) (r : GameRoom) (imp : Player) :
  imposter (currentRound r) = Some imp →
  let vs := votes (currentRound r) in
  let tally := countVotes vs in
  (∃ r' effs out,
     endGame rev now r = (r', effs, Returns out) ∧
     gameState r' = ended ∧
     (∀ t, default 0 (map_get t tally) = votesFor t vs) ∧
     (∀ t c, (t, c) ∈ tally → c = votesFor t vs ∧ 0 < c) ∧
     NoDup (map_keys tally) ∧
     (vs = [] → o_votedOut out = None) ∧
     (vs ≠ [] →
      ∃ t c, firstMax tally t c ∧ o_votedOut out = find (hasId t) (players r)) ∧
     (∀ p, o_votedOut out = Some p →
           p ∈ players r ∧ ∃ c, firstMax tally (player_id p) c) ∧
     (o_imposterWon out = true ↔
        o_votedOut out = None ∨
        ∃ p, o_votedOut out = Some p ∧ player_id p ≠ player_id imp)) ∧
  countVotes scenarioVotes = [(idB, 2); (idA, 1)] ∧
  (endGame rev now scenarioRoom).2 =
    Returns (mkOutcome (Some "Zebra") (Some playerB) (Some playerB) false).
Proof.
  intros Himp vs tally. split; [|split; [done | by destruct rev]].
  destruct (endGame_returns rev now r imp Himp) as (iw & Hiw & ->).
  pose proof (findMostVoted_countVotes (players r) vs) as Hmost.
  fold vs tally in Hiw, Hmost |- *.
  eexists _, _, _. split; [done|]. simpl.
  split_and!.
  - done.
  - intros t. apply countVotes_get.
  - intros t c Hin. split; [by apply countVotes_elem|].
    apply (countVotes_pos vs (t, c) Hin).
  - apply countVotes_NoDup.
  - intros Hnil. by rewrite Hnil in Hmost.
  - intros Hne. destruct vs as [|v vs']; [done|].
    destruct Hmost as (t & c & Hmax & _ & Hfind). eauto.
  - intros p Hp. destruct vs as [|v vs']; [by rewrite Hmost in Hp|].
    destruct Hmost as (t & c & Hmax & _ & Hfind).
    rewrite Hfind in Hp. apply find_hasId in Hp as [Hin <-]. eauto.
  - destruct (findMostVoted (players r) tally) as [m|]; simpl in Hiw.
    + injection Hiw as <-. rewrite bool_decide_eq_true. split.
      * intros Hne. right. eauto.
      * intros [[=]|(p & [= <-] & Hne)]. done.
    + injection Hiw as <-. split; [by left | done].
Qed.

(** The scenario as an instance of C3. *)
Lemma C3_endGame_tally_witness :
  imposter (currentRound scenarioRoom) = Some playerB ∧
  ∃ out, (endGame part_000 0 scenarioRoom).2 = Returns out ∧
         o_votedOut out = Some playerB ∧ o_imposterWon out = false.
Proof.
  split; [reflexivity|].
  destruct (C3_endGame_tally part_000 0 scenarioRoom playerB eq_refl)
    as (_ & _ & Hout).
  eexists. split; [exact Hout|]. split; reflexivity.
Defined.

(** ** [startGame] *)

Lemma randomIndex_lt (u : N) (n : nat) : 0 < n → randomIndex u n < n.
Proof.
  intros Hn. unfold randomIndex.
  assert (random_denominator ≠ 0)%N as HD by done.
  pose proof (N.mod_upper_bound u random_denominator HD) as Hu.
  assert (((u mod random_denominator) * N.of_nat n) / random_denominator
          < N.of_nat n)%N as Hlt.
  { apply N.Div0.div_lt_upper_bound.
    assert (0 < N.of_nat n)%N by lia. nia. }
  lia.
Qed.

Lemma getProperty_Own {A} (obj : list (string * A)) (key : string) (a : A) :
  getProperty obj key = Own a ↔ map_get key obj = Some a.
Proof.
  unfold getProperty. destruct (map_get key obj) as [a'|].
  - split; congruence.
  - split; [|done]. by case_bool_decide.
Qed.

(** Every list of the catalog has words in it. *)
Lemma catalogWords_nonempty (th df : string) (ws : list string) :
  catalogWords th df = Some ws → ws ≠ [].
Proof.
  unfold catalogWords, wordLibraries. simpl.
  repeat (case_decide; simpl; [repeat (case_decide; simpl); congruence|]).
  done.
Qed.

Lemma catalogWords_getProperty (th df : string) (ws : list string) :
  catalogWords th df = Some ws ↔
  ∃ lib, getProperty wordLibraries th = Own lib ∧
         getProperty (lib_words lib) df = Own ws.
Proof.
  unfold catalogWords. split.
  - intros Hc. destruct (map_get th wordLibraries) as [lib|] eqn:Hlib; [|done].
    simpl in Hc. exists lib. by rewrite !getProperty_Own.
  - intros (lib & Hlib & Hws). apply getProperty_Own in Hlib, Hws.
    rewrite Hlib. simpl. done.
Qed.

Lemma lobbyTrace_room (rev : revision) :
  getRoom "ROOM01" (run rev emptyWorld lobbyTrace) = Some (0, lobbyRoom).
Proof. destruct rev; vm_compute; reflexivity. Qed.

(** C1, as stated, fails: a room the server can hold has three players and
    is waiting, yet [startGame] does not succeed.  [wordLibraries["space"]]
    is [undefined], the call throws, and [gameState] and [imposter] have
    already been assigned. *)
Lemma C1_counterexample :
  getRoom "ROOM01" (run server_js emptyWorld unknownThemeTrace)
    = Some (0, unknownThemeRoom) ∧
  getRoom "ROOM01" (run part_000 emptyWorld unknownThemeTrace)
    = Some (0, unknownThemeRoom) ∧
  length (players unknownThemeRoom) = 3 ∧
  gameState unknownThemeRoom = waiting ∧
  (startGame server_js 0 0 0 unknownThemeRoom).2 = Throws ∧
  (startGame part_000 0 0 0 unknownThemeRoom).2 = Throws ∧
  gameState (startGame part_000 0 0 0 unknownThemeRoom).1 = playing ∧
  ¬ ∃ r', startGame part_000 0 0 0 unknownThemeRoom = (r', Returns true).
Proof.
  split_and!; try (vm_compute; reflexivity).
  intros [r' Hr']. vm_compute in Hr'. discriminate Hr'.
Qed.

(** C1, amended.  [startGame] returns false and leaves the room as it is
    when there are fewer than three players or the room is not waiting.
    Otherwise, when the theme and the difficulty of the settings are keys
    of the word catalog, it returns true, the room is playing, the imposter
    is one of the players, the word is taken from the catalog list of that
    theme and difficulty, [timeRemaining] is the round time of the
    settings, and [skipVotes] and [votes] are empty; players, settings,
    admin and history are untouched. *)
Theorem C1_startGame (rev : revision) (u1 u2 : N) (now : Z) (r : GameRoom) :
  (length (players r) < 3 ∨ gameState r ≠ waiting →
   startGame rev u1 u2 now r = (r, Returns false)) ∧
  (3 ≤ length (players r) → gameState r = waiting →
   ∀ ws, catalogWords (theme (settings r)) (difficulty (settings r)) = Some ws →
   ∃ r' imp w,
     startGame rev u1 u2 now r = (r', Returns true) ∧
     gameState r' = playing ∧
     imposter (currentRound r') = Some imp ∧ imp ∈ players r ∧
     word (currentRound r') = Some w ∧ w ∈ ws ∧
     timeRemaining (currentRound r') = roundTime (settings r) ∧
     skipVotes (currentRound r') = ∅ ∧
     votes (currentRound r') = [] ∧
     players r' = players r ∧ settings r' = settings r ∧
     adminId r' = adminId r ∧ gameHistory r' = gameHistory r ∧
     room_id r' = room_id r ∧ room_name r' = room_name r).
Proof.
  split.
  - intros Hpre. unfold startGame.
    destruct (length (players r) <? 3) eqn:Hn; [done|].
    apply Nat.ltb_ge in Hn. destruct Hpre as [?|Hst]; [lia|].
    by rewrite bool_decide_eq_true_2.
  - intros Hn Hst ws Hws. unfold startGame.
    apply Nat.ltb_ge in Hn as Hn'. rewrite Hn'.
    rewrite bool_decide_eq_false_2 by (by intros ?). simpl.
    apply catalogWords_getProperty in Hws as Hprop.
    destruct Hprop as (lib & -> & ->).
    pose proof (randomIndex_lt u1 (length (players r)) ltac:(lia)) as Hi.
    apply lookup_lt_is_Some_2 in Hi as [imp Himp].
    assert (0 < length ws) as Hlen.
    { apply catalogWords_nonempty in Hws. destruct ws; [done | simpl; lia]. }
    pose proof (randomIndex_lt u2 (length ws) Hlen) as Hj.
    apply lookup_lt_is_Some_2 in Hj as [w Hw].
    exists (set_currentRound
              (match rev with
               | part_000 => set_startTime (Some now)
               | server_js => fun c => c
               end (mkRound (Some w) (Some imp) (roundTime (settings r)) ∅ [] 
                      (startTime (currentRound r))))
              (set_gameState playing r)), imp, w.
    rewrite Himp, Hw.
    split_and!; try (by destruct rev).
    + by apply list_elem_of_lookup_2 in Himp.
    + by apply list_elem_of_lookup_2 in Hw.
Qed.

(** C1 (amended) at the lobby of A, B and C with the default settings. *)
Lemma C1_startGame_witness :
  ∃ r' imp w,
    startGame part_000 0 0 0 lobbyRoom = (r', Returns true) ∧
    gameState r' = playing ∧
    imposter (currentRound r') = Some imp ∧ imp ∈ players lobbyRoom ∧
    word (currentRound r') = Some w.
Proof.
  destruct (C1_startGame part_000 0 0 0 lobbyRoom) as [_ Hok].
  destruct (Hok ltac:(simpl; lia) eq_refl _ eq_refl)
    as (r' & imp & w & H1 & H2 & H3 & H4 & H5 & _).
  by exists r', imp, w.
Defined.

(** ** Every room of the server has such a history *)

Lemma getRoom_store (roomId : string) (w : World) (l : loc) (r : GameRoom) :
  getRoom roomId w = Some (l, r) → rooms w !! roomId = Some l ∧ store w !! l = Some r.
Proof.
  unfold getRoom. destruct (rooms w !! roomId) as [l0|]; [|done]. simpl.
  destruct (store w !! l0) as [r0|] eqn:Hr0; [|done]. simpl.
  by intros [= <- <-].
Qed.

Lemma store_performAll (l : loc) (es : list Effect) (w : World) :
  store (performAll l es w) = store w.
Proof.
  unfold performAll. revert w. induction es as [|e es IH]; intros w; [done|].
  simpl. rewrite IH. by destruct e.
Qed.

Lemma store_clearRoomTimer (roomId : string) (w : World) :
  store (clearRoomTimer roomId w) = store w.
Proof. unfold clearRoomTimer. by destruct (roomTimers w !! roomId). Qed.

Lemma store_notifyStart (room : GameRoom) (imp : Player) (ps : list Player)
  (w : World) :
  store (foldl (notifyStart room imp) w ps) = store w.
Proof.
  revert w. induction ps as [|p ps IH]; intros w; [done|].
  simpl. rewrite IH. unfold notifyStart. by destruct (find _ _).
Qed.

Lemma on_authenticate_store rev s decoded w :
  storeChange rev w (on_authenticate s decoded w).
Proof. apply store_same. unfold on_authenticate. by destruct decoded as [[? ?]|]. Qed.

Lemma on_createRoom_store rev s roomName roomId w :
  storeChange rev w (on_createRoom rev s roomName roomId w).
Proof.
  unfold on_createRoom. destruct (falsy (userId s)) eqn:Hf.
  - by apply store_same.
  - by eapply store_new.
Qed.

Lemma on_joinRoom_store rev now s roomId w :
  storeChange rev w (on_joinRoom rev now s roomId w).
Proof.
  unfold on_joinRoom. destruct (falsy (userId s)); [by apply store_same|].
  destruct (getRoom roomId w) as [[l room]|] eqn:Hg; [|by apply store_same].
  apply getRoom_store in Hg as [_ Hl].
  case_bool_decide as Hst; [by apply store_same|].
  destruct (addPlayer rev (newPlayer s false) room) as [room' ok] eqn:Hadd.
  destruct ok; [|by apply store_same].
  apply (store_op _ _ _ l room (opJoin (userId s) (socket_username s) (socket_id s)));
    [done|].
  simpl. rewrite bool_decide_eq_false_2 by (by intros ?).
  unfold newPlayer in Hadd. by rewrite Hadd.
Qed.

Lemma departRoom_store rev roomId l room s notice now w :
  store w !! l = Some room →
  storeChange rev w (departRoom roomId l room s notice now w).
Proof.
  intros Hl. apply (store_op _ _ _ l room (opLeave (userId s))); [done|].
  unfold departRoom. simpl.
  destruct (removePlayer (userId s) room) as [room' empty].
  destruct empty; [done|]. by destruct notice.
Qed.

Lemma storeChange_proper rev w0 w w' :
  store w0 = store w → storeChange rev w0 w' → storeChange rev w w'.
Proof.
  intros Heq [Hs|l r op Hl Hs|l s rn ri Hf Hs].
  - apply store_same. congruence.
  - apply (store_op _ _ _ l r op); congruence.
  - apply (store_new _ _ _ l s rn ri); congruence.
Qed.

Lemma storeChange_after rev w w' w'' :
  store w'' = store w' → storeChange rev w w' → storeChange rev w w''.
Proof.
  intros Heq [Hs|l r op Hl Hs|l s rn ri Hf Hs].
  - apply store_same. congruence.
  - apply (store_op _ _ _ l r op); congruence.
  - apply (store_new _ _ _ l s rn ri); congruence.
Qed.

Lemma on_leaveRoom_store rev now s roomId w :
  storeChange rev w (on_leaveRoom rev now s roomId w).
Proof.
  unfold on_leaveRoom.
  destruct (getRoom roomId w) as [[l room]|] eqn:Hg; [|by apply store_same].
  apply getRoom_store in Hg as [_ Hl].
  destruct rev.
  - eapply storeChange_after; [|by apply departRoom_store]. done.
  - eapply storeChange_after;
      [|eapply storeChange_proper; [apply (store_clearRoomTimer roomId)|];
        apply departRoom_store; by rewrite store_clearRoomTimer].
    done.
Qed.

Lemma on_disconnect_store rev now s w :
  storeChange rev w (on_disconnect rev now s w).
Proof.
  unfold on_disconnect.
  destruct (socket_roomId s) as [roomId|]; [|by apply store_same].
  case_bool_decide; [by apply store_same|].
  destruct (getRoom roomId _) as [[l room]|] eqn:Hg; [|by apply store_same].
  apply getRoom_store in Hg as [_ Hl]. simpl in Hl.
  eapply (storeChange_proper _ (set_sockets _ w)); [done|].
  destruct rev.
  - by apply departRoom_store.
  - eapply storeChange_proper; [apply (store_clearRoomTimer roomId)|].
    apply departRoom_store. by rewrite store_clearRoomTimer.
Qed.

Lemma on_updateSettings_store rev s roomId patch w :
  storeChange rev w (on_updateSettings s roomId patch w).
Proof.
  unfold on_updateSettings.
  destruct (getRoom roomId w) as [[l room]|] eqn:Hg; [|by apply store_same].
  apply getRoom_store in Hg as [_ Hl].
  case_bool_decide; [by apply store_same|].
  by apply (store_op _ _ _ l room (opSettings patch)).
Qed.

Lemma on_startGame_store rev now s roomId u1 u2 w :
  storeChange rev w (on_startGame rev now s roomId u1 u2 w).
Proof.
  unfold on_startGame.
  destruct (getRoom roomId w) as [[l room]|] eqn:Hg; [|by apply store_same].
  apply getRoom_store in Hg as [_ Hl].
  case_bool_decide; [by apply store_same|].
  apply (store_op _ _ _ l room (opStart u1 u2 now)); [done|]. simpl.
  destruct (startGame rev u1 u2 now room) as [room' [[]|]]; simpl; try done.
  destruct (imposter (currentRound room')); [|done].
  destruct rev; simpl; by rewrite store_notifyStart.
Qed.

Lemma on_interval_store rev timer w :
  storeChange rev w (on_interval rev timer w).
Proof.
  unfold on_interval.
  destruct (intervals w !! timer) as [[roomId l starter| | |]|];
    try by apply store_same.
  destruct (store w !! l) as [room|] eqn:Hl; [|by apply store_same].
  apply (store_op _ _ _ l room opTick); [done|]. simpl. unfold tick.
  destruct (_ <=? _)%Z; [|done]. by destruct rev.
Qed.

Lemma on_skipVote_store rev s roomId w :
  storeChange rev w (on_skipVote rev s roomId w).
Proof.
  unfold on_skipVote.
  destruct (getRoom roomId w) as [[l room]|] eqn:Hg; [|by apply store_same].
  apply getRoom_store in Hg as [_ Hl].
  case_bool_decide as Hst; [by apply store_same|].
  apply (store_op _ _ _ l room (opSkip (userId s))); [done|]. simpl.
  rewrite bool_decide_eq_false_2 by (by intros ?).
  destruct (addSkipVote rev (userId s) room) as [room' reached]. simpl.
  destruct rev; simpl.
  - by case_bool_decide.
  - destruct (truthy reached); simpl; [|done]. by rewrite store_clearRoomTimer.
Qed.

Lemma on_vote_store rev now s roomId playerId w :
  storeChange rev w (on_vote rev now s roomId playerId w).
Proof.
  unfold on_vote.
  destruct (getRoom roomId w) as [[l room]|] eqn:Hg; [|by apply store_same].
  apply getRoom_store in Hg as [_ Hl].
  case_bool_decide as Hst; [by apply store_same|].
  apply (store_op _ _ _ l room (opVote now (userId s) playerId)); [done|]. simpl.
  rewrite bool_decide_eq_false_2 by (by intros ?). unfold voteOp.
  destruct (addVote rev now (userId s) playerId room) as [[room1 effs] [results|]];
    simpl; [|by rewrite store_performAll].
  destruct rev.
  - case_bool_decide; simpl; [|by rewrite store_performAll].
    destruct (endGame server_js now room1) as [[room2 effs2] [o|]]; simpl;
      rewrite !store_performAll; simpl; rewrite store_performAll; simpl;
      by rewrite insert_insert_eq.
  - destruct results; simpl; by rewrite store_performAll.
Qed.

Lemma on_timeout_store rev w : storeChange rev w (on_timeout w).
Proof.
  unfold on_timeout. destruct (timeouts w) as [|cb rest]; [by apply store_same|].
  destruct cb as [roomId l starter|roomId l|l|roomId l]; simpl.
  - by apply store_same.
  - destruct (store w !! l) as [room|] eqn:Hl; [|by apply store_same].
    by apply (store_op _ _ _ l room opReset).
  - destruct (store w !! l) as [room|] eqn:Hl; [|by apply store_same].
    by apply (store_op _ _ _ l room opReset).
  - destruct (store w !! l) as [room|] eqn:Hl; by apply store_same.
Qed.

Lemma step_store (rev : revision) (w : World) (i : Z * Input) :
  storeChange rev w (step rev w i).
Proof.
  destruct i as [now [sid|sid c|timer|]]; simpl.
  - destruct (map_get sid (sockets w)); by apply store_same.
  - destruct (map_get sid (sockets w)) as [s|]; [|by apply store_same].
    destruct c; simpl.
    + apply on_authenticate_store.
    + apply on_createRoom_store.
    + apply on_joinRoom_store.
    + apply on_leaveRoom_store.
    + apply on_updateSettings_store.
    + apply on_startGame_store.
    + apply on_skipVote_store.
    + apply on_vote_store.
    + apply on_disconnect_store.
  - apply on_interval_store.
  - apply on_timeout_store.
Qed.

Lemma run_snoc (rev : revision) (w : World) (trace : list (Z * Input))
  (i : Z * Input) :
  run rev w (trace ++ [i]) = step rev (run rev w trace) i.
Proof. unfold run. by rewrite foldl_app. Qed.

(** Every room object of a reachable world was created by [createRoom]
    and changed by handlers only. *)
Theorem reachableRoom_roomReach (rev : revision) (r : GameRoom) :
  reachableRoom rev r → roomReach rev r.
Proof.
  intros (w & l & [trace ->] & Hl). revert l r Hl.
  induction trace as [|i trace IH] using rev_ind; intros l r Hl.
  - change (store (run rev emptyWorld [])) with (∅ : gmap loc GameRoom) in Hl.
    by rewrite lookup_empty in Hl.
  - rewrite run_snoc in Hl.
    destruct (step_store rev (run rev emptyWorld trace) i)
      as [Hs|l0 r0 op Hl0 Hs|l0 s rn ri Hf Hs]; rewrite Hs in Hl.
    + by eapply IH.
    + destruct (decide (l0 = l)) as [->|Hne].
      * rewrite lookup_insert_eq in Hl. injection Hl as <-.
        apply reach_op. by eapply IH.
      * rewrite lookup_insert_ne in Hl by done. by eapply IH.
    + destruct (decide (l0 = l)) as [->|Hne].
      * rewrite lookup_insert_eq in Hl. injection Hl as <-.
        by apply reach_created.
      * rewrite lookup_insert_ne in Hl by done. by eapply IH.
Qed.

(** ** One admin per room *)

Lemma sameRoster_adminInv (r r' : GameRoom) :
  sameRoster r r' → adminInv r → adminInv r'.
Proof. intros [Hp Ha]. unfold adminInv. by rewrite Hp, Ha. Qed.

Lemma startGame_sameRoster rev u1 u2 now r :
  sameRoster r (startGame rev u1 u2 now r).1.
Proof.
  unfold startGame. destruct (_ <? 3); [done|].
  case_bool_decide; [done|]. simpl.
  destruct (getProperty wordLibraries _) as [lib| |]; try done.
  destruct (getProperty (lib_words lib) _); try done.
Qed.

Lemma endRound_sameRoster r : sameRoster r (endRound r).
Proof. done. Qed.

Lemma tick_sameRoster r : sameRoster r (tick r).
Proof. unfold tick. by destruct (_ <=? _)%Z. Qed.

Lemma addSkipVote_sameRoster rev x r : sameRoster r (addSkipVote rev x r).1.
Proof. unfold addSkipVote. by destruct (_ <=? _). Qed.

Lemma endGame_sameRoster rev now r : sameRoster r (endGame rev now r).1.1.
Proof.
  unfold endGame. destruct (imposterWonOf _ _); [|done]. simpl.
  by destruct (updatePlayerStats _ _ _).
Qed.

Lemma addVote_sameRoster rev now x t r : sameRoster r (addVote rev now x t r).1.1.
Proof.
  unfold addVote. destruct (_ =? _); [|done].
  pose proof (endGame_sameRoster rev now
    (set_currentRound
       (set_votes (map_set x t (votes (currentRound r))) (currentRound r)) r)) as Hs.
  destruct (endGame rev now _) as [[r2 effs] [o|]]; exact Hs.
Qed.

Lemma voteOp_sameRoster rev now x t r : sameRoster r (voteOp rev now x t r).
Proof.
  unfold voteOp. pose proof (addVote_sameRoster rev now x t r) as Hs.
  destruct (addVote rev now x t r) as [[r1 effs] [res|]]; simpl in Hs; [|done].
  destruct rev; [|done]. case_bool_decide; [|done].
  destruct (endGame_sameRoster server_js now r1) as [Hp Ha].
  destruct Hs as [Hp' Ha']. split; congruence.
Qed.

Lemma admins_le (ps : list Player) : admins ps ≤ length ps.
Proof. apply length_filter. Qed.

Lemma admins_zero (ps : list Player) (p : Player) :
  admins ps = 0 → p ∈ ps → isAdmin p = false.
Proof.
  unfold admins. intros Hz Hin. apply length_zero_iff_nil in Hz.
  destruct (isAdmin p) eqn:Hp; [|done].
  assert (p ∈ filter (fun p => isAdmin p = true) ps) as Hf
    by (by apply list_elem_of_filter).
  rewrite Hz in Hf. by apply elem_of_nil in Hf.
Qed.

Lemma admins_filter_other (a x : ident) (ps : list Player) :
  (∀ p, p ∈ ps → isAdmin p = true → player_id p = a) → x ≠ a →
  admins (filter (fun p => player_id p ≠ x) ps) = admins ps.
Proof.
  intros Hflag Hne. unfold admins. induction ps as [|p ps IH]; [done|].
  assert (∀ q, q ∈ ps → isAdmin q = true → player_id q = a) as Hflag'
    by (intros q Hq; apply Hflag; by apply list_elem_of_further).
  specialize (IH Hflag').
  rewrite (filter_cons _ p ps).
  destruct (decide (player_id p ≠ x)) as [Hkeep|Hdrop].
  - rewrite !(filter_cons _ p). destruct (decide (isAdmin p = true)); simpl; by rewrite IH.
  - rewrite IH. rewrite (filter_cons _ p ps).
    destruct (decide (isAdmin p = true)) as [Hadm|]; [|done].
    exfalso. apply Hdrop. rewrite (Hflag p (list_elem_of_here _ _) Hadm). by intros ->.
Qed.

Lemma admins_filter_admin (a : ident) (ps : list Player) :
  (∀ p, p ∈ ps → isAdmin p = true → player_id p = a) →
  admins (filter (fun p => player_id p ≠ a) ps) = 0.
Proof.
  intros Hflag. unfold admins. apply length_zero_iff_nil.
  destruct (filter _ (filter _ ps)) as [|p l] eqn:Hf; [done|].
  assert (p ∈ filter (fun p => isAdmin p = true)
                (filter (fun p => player_id p ≠ a) ps)) as Hp
    by (rewrite Hf; apply list_elem_of_here).
  apply list_elem_of_filter in Hp as [Hadm Hp].
  apply list_elem_of_filter in Hp as [Hne Hin].
  exfalso. apply Hne. by apply Hflag.
Qed.

Lemma addPlayer_adminInv (rev : revision) (p : Player) (r : GameRoom) :
  isAdmin p = false → adminInv r → adminInv (addPlayer rev p r).1.
Proof.
  intros Hp [Hflag Hcount]. unfold addPlayer.
  destruct (_ <=? _)%Z; [done|].
  destruct (_ && _); [done|].
  destruct (players r) as [|q ps] eqn:Hps; simpl.
  - split; [|done]. intros p' Hp' _.
    by apply list_elem_of_singleton in Hp' as ->.
  - split.
    + simpl. intros p' Hp' Hadm.
      change (q :: ps ++ [p]) with ((q :: ps) ++ [p]) in Hp'.
      apply elem_of_app in Hp' as [Hp'|Hp']; [by apply Hflag|].
      apply list_elem_of_singleton in Hp' as ->. congruence.
    + simpl. unfold admins in *.
      change (q :: ps ++ [p]) with ((q :: ps) ++ [p]).
      rewrite filter_app, length_app, Hcount.
      rewrite (filter_cons_False _ p []) by congruence.
      simpl. lia.
Qed.

Lemma removePlayer_adminInv (x : ident) (r : GameRoom) :
  adminInv r → adminInv (removePlayer x r).1.
Proof.
  intros [Hflag Hcount]. unfold removePlayer.
  destruct (filter _ (players r)) as [|first rest] eqn:Hrem.
  { split; [|done]. intros p Hp. by apply elem_of_nil in Hp. }
  case_bool_decide as Hx; simpl.
  - subst x. pose proof (admins_filter_admin _ _ Hflag) as Hzero.
    rewrite Hrem in Hzero.
    assert (admins rest = 0) as Hrest.
    { unfold admins in *. rewrite filter_cons in Hzero.
      destruct (decide (isAdmin first = true)); simpl in Hzero; lia. }
    split.
    + intros p Hp Hadm. apply elem_of_cons in Hp as [->|Hp]; [done|].
      rewrite (admins_zero rest p Hrest Hp) in Hadm. done.
    + simpl. unfold admins in *. rewrite filter_cons_True by done. simpl.
      by rewrite Hrest.
  - pose proof (admins_filter_other _ x _ Hflag ltac:(congruence)) as Hsame.
    rewrite Hrem in Hsame. split.
    + intros p Hp. apply Hflag.
      assert (p ∈ filter (fun p => player_id p ≠ x) (players r)) as Hin
        by (by rewrite Hrem).
      by apply list_elem_of_filter in Hin as [_ ?].
    + change (admins (first :: rest) = min 1 (length (first :: rest))).
      pose proof (length_filter (fun p => player_id p ≠ x) (players r)) as Hle.
      rewrite Hrem in Hle. rewrite Hsame, Hcount. cbn [length] in *. lia.
Qed.

Lemma createdRoom_players (rev : revision) (s : Socket) (roomName roomId : string) :
  createdRoom rev s roomName roomId =
    mkGameRoom roomId roomName (userId s) [newPlayer s true] waiting
      defaultSettings emptyRound [].
Proof. by destruct rev. Qed.

Lemma applyOp_adminInv (rev : revision) (r : GameRoom) (op : RoomOp) :
  adminInv r → adminInv (applyOp rev r op).
Proof.
  intros Hinv. destruct op; simpl.
  - case_bool_decide; [done|]. by apply addPlayer_adminInv.
  - by apply removePlayer_adminInv.
  - done.
  - eapply sameRoster_adminInv; [apply startGame_sameRoster | done].
  - eapply sameRoster_adminInv; [apply tick_sameRoster | done].
  - case_bool_decide; [done|].
    eapply sameRoster_adminInv; [apply addSkipVote_sameRoster | done].
  - case_bool_decide; [done|].
    eapply sameRoster_adminInv; [apply voteOp_sameRoster | done].
  - done.
Qed.

Lemma roomReach_adminInv (rev : revision) (r : GameRoom) :
  roomReach rev r → adminInv r.
Proof.
  induction 1 as [s rn ri Hf|r op _ IH].
  - rewrite createdRoom_players. split; [|done].
    intros p Hp _. by apply list_elem_of_singleton in Hp as ->.
  - by apply applyOp_adminInv.
Qed.

(** The head of what [filter] keeps is the first element kept. *)
Lemma filter_head {A} (P : A → Prop) `{∀ x, Decision (P x)} (l : list A)
  (first : A) (rest : list A) :
  filter P l = first :: rest →
  ∃ before after,
    l = before ++ first :: after ∧ Forall (fun a => ¬ P a) before ∧
    rest = filter P after.
Proof.
  induction l as [|a l IH]; [done|]. rewrite filter_cons.
  destruct (decide (P a)) as [Ha|Ha].
  - intros [= -> <-]. by exists [], l.
  - intros Hf. destruct (IH Hf) as (before & after & -> & Hb & Hr).
    exists (a :: before), after. split_and!; [done | by constructor | done].
Qed.

(** C5.  In every room the server holds, the number of players with
    [isAdmin = true] is [min 1 playerCount]; [addPlayer] (with the player
    object that joinRoom builds) and [removePlayer] keep it so; and when
    [removePlayer] takes out the admin while others remain, the first of
    the remaining players in list order, that is the one who joined
    earliest, becomes the admin and nobody else carries the flag. *)
Theorem C5_one_admin (rev : revision) (r : GameRoom) :
  reachableRoom rev r →
  admins (players r) = min 1 (length (players r)) ∧
  (∀ s, let r' := (addPlayer rev (newPlayer s false) r).1 in
        admins (players r') = min 1 (length (players r'))) ∧
  (∀ x, let r' := (removePlayer x r).1 in
        admins (players r') = min 1 (length (players r'))) ∧
  (∀ first rest,
     filter (fun p => player_id p ≠ adminId r) (players r) = first :: rest →
     let r' := (removePlayer (adminId r) r).1 in
     players r' = set_isAdmin true first :: rest ∧
     adminId r' = player_id first ∧
     Forall (fun p => isAdmin p = false) rest ∧
     ∃ before after,
       players r = before ++ first :: after ∧
       Forall (fun p => player_id p = adminId r) before).
Proof.
  intros Hreach. apply reachableRoom_roomReach in Hreach.
  pose proof (roomReach_adminInv rev r Hreach) as Hinv.
  split_and!.
  - apply Hinv.
  - intros s. by apply addPlayer_adminInv.
  - intros x. by apply removePlayer_adminInv.
  - intros first rest Hrem. simpl.
    pose proof (removePlayer_adminInv (adminId r) r Hinv) as [Hflag' Hcount'].
    unfold removePlayer in *. rewrite Hrem in *.
    rewrite bool_decide_eq_true_2 in * by done. simpl in *.
    split_and!; [done | done | |].
    + apply Forall_forall. intros p Hp. apply (admins_zero rest); [|done].
      unfold admins in *. rewrite filter_cons_True in Hcount' by done.
      simpl in Hcount'. lia.
    + destruct (filter_head _ _ _ _ Hrem) as (before & after & Hl & Hb & _).
      exists before, after. split; [done|].
      eapply Forall_impl; [exact Hb|]. intros p Hp. simpl in Hp.
      by destruct (decide (player_id p = adminId r)).
Qed.

Lemma lobbyRoom_reachable (rev : revision) : reachableRoom rev lobbyRoom.
Proof.
  exists (run rev emptyWorld lobbyTrace), 0. split; [by exists lobbyTrace|].
  by apply (getRoom_store "ROOM01"), lobbyTrace_room.
Qed.

(** C5 in the lobby of A, B and C: one admin, and when A leaves, B, who
    joined before C, takes over. *)
Lemma C5_one_admin_witness :
  reachableRoom part_000 lobbyRoom ∧
  admins (players lobbyRoom) = 1 ∧
  players (removePlayer idA lobbyRoom).1 = [set_isAdmin true playerB; playerC] ∧
  adminId (removePlayer idA lobbyRoom).1 = idB.
Proof.
  split; [apply lobbyRoom_reachable|].
  destruct (C5_one_admin part_000 lobbyRoom (lobbyRoom_reachable part_000))
    as (H1 & _ & _ & H4).
  split; [exact H1|].
  destruct (H4 playerB [playerC] eq_refl) as (Hp & Ha & _).
  split; [exact Hp | exact Ha].
Defined.

(** ** One player per identity *)

Lemma find_hasId_None (x : ident) (ps : list Player) :
  find (hasId x) ps = None ↔ x ∉ player_id <$> ps.
Proof.
  induction ps as [|p ps IH]; simpl.
  - split; [intros _; apply not_elem_of_nil | done].
  - unfold hasId at 1. rewrite not_elem_of_cons. case_bool_decide as Hp.
    + split; [done | intros [Hne _]; by subst].
    + rewrite IH. split; [intros ?; split; [by intros ->|done] | by intros [_ ?]].
Qed.

(** In part_000, [addPlayer] turns away a player whose identity is in the
    room already, and the room stays as it is. *)
Lemma addPlayer_present_rejected (p : Player) (r : GameRoom) :
  player_id p ∈ playerIds r → addPlayer part_000 p r = (r, false).
Proof.
  intros Hin. unfold addPlayer. destruct (_ <=? _)%Z; [done|].
  destruct (find (hasId (player_id p)) (players r)) as [q|] eqn:Hf.
  - done.
  - by apply find_hasId_None in Hf.
Qed.

(** In both revisions a full room turns every player away. *)
Lemma addPlayer_full_rejected (rev : revision) (p : Player) (r : GameRoom) :
  (maxPlayers (settings r) ≤ Z.of_nat (length (players r)))%Z →
  addPlayer rev p r = (r, false).
Proof.
  intros Hfull. unfold addPlayer.
  by rewrite (proj2 (Z.leb_le _ _) Hfull).
Qed.

Lemma addPlayer_NoDup (p : Player) (r : GameRoom) :
  NoDup (playerIds r) → NoDup (playerIds (addPlayer part_000 p r).1).
Proof.
  intros Hnd. unfold addPlayer. destruct (_ <=? _)%Z; [done|].
  destruct (find (hasId (player_id p)) (players r)) as [q|] eqn:Hf.
  - done.
  - simpl. apply find_hasId_None in Hf. unfold playerIds in *.
    destruct (players r) as [|q ps] eqn:Hps; simpl.
    + apply NoDup_singleton.
    + change (NoDup (player_id <$> (q :: ps) ++ [p])).
      rewrite fmap_app. apply NoDup_app. split_and!; [done| |apply NoDup_singleton].
      intros x Hx Hx'. apply list_elem_of_singleton in Hx'. by subst.
Qed.

Lemma removePlayer_NoDup (x : ident) (r : GameRoom) :
  NoDup (playerIds r) → NoDup (playerIds (removePlayer x r).1).
Proof.
  intros Hnd. unfold removePlayer, playerIds in *.
  assert (NoDup (player_id <$> filter (fun p => player_id p ≠ x) (players r))) as Hf.
  { revert Hnd. generalize (players r). intros ps.
    induction ps as [|p ps IH]; [done|]. rewrite fmap_cons, NoDup_cons.
    intros [Hp Hnd]. rewrite filter_cons. destruct (decide (player_id p ≠ x)).
    - rewrite fmap_cons, NoDup_cons. split; [|by apply IH].
      intros Hin. apply Hp. apply list_elem_of_fmap in Hin as (q & Hq & Hin).
      apply list_elem_of_filter in Hin as [_ Hin].
      apply list_elem_of_fmap. eauto.
    - by apply IH. }
  destruct (filter _ (players r)) as [|first rest]; [done|].
  by case_bool_decide.
Qed.

Lemma sameRoster_NoDup (r r' : GameRoom) :
  sameRoster r r' → NoDup (playerIds r) → NoDup (playerIds r').
Proof. intros [Hp _]. unfold playerIds. by rewrite Hp. Qed.

Lemma applyOp_NoDup (r : GameRoom) (op : RoomOp) :
  NoDup (playerIds r) → NoDup (playerIds (applyOp part_000 r op)).
Proof.
  intros Hnd. destruct op; simpl.
  - case_bool_decide; [done|]. by apply addPlayer_NoDup.
  - by apply removePlayer_NoDup.
  - done.
  - eapply sameRoster_NoDup; [apply startGame_sameRoster | done].
  - eapply sameRoster_NoDup; [apply tick_sameRoster | done].
  - case_bool_decide; [done|].
    eapply sameRoster_NoDup; [apply addSkipVote_sameRoster | done].
  - case_bool_decide; [done|].
    eapply sameRoster_NoDup; [apply voteOp_sameRoster | done].
  - done.
Qed.

(** The requirement of C7, on part_000: an identity that is in the room is
    turned away and the room is unchanged, a full room turns everybody
    away, and no room the server holds lists an identity twice. *)
Lemma part_000_one_player_per_identity (r : GameRoom) :
  reachableRoom part_000 r →
  NoDup (playerIds r) ∧
  (∀ p, player_id p ∈ playerIds r → addPlayer part_000 p r = (r, false)) ∧
  (∀ p, (maxPlayers (settings r) ≤ Z.of_nat (length (players r)))%Z →
        addPlayer part_000 p r = (r, false)).
Proof.
  intros Hreach. split_and!.
  - apply reachableRoom_roomReach in Hreach.
    induction Hreach as [s rn ri Hf|r op _ IH].
    + rewrite createdRoom_players. apply NoDup_singleton.
    + by apply applyOp_NoDup.
  - intros p. apply addPlayer_present_rejected.
  - intros p. apply addPlayer_full_rejected.
Qed.

(** C7 on server.js: [addPlayer] has no identity check there.  After A
    has joined its own room again, [addPlayer] has returned true and the
    player list holds identity 1 twice.  part_000 turns the same request
    away and answers with an error event. *)
Theorem C7_addPlayer_duplicate_server_js :
  addPlayer server_js (mkPlayer idA (Some "A") "socketA" false)
    (createdRoom server_js (mkSocket "socketA" idA (Some "A") None ∅) "room" "ROOM01")
  = (mkGameRoom "ROOM01" "room" idA
       [playerA; mkPlayer idA (Some "A") "socketA" false] waiting
       defaultSettings emptyRound [], true) ∧
  (fun room => playerIds room.2)
    <$> getRoom "ROOM01" (run server_js emptyWorld rejoinTrace)
    = Some [idA; idA] ∧
  (fun room => playerIds room.2)
    <$> getRoom "ROOM01" (run part_000 emptyWorld rejoinTrace)
    = Some [idA] ∧
  last (outbox (run part_000 emptyWorld rejoinTrace))
    = Some (socket_emit "socketA" (error "Raum ist voll oder du bist bereits im Raum")).
Proof. split_and!; vm_compute; reflexivity. Qed.

(** ** Skip votes *)

(** [skipNeeded] is the ceiling of half the player count. *)
Lemma skipNeeded_ceil (r : GameRoom) :
  length (players r) ≤ 2 * skipNeeded r ∧ 2 * skipNeeded r < length (players r) + 2.
Proof.
  unfold skipNeeded.
  pose proof (Nat.div_mod_eq (length (players r) + 1) 2) as Hd.
  pose proof (Nat.mod_upper_bound (length (players r) + 1) 2 ltac:(lia)) as Hm.
  lia.
Qed.

Lemma addSkipVote_skipVotes (rev : revision) (x : ident) (r : GameRoom) :
  skipVotes (currentRound (addSkipVote rev x r).1)
    = {[x]} ∪ skipVotes (currentRound r).
Proof. unfold addSkipVote. by destruct (_ <=? _). Qed.

(** In both revisions a second skip vote of the same identity changes
    neither the set nor its size. *)
Lemma addSkipVote_idempotent (rev : revision) (x : ident) (r : GameRoom) :
  let once := (addSkipVote rev x r).1 in
  let twice := (addSkipVote rev x once).1 in
  skipVotes (currentRound twice) = skipVotes (currentRound once) ∧
  size (skipVotes (currentRound twice)) = size (skipVotes (currentRound once)).
Proof.
  simpl. rewrite !addSkipVote_skipVotes.
  by rewrite (assoc_L (∪)), (idemp_L (∪) {[x]}).
Qed.

(** What [addSkipVote] does and returns in part_000: the identity is in
    the set; with the quorum met the room goes to voting with the voting
    window on the clock and the call returns true, otherwise state and
    clock stay and it returns false. *)
Lemma part_000_addSkipVote (x : ident) (r : GameRoom) :
  let votes' := {[x]} ∪ skipVotes (currentRound r) in
  let r' := (addSkipVote part_000 x r).1 in
  skipVotes (currentRound r') = votes' ∧
  players r' = players r ∧
  (skipNeeded r ≤ size votes' →
     (addSkipVote part_000 x r).2 = js_val true ∧
     gameState r' = voting ∧ timeRemaining (currentRound r') = votingWindow) ∧
  (size votes' < skipNeeded r →
     (addSkipVote part_000 x r).2 = js_val false ∧
     gameState r' = gameState r ∧
     timeRemaining (currentRound r') = timeRemaining (currentRound r)).
Proof.
  simpl. unfold addSkipVote. simpl.
  change (skipNeeded (set_currentRound _ r)) with (skipNeeded r).
  destruct (skipNeeded r <=? size ({[x]} ∪ skipVotes (currentRound r))) eqn:Hq.
  - apply Nat.leb_le in Hq. split_and!; try done. intros ?. lia.
  - apply Nat.leb_gt in Hq. split_and!; try done. intros ?. lia.
Qed.

(** The requirement of C8, on part_000. *)
Lemma part_000_addSkipVote_idempotent (x : ident) (r : GameRoom) :
  let once := addSkipVote part_000 x r in
  let twice := addSkipVote part_000 x once.1 in
  skipVotes (currentRound twice.1) = skipVotes (currentRound once.1) ∧
  size (skipVotes (currentRound twice.1)) = size (skipVotes (currentRound once.1)) ∧
  once.2 = js_val (bool_decide (skipNeeded r ≤ size (skipVotes (currentRound once.1)))).
Proof.
  simpl. destruct (addSkipVote_idempotent part_000 x r) as [H1 H2].
  split_and!; [done | done |].
  destruct (part_000_addSkipVote x r) as (Hs & _ & Hyes & Hno).
  rewrite Hs. case_bool_decide as Hq.
  - by apply Hyes.
  - apply Hno. lia.
Qed.

(** C8 on server.js: [addSkipVote] has no [return] there.  In the room
    that is playing with players A, B, C and A's skip vote in, the skip
    vote of B meets the quorum of two and the room goes to voting, but the
    call yields [undefined].  In part_000 it yields true. *)
Theorem C8_addSkipVote_returns_server_js :
  ∃ r,
    roomOf "ROOM01" (run server_js emptyWorld oneSkipTrace) = Some r ∧
    gameState r = playing ∧
    skipVotes (currentRound r) = {[idA]} ∧
    skipNeeded r = 2 ∧
    size (skipVotes (currentRound (addSkipVote server_js idB r).1)) = 2 ∧
    gameState (addSkipVote server_js idB r).1 = voting ∧
    (addSkipVote server_js idB r).2 = js_undefined ∧
    (addSkipVote part_000 idB r).2 = js_val true.
Proof.
  eexists. split; [vm_compute; reflexivity|].
  split_and!; vm_compute; reflexivity.
Qed.

(** The requirement of C4, on part_000: in a playing room the quorum is the
    ceiling of half the player count; the skip vote that makes the set as
    large as the quorum puts the room into voting with 60 on the clock,
    removes the room's entry from [roomTimers] and clears the interval it
    named; a skip vote that leaves the set smaller changes neither state
    nor timers. *)
Lemma part_000_skip_quorum (s : Socket) (roomId : string) (w : World)
  (l : loc) (room : GameRoom) :
  getRoom roomId w = Some (l, room) →
  gameState room = playing →
  let n := length (players room) in
  let votes' := {[userId s]} ∪ skipVotes (currentRound room) in
  let w' := on_skipVote part_000 s roomId w in
  (n ≤ 2 * skipNeeded room ∧ 2 * skipNeeded room < n + 2) ∧
  (size votes' = skipNeeded room →
   ∃ room',
     getRoom roomId w' = Some (l, room') ∧
     gameState room' = voting ∧
     timeRemaining (currentRound room') = 60%Z ∧
     skipVotes (currentRound room') = votes' ∧
     roomTimers w' !! roomId = None ∧
     ∀ timer, roomTimers w !! roomId = Some timer → intervals w' !! timer = None) ∧
  (size votes' < skipNeeded room →
   ∃ room',
     getRoom roomId w' = Some (l, room') ∧
     gameState room' = playing ∧
     timeRemaining (currentRound room') = timeRemaining (currentRound room) ∧
     skipVotes (currentRound room') = votes' ∧
     roomTimers w' = roomTimers w ∧ intervals w' = intervals w).
Proof.
  intros Hg Hst n votes' w'. split; [apply skipNeeded_ceil|].
  apply getRoom_store in Hg as Hgs. destruct Hgs as [Hrooms Hstore].
  destruct (part_000_addSkipVote (userId s) room) as (Hs & _ & Hyes & Hno).
  subst w'. unfold on_skipVote. rewrite Hg.
  rewrite bool_decide_eq_false_2 by (by intros ?).
  destruct (addSkipVote part_000 (userId s) room) as [room' reached] eqn:Hadd.
  simpl in Hs, Hyes, Hno. split.
  - intros Hq. destruct (Hyes ltac:(fold votes'; lia)) as (-> & Hv & Ht).
    exists room'. simpl. unfold getRoom, clearRoomTimer. simpl.
    destruct (roomTimers w !! roomId) as [timer|] eqn:Htimer; simpl;
      rewrite Hrooms; simpl; rewrite lookup_insert_eq; simpl.
    + split_and!; try done.
      * apply lookup_delete_eq.
      * intros ? [= <-]. apply lookup_delete_eq.
    + split_and!; done.
  - intros Hq. destruct (Hno Hq) as (-> & Hv & Ht).
    exists room'. simpl. unfold getRoom. simpl.
    rewrite Hrooms. simpl. rewrite lookup_insert_eq. simpl.
    split_and!; try done. congruence.
Qed.

(** C4 on server.js: the skipVote handler does not cancel the round timer
    (the handle is a local of the startGame handler).  With five players
    the room is still playing after two skip votes; the third puts it into
    voting with 60 on the clock, yet the interval of the round is still
    live, and its next firing takes a second off the voting clock.  In
    part_000 the same three skip votes leave no interval and no entry in
    [roomTimers]. *)
Theorem C4_skip_quorum_timer_server_js :
  let w2 := run server_js emptyWorld twoSkipsTrace in
  let w3 := step server_js w2 thirdSkip in
  let w4 := step server_js w3 (4%Z, intervalFires 0) in
  let p3 := step part_000 (run part_000 emptyWorld twoSkipsTrace) thirdSkip in
  (length ∘ players <$> roomOf "ROOM01" w2) = Some 5 ∧
  (skipNeeded <$> roomOf "ROOM01" w2) = Some 3 ∧
  (gameState <$> roomOf "ROOM01" w2) = Some playing ∧
  (gameState <$> roomOf "ROOM01" w3) = Some voting ∧
  (timeRemaining ∘ currentRound <$> roomOf "ROOM01" w3) = Some 60%Z ∧
  intervals w3 !! 0 = Some (roundTimer "ROOM01" 0 idA) ∧
  (timeRemaining ∘ currentRound <$> roomOf "ROOM01" w4) = Some 59%Z ∧
  (gameState <$> roomOf "ROOM01" p3) = Some voting ∧
  intervals p3 !! 0 = None ∧
  roomTimers p3 !! "ROOM01" = None.
Proof. split_and!; vm_compute; reflexivity. Qed.

(** The same five players on part_000: the second skip vote leaves the
    room playing, the third one ends the round. *)
Lemma part_000_skip_quorum_five_players :
  ∃ l room,
    getRoom "ROOM01" (run part_000 emptyWorld twoSkipsTrace) = Some (l, room) ∧
    gameState room = playing ∧ length (players room) = 5 ∧ skipNeeded room = 3 ∧
    size (skipVotes (currentRound room)) = 2 ∧
    ∃ room',
      getRoom "ROOM01" (step part_000 (run part_000 emptyWorld twoSkipsTrace) thirdSkip)
        = Some (l, room') ∧
      gameState room' = voting ∧ timeRemaining (currentRound room') = 60%Z.
Proof.
  eexists _, _. split; [vm_compute; reflexivity|].
  split_and!; try (vm_compute; reflexivity).
  match goal with
  | |- context [getRoom _ (step _ ?w _) = Some (?l, _)] =>
      destruct (part_000_skip_quorum
                  (mkSocket "socketC" idC (Some "C") (Some "ROOM01") {["ROOM01"]})
                  "ROOM01" w l _ ltac:(vm_compute; reflexivity) eq_refl)
        as (_ & Hyes & _)
  end.
  destruct (Hyes ltac:(vm_compute; reflexivity)) as (room' & Hg & Hv & Ht & _).
  exists room'. split_and!; [|done|done].
  rewrite <-Hg. vm_compute. reflexivity.
Qed.

(** ** [skipVotes] and the players *)


(** The skipVote handler does not ask who sends: the skip vote of a
    connection outside the room (here one without identity) is recorded. *)
Lemma skipVote_from_outsider (rev : revision) :
  ∃ r, roomOf "ROOM01" (run rev emptyWorld outsiderSkipTrace) = Some r ∧
       playerIds r = [idA; idB; idC] ∧
       skipVotes (currentRound r) = {[undefined]}.
Proof.
  destruct rev; eexists; (split; [vm_compute; reflexivity|]);
    split; vm_compute; reflexivity.
Qed.

Lemma removePlayer_currentRound (x : ident) (r : GameRoom) :
  currentRound (removePlayer x r).1 = currentRound r.
Proof.
  unfold removePlayer. destruct (filter _ _); [done|]. by case_bool_decide.
Qed.

Lemma addPlayer_playerIds_subseteq (rev : revision) (p : Player) (r : GameRoom) :
  playerIds r ⊆ playerIds (addPlayer rev p r).1 ∧
  currentRound (addPlayer rev p r).1 = currentRound r.
Proof.
  unfold addPlayer, playerIds. destruct (_ <=? _)%Z; [done|].
  destruct (_ && _); [done|].
  destruct (players r) as [|q ps]; (split; [|done]).
  - intros x Hx. by apply elem_of_nil in Hx.
  - cbn [fst players set_players]. rewrite fmap_app.
    intros x Hx. apply elem_of_app. by left.
Qed.






(** ** Votes *)

Lemma oneSkipTrace_room :
  roomOf "ROOM01" (run part_000 emptyWorld oneSkipTrace) = Some oneSkipRoom.
Proof. vm_compute. reflexivity. Qed.

Lemma endGame_votes (rev : revision) (now : Z) (r : GameRoom) :
  votes (currentRound (endGame rev now r).1.1) = votes (currentRound r).
Proof.
  unfold endGame. destruct (imposterWonOf _ _); [|done]. simpl.
  by destruct (updatePlayerStats _ _ _).
Qed.

Lemma addVote_votes (rev : revision) (now : Z) (x t : ident) (r : GameRoom) :
  votes (currentRound (addVote rev now x t r).1.1)
    = map_set x t (votes (currentRound r)).
Proof.
  unfold addVote. destruct (_ =? _); [|done].
  pose proof (endGame_votes rev now
    (set_currentRound
       (set_votes (map_set x t (votes (currentRound r))) (currentRound r)) r)) as He.
  destruct (endGame rev now _) as [[r2 effs] [o|]]; exact He.
Qed.

Lemma voteOp_votes (rev : revision) (now : Z) (x t : ident) (r : GameRoom) :
  votes (currentRound (voteOp rev now x t r)) = map_set x t (votes (currentRound r)).
Proof.
  unfold voteOp. pose proof (addVote_votes rev now x t r) as Hadd.
  destruct (addVote rev now x t r) as [[r1 effs] [res|]]; simpl in Hadd; [|done].
  destruct rev; [|done]. case_bool_decide; [|done].
  by rewrite endGame_votes.
Qed.

Lemma startGame_votes (rev : revision) (u1 u2 : N) (now : Z) (r : GameRoom) :
  votes (currentRound (startGame rev u1 u2 now r).1) = [] ∨
  votes (currentRound (startGame rev u1 u2 now r).1) = votes (currentRound r).
Proof.
  unfold startGame. destruct (_ <? 3); [by right|].
  case_bool_decide; [by right|]. simpl.
  destruct (getProperty wordLibraries _) as [lib| |]; [|by right|by right].
  destruct (getProperty (lib_words lib) _); [left|left|by right]; by destruct rev.
Qed.

(** In every room the server holds, each voter has one entry in [votes]. *)
Lemma roomReach_voters_NoDup (rev : revision) (r : GameRoom) :
  roomReach rev r → NoDup (voters r).
Proof.
  unfold voters. induction 1 as [s rn ri Hf|r op _ IH].
  - rewrite createdRoom_players. apply NoDup_nil_2.
  - destruct op; simpl.
    + case_bool_decide; [done|].
      by destruct (addPlayer_playerIds_subseteq rev (mkPlayer x name sid false) r)
        as [_ ->].
    + by rewrite removePlayer_currentRound.
    + done.
    + destruct (startGame_votes rev u1 u2 now r) as [-> | ->];
        [apply NoDup_nil_2 | done].
    + unfold tick. by destruct (_ <=? _)%Z.
    + case_bool_decide; [done|]. unfold addSkipVote. by destruct (_ <=? _).
    + case_bool_decide; [done|]. rewrite voteOp_votes. by apply map_keys_set_NoDup.
    + apply NoDup_nil_2.
Qed.

(** The size of [votes] is the number of distinct voters. *)
Lemma map_size_distinct (m : list (ident * ident)) :
  NoDup (map_keys m) → map_size m = size (list_to_set (map_keys m) : gset ident).
Proof.
  intros Hnd. rewrite size_list_to_set by done.
  unfold map_size, map_keys. by rewrite length_fmap.
Qed.

(** The requirement of C2, on part_000.  In a room that is voting (and has
    its imposter), [addVote] records the vote of the voter, replacing an
    earlier one; the room is ended afterwards exactly when the number of
    distinct voters is the player count, and then the call returns the
    outcome that [endGame] computes; otherwise it returns null and nothing
    but the vote changes. *)
Lemma part_000_addVote (now : Z) (x t : ident) (r : GameRoom) (imp : Player) :
  reachableRoom part_000 r →
  gameState r = voting →
  imposter (currentRound r) = Some imp →
  let votes' := map_set x t (votes (currentRound r)) in
  let distinct := size (list_to_set (map_keys votes') : gset ident) in
  let r' := (addVote part_000 now x t r).1.1 in
  votes (currentRound r') = votes' ∧
  map_get x votes' = Some t ∧
  (∀ y, y ≠ x → map_get y votes' = map_get y (votes (currentRound r))) ∧
  (gameState r' = ended ↔ distinct = length (players r)) ∧
  (distinct = length (players r) →
   ∃ o, (addVote part_000 now x t r).2 = Returns (js_val o) ∧
        endGame part_000 now (set_currentRound (set_votes votes' (currentRound r)) r)
          = (r', (addVote part_000 now x t r).1.2, Returns o)) ∧
  (distinct ≠ length (players r) →
   (addVote part_000 now x t r).2 = Returns js_null ∧
   (addVote part_000 now x t r).1.2 = [] ∧
   r' = set_currentRound (set_votes votes' (currentRound r)) r).
Proof.
  intros Hreach Hst Himp votes' distinct r'.
  assert (distinct = map_size votes') as Hdistinct.
  { subst distinct. symmetry. apply map_size_distinct.
    apply map_keys_set_NoDup.
    by apply (roomReach_voters_NoDup part_000), reachableRoom_roomReach. }
  split; [apply addVote_votes|].
  split; [apply map_get_set_eq|].
  split; [by intros y Hy; apply map_get_set_ne|].
  rewrite Hdistinct. subst r'. unfold addVote.
  change (votes (currentRound (set_currentRound _ r))) with votes'.
  change (players (set_currentRound _ r)) with (players r).
  destruct (map_size votes' =? length (players r)) eqn:Hfull.
  - apply Nat.eqb_eq in Hfull.
    destruct (endGame_returns part_000 now
                (set_currentRound (set_votes votes' (currentRound r)) r) imp Himp)
      as (iw & _ & Hend).
    fold votes'. rewrite Hend.
    split_and!; [done | by eauto | done].
  - apply Nat.eqb_neq in Hfull. simpl. rewrite Hst.
    split_and!; [split; [done | by intros ?] | done | done].
Qed.

(** C2 on server.js: [addVote] has no [return] there.  With the votes of
    A and C in, the vote of B is the third of three: the room is ended,
    yet the call yields [undefined] in place of the outcome (and a vote
    that does not complete the count yields [undefined] in place of null).
    part_000 returns the outcome. *)
Theorem C2_addVote_returns_server_js :
  (∃ r,
     roomOf "ROOM01" (run server_js emptyWorld twoVotesTrace) = Some r ∧
     gameState r = voting ∧ playerIds r = [idA; idB; idC] ∧
     votes (currentRound r) = [(idA, idB); (idC, idB)] ∧
     (addVote server_js 5 idC idA r).2 = Returns js_undefined ∧
     gameState (addVote server_js 5 idB idA r).1.1 = ended ∧
     votes (currentRound (addVote server_js 5 idB idA r).1.1) = scenarioVotes ∧
     (addVote server_js 5 idB idA r).2 = Returns js_undefined) ∧
  (∃ r,
     roomOf "ROOM01" (run part_000 emptyWorld twoVotesTrace) = Some r ∧
     (addVote part_000 5 idC idA r).2 = Returns js_null ∧
     (addVote part_000 5 idB idA r).2 =
       Returns (js_val (mkOutcome (Some "Zebra") (Some playerB) (Some playerB) false))).
Proof.
  split; eexists; (split; [vm_compute; reflexivity|]);
    split_and!; vm_compute; reflexivity.
Qed.

(** ** The end of a round, as the vote handler drives it *)

Lemma performAll_fields (l : loc) (es : list Effect) (w : World) :
  rooms (performAll l es w) = rooms w ∧
  outbox (performAll l es w) = outbox w ∧
  statsLog (performAll l es w) = statsLog w ++ statsDeltas es.
Proof.
  unfold performAll. revert w. induction es as [|e es IH]; intros w; simpl.
  - by rewrite app_nil_r.
  - destruct (IH (perform l e w)) as (-> & -> & ->).
    destruct e; simpl; [|done]. by rewrite <-app_assoc.
Qed.

Lemma timeouts_performAll_stats (l : loc) (ds : list StatsDelta) (w : World) :
  timeouts (performAll l (map StatsUpdate ds) w) = timeouts w.
Proof.
  unfold performAll. revert w. induction ds as [|d ds IH]; intros w; [done|].
  simpl. by rewrite IH.
Qed.

Lemma statsDeltas_StatsUpdate (ds : list StatsDelta) :
  statsDeltas (map StatsUpdate ds) = ds.
Proof.
  unfold statsDeltas. induction ds as [|d ds IH]; [done|].
  simpl. by f_equal.
Qed.

(** One delta per player, in the order of the player list, each counting
    one game played. *)
Lemma statsDelta_per_player (imp : Player) (iw : bool) (votedOut : option Player)
  (ps : list Player) :
  (fun d => (d_user d, d_games_played d)) <$> map (statsDelta imp iw votedOut) ps
    = (fun p => (player_id p, 1%Z)) <$> ps.
Proof. induction ps as [|p ps IH]; [done|]. simpl. by f_equal. Qed.

(** The requirement of C6, on part_000.  When the vote handler records the
    vote that makes [votes] as large as the player list, the room ends,
    its history grows by exactly one entry (word, imposter, player voted
    out, who won, the players, the time), the stats store receives exactly
    one delta per player of the list, each with one game played, and
    [gameEnded] goes out once.  A vote that does not complete the count
    adds nothing to history, stats or events. *)
Lemma part_000_vote_completes (now : Z) (s : Socket) (roomId : string)
  (playerId : ident) (w : World) (l : loc) (room : GameRoom) (imp : Player) :
  getRoom roomId w = Some (l, room) →
  gameState room = voting →
  imposter (currentRound room) = Some imp →
  let votes' := map_set (userId s) playerId (votes (currentRound room)) in
  let w' := on_vote part_000 now s roomId playerId w in
  (map_size votes' = length (players room) →
   ∃ room' entry,
     getRoom roomId w' = Some (l, room') ∧
     gameState room' = ended ∧
     gameHistory room' = gameHistory room ++ [entry] ∧
     h_word entry = word (currentRound room) ∧
     h_imposter entry = Some imp ∧
     h_votedOut entry = findMostVoted (players room) (countVotes votes') ∧
     imposterWonOf (h_votedOut entry) (Some imp) = Returns (h_imposterWon entry) ∧
     h_players entry = players room ∧
     h_timestamp entry = now ∧
     statsLog w' = statsLog w ++
       map (statsDelta imp (h_imposterWon entry) (h_votedOut entry)) (players room) ∧
     outbox w' = outbox w ++
       [room_emit roomId
          (gameEnded (mkOutcome (h_word entry) (Some imp) (h_votedOut entry)
                        (h_imposterWon entry)))] ∧
     timeouts w' = timeouts w ++ [resetAndUpdate roomId l]) ∧
  (map_size votes' ≠ length (players room) →
   ∃ room',
     getRoom roomId w' = Some (l, room') ∧
     gameState room' = voting ∧
     gameHistory room' = gameHistory room ∧
     statsLog w' = statsLog w ∧ outbox w' = outbox w ∧ timeouts w' = timeouts w).
Proof.
  intros Hg Hst Himp votes' w'.
  apply getRoom_store in Hg as Hgs. destruct Hgs as [Hrooms Hstore].
  subst w'. unfold on_vote. rewrite Hg.
  rewrite bool_decide_eq_false_2 by (by intros ?).
  unfold addVote.
  change (votes (currentRound (set_currentRound _ room))) with votes'.
  change (players (set_currentRound _ room)) with (players room).
  destruct (map_size votes' =? length (players room)) eqn:Hfull.
  - apply Nat.eqb_eq in Hfull. split; [intros _ | by intros ?].
    destruct (endGame_returns part_000 now
                (set_currentRound (set_votes votes' (currentRound room)) room)
                imp Himp) as (iw & Hiw & Hend).
    fold votes'. rewrite Hend. simpl. rewrite app_nil_r.
    eexists _, _. unfold getRoom. simpl.
    destruct (performAll_fields l
                (map StatsUpdate (map (statsDelta imp iw
                   (findMostVoted (players room) (countVotes votes'))) (players room)))
                (putRoom l
                   (set_gameHistory
                      (gameHistory room ++
                       [mkHistoryEntry (word (currentRound room)) (Some imp)
                          (findMostVoted (players room) (countVotes votes')) iw
                          (players room) now])
                      (set_gameState ended
                         (set_currentRound (set_votes votes' (currentRound room)) room)))
                   w)) as (Hr & Ho & Hlog).
    rewrite Hr, Ho, Hlog, store_performAll, timeouts_performAll_stats,
      statsDeltas_StatsUpdate.
    simpl. rewrite Hrooms. simpl. rewrite lookup_insert_eq. simpl.
    split_and!; done.
  - apply Nat.eqb_neq in Hfull. split; [by intros ?| intros _].
    eexists. unfold getRoom. simpl. rewrite Hrooms. simpl.
    rewrite lookup_insert_eq. simpl. split_and!; done.
Qed.

(** C6 on server.js: the vote handler calls [endGame] a second time.
    [addVote] has already called it (and thrown its result away); the
    handler sees [gameState === 'ended'] and calls it again to get the
    results.  After the third of three votes the history has two entries
    for the one round and the stats store has received two deltas per
    player.  part_000 leaves one entry and one delta per player. *)
Theorem C6_vote_appends_twice_server_js :
  let before := run server_js emptyWorld twoVotesTrace in
  let after := step server_js before lastVote in
  let p_after := step part_000 (run part_000 emptyWorld twoVotesTrace) lastVote in
  (length ∘ gameHistory <$> roomOf "ROOM01" before) = Some 0 ∧
  statsLog before = [] ∧
  (gameState <$> roomOf "ROOM01" after) = Some ended ∧
  (length ∘ gameHistory <$> roomOf "ROOM01" after) = Some 2 ∧
  d_user <$> statsLog after = [idA; idB; idC; idA; idB; idC] ∧
  d_games_played <$> statsLog after = [1; 1; 1; 1; 1; 1]%Z ∧
  (length ∘ gameHistory <$> roomOf "ROOM01" p_after) = Some 1 ∧
  d_user <$> statsLog p_after = [idA; idB; idC] ∧
  d_games_played <$> statsLog p_after = [1; 1; 1]%Z.
Proof. split_and!; vm_compute; reflexivity. Qed.

(** What the timer that server.js leaves running (C4) does later: the
    round is over and the room is waiting again, with no imposter; the
    interval of the finished round fires, finds 0 on the clock, and puts
    the room into voting. *)
Lemma server_js_leaked_timer_reopens_voting :
  let w := run server_js emptyWorld roundOverTrace in
  let w' := step server_js w (16%Z, intervalFires 0) in
  (gameState <$> roomOf "ROOM01" w) = Some waiting ∧
  (imposter ∘ currentRound <$> roomOf "ROOM01" w) = Some None ∧
  intervals w !! 0 = Some (roundTimer "ROOM01" 0 idA) ∧
  (gameState <$> roomOf "ROOM01" w') = Some voting ∧
  (imposter ∘ currentRound <$> roomOf "ROOM01" w') = Some None ∧
  intervals (run part_000 emptyWorld roundOverTrace) = ∅.
Proof. split_and!; vm_compute; reflexivity. Qed.

(** ** [updateSettings] *)

(** C9, as stated, fails in both revisions: the handler does not look at
    [gameState].  The room is playing, the admin sends new settings, and
    they are merged and broadcast; there is no error event. *)
Lemma C9_counterexample :
  (∃ r r',
     roomOf "ROOM01" (run server_js emptyWorld playingTrace) = Some r ∧
     roomOf "ROOM01" (step server_js (run server_js emptyWorld playingTrace)
                        settingsWhilePlaying) = Some r' ∧
     gameState r = playing ∧ roundTime (settings r) = 300%Z ∧
     roundTime (settings r') = 60%Z ∧
     outbox (step server_js (run server_js emptyWorld playingTrace) settingsWhilePlaying)
       = outbox (run server_js emptyWorld playingTrace)
           ++ [room_emit "ROOM01" (roomUpdate (toJSON r'))]) ∧
  (∃ r r',
     roomOf "ROOM01" (run part_000 emptyWorld playingTrace) = Some r ∧
     roomOf "ROOM01" (step part_000 (run part_000 emptyWorld playingTrace)
                        settingsWhilePlaying) = Some r' ∧
     gameState r = playing ∧ roundTime (settings r) = 300%Z ∧
     roundTime (settings r') = 60%Z ∧
     outbox (step part_000 (run part_000 emptyWorld playingTrace) settingsWhilePlaying)
       = outbox (run part_000 emptyWorld playingTrace)
           ++ [room_emit "ROOM01" (roomUpdate (toJSON r'))]).
Proof.
  split; eexists _, _; (split; [vm_compute; reflexivity|]);
    (split; [vm_compute; reflexivity|]); split_and!; vm_compute; reflexivity.
Qed.

(** C9, amended.  [updateSettings] merges the settings into the room when
    the room exists and the identity of the sender is the room's
    [adminId], whatever [gameState] is; nothing else of that room and no
    other room changes, and the new view is broadcast.  When there is no
    such room or the sender is not the admin, the command is turned away
    with an error event to the sender and nothing is changed. *)
Theorem C9_updateSettings_admin_only (s : Socket) (roomId : string)
  (patch : SettingsPatch) (w : World) :
  let w' := on_updateSettings s roomId patch w in
  (∀ l room,
     getRoom roomId w = Some (l, room) → adminId room = userId s →
     let room' := set_settings (mergeSettings (settings room) patch) room in
     getRoom roomId w' = Some (l, room') ∧
     rooms w' = rooms w ∧
     (∀ l', l' ≠ l → store w' !! l' = store w !! l') ∧
     outbox w' = outbox w ++ [room_emit roomId (roomUpdate (toJSON room'))]) ∧
  (getRoom roomId w = None → rejected s w w') ∧
  (∀ l room,
     getRoom roomId w = Some (l, room) → adminId room ≠ userId s →
     rejected s w w').
Proof.
  simpl. unfold on_updateSettings. split_and!.
  - intros l room Hg Hadmin. rewrite Hg.
    rewrite bool_decide_eq_false_2 by (by intros ?).
    apply getRoom_store in Hg as [Hrooms Hstore]. unfold getRoom. simpl.
    rewrite Hrooms. simpl. rewrite lookup_insert_eq. simpl.
    split_and!; try done. intros l' Hne. by rewrite lookup_insert_ne.
  - intros ->. by unfold rejected.
  - intros l room -> Hne. rewrite bool_decide_eq_true_2 by done.
    by unfold rejected.
Qed.

(** C9 (amended) in the lobby: the settings of A, the admin, are merged;
    those of B are turned away. *)
Lemma C9_updateSettings_admin_only_witness :
  let w := run part_000 emptyWorld lobbyTrace in
  let sA := mkSocket "socketA" idA (Some "A") (Some "ROOM01") {["ROOM01"]} in
  let sB := mkSocket "socketB" idB (Some "B") (Some "ROOM01") {["ROOM01"]} in
  getRoom "ROOM01" w = Some (0, lobbyRoom) ∧
  adminId lobbyRoom = userId sA ∧ adminId lobbyRoom ≠ userId sB ∧
  roomOf "ROOM01" (on_updateSettings sA "ROOM01" shorterRound w)
    = Some (set_settings (mkSettings 10 60 "animals" "medium") lobbyRoom) ∧
  rejected sB w (on_updateSettings sB "ROOM01" shorterRound w).
Proof.
  intros w sA sB.
  split; [apply lobbyTrace_room|]. split; [reflexivity|]. split; [discriminate|].
  destruct (C9_updateSettings_admin_only sA "ROOM01" shorterRound w) as (Hok & _ & _).
  destruct (C9_updateSettings_admin_only sB "ROOM01" shorterRound w) as (_ & _ & Hno).
  split.
  - destruct (Hok 0 lobbyRoom (lobbyTrace_room part_000) eq_refl) as (Hg & _).
    unfold roomOf. rewrite Hg. reflexivity.
  - apply (Hno 0 lobbyRoom (lobbyTrace_room part_000)). discriminate.
Defined.

(** * Further properties of the room *)

(** ** [removePlayer] *)

Lemma filter_filter_same {A} (P : A → Prop) `{∀ x, Decision (P x)} (l : list A) :
  filter P (filter P l) = filter P l.
Proof.
  induction l as [|a l IH]; [done|]. rewrite (filter_cons _ a l).
  destruct (decide (P a)); [|done]. by rewrite filter_cons_True, IH.
Qed.

Lemma playerIds_filter (x : ident) (ps : list Player) :
  player_id <$> (filter (fun p => player_id p ≠ x) ps)
    = filter (fun i => i ≠ x) (player_id <$> ps).
Proof.
  induction ps as [|p ps IH]; [done|]. rewrite fmap_cons, !filter_cons.
  destruct (decide (player_id p ≠ x)); [|done]. by rewrite fmap_cons, IH.
Qed.

Lemma removePlayer_playerIds (x : ident) (r : GameRoom) :
  playerIds (removePlayer x r).1 = filter (fun i => i ≠ x) (playerIds r).
Proof.
  unfold playerIds. rewrite <-playerIds_filter. unfold removePlayer.
  destruct (filter _ (players r)) as [|first rest]; [done|].
  by case_bool_decide.
Qed.

(** X1: [removePlayer] takes out every player with the identity and keeps the
    others in their order; it returns true exactly when nobody is left;
    and a second call with the same identity changes nothing more. *)
Theorem removePlayer_removes (x : ident) (r : GameRoom) :
  let r' := (removePlayer x r).1 in
  playerIds r' = filter (fun i => i ≠ x) (playerIds r) ∧
  (x ∉ playerIds r') ∧
  ((removePlayer x r).2 = true ↔ players r' = []) ∧
  removePlayer x r' = (r', (removePlayer x r).2).
Proof.
  simpl. split; [apply removePlayer_playerIds|].
  split.
  { rewrite removePlayer_playerIds. intros Hin.
    by apply list_elem_of_filter in Hin as [Hne _]. }
  unfold removePlayer.
  destruct (filter (fun p => player_id p ≠ x) (players r))
    as [|first rest] eqn:Hrem; simpl.
  - split; [done|]. by rewrite filter_nil.
  - assert (player_id first ≠ x ∧
            filter (fun p => player_id p ≠ x) rest = rest) as [Hfirst Hrest].
    { pose proof (filter_filter_same (fun p => player_id p ≠ x) (players r)) as Hff.
      rewrite Hrem, filter_cons in Hff.
      destruct (decide (player_id first ≠ x)) as [Hne|Heq].
      - split; [done|]. by injection Hff.
      - exfalso. assert (first ∈ filter (fun p => player_id p ≠ x) (players r)) as Hin
          by (rewrite Hrem; apply list_elem_of_here).
        by apply list_elem_of_filter in Hin as [? _]. }
    case_bool_decide as Hadm; simpl.
    + split; [split; discriminate|].
      rewrite filter_cons_True by done. rewrite Hrest.
      by rewrite bool_decide_eq_false_2 by (by intros <-).
    + split; [split; discriminate|].
      rewrite filter_cons_True by done. rewrite Hrest.
      by rewrite bool_decide_eq_false_2.
Qed.

(** X2: In a room of the server, taking out an identity that is not in the
    room leaves the room as it is. *)
Theorem removePlayer_absent (rev : revision) (x : ident) (r : GameRoom) :
  reachableRoom rev r → x ∉ playerIds r → removePlayer x r = (r, bool_decide (players r = [])).
Proof.
  intros Hreach Hx. apply reachableRoom_roomReach, roomReach_adminInv in Hreach.
  destruct Hreach as [Hflag Hcount].
  assert (filter (fun p => player_id p ≠ x) (players r) = players r) as Hsame.
  { clear Hflag Hcount. unfold playerIds in Hx.
    induction (players r) as [|p ps IH]; [done|].
    rewrite fmap_cons, not_elem_of_cons in Hx. destruct Hx as [Hp Hps].
    rewrite filter_cons_True by (by intros <-). by rewrite IH. }
  unfold removePlayer. rewrite Hsame.
  destruct r as [rid rname adm ps gs st cr gh]; simpl in *.
  destruct ps as [|first rest]; [done|].
  rewrite bool_decide_eq_false_2; [done|]. intros ->.
  assert (∃ p, p ∈ first :: rest ∧ isAdmin p = true) as (p & Hp & Hadm).
  { unfold admins in Hcount. simpl in Hcount.
    destruct (filter (fun p => isAdmin p = true) (first :: rest)) as [|p l] eqn:Hf;
      [done|].
    assert (p ∈ filter (fun p => isAdmin p = true) (first :: rest)) as Hin
      by (rewrite Hf; apply list_elem_of_here).
    apply list_elem_of_filter in Hin as [Hadm Hin]. eauto. }
  apply Hx. unfold playerIds. simpl. rewrite <-(Hflag p Hp Hadm).
  change (player_id p ∈ player_id <$> (first :: rest)).
  apply list_elem_of_fmap. eauto.
Qed.

Lemma removePlayer_absent_witness :
  reachableRoom part_000 lobbyRoom ∧ (uid 9 ∉ playerIds lobbyRoom) ∧
  removePlayer (uid 9) lobbyRoom = (lobbyRoom, false).
Proof.
  assert (uid 9 ∉ playerIds lobbyRoom) as Hx.
  { intros Hin. repeat (apply elem_of_cons in Hin as [[=]|Hin]).
    by apply elem_of_nil in Hin. }
  split; [apply lobbyRoom_reachable|]. split; [exact Hx|].
  exact (removePlayer_absent part_000 (uid 9) lobbyRoom
           (lobbyRoom_reachable part_000) Hx).
Defined.

(** ** [addPlayer] *)

(** X3: [addPlayer] returns true exactly when the room is not full and, in
    part_000, the identity is not in the room yet.  Then the player is last
    in the list (the list is in join order), with the admin flag and the
    room's [adminId] set when the room was empty; nothing else changes.
    When it returns false the room is as before. *)
Theorem addPlayer_outcome (rev : revision) (p : Player) (r : GameRoom) :
  let full := (maxPlayers (settings r) ≤ Z.of_nat (length (players r)))%Z in
  let present := rev = part_000 ∧ player_id p ∈ playerIds r in
  ((addPlayer rev p r).2 = true ↔ ¬ full ∧ ¬ present) ∧
  ((addPlayer rev p r).2 = false → (addPlayer rev p r).1 = r) ∧
  ((addPlayer rev p r).2 = true →
   (addPlayer rev p r).1 =
     match players r with
     | [] => set_players [set_isAdmin true p] (set_adminId (player_id p) r)
     | _ :: _ => set_players (players r ++ [p]) r
     end).
Proof.
  simpl. unfold addPlayer.
  destruct (maxPlayers (settings r) <=? Z.of_nat (length (players r)))%Z eqn:Hfull.
  { apply Z.leb_le in Hfull. split_and!; [|done|done].
    split; [done | by intros [? _]]. }
  apply Z.leb_gt in Hfull.
  destruct (find (hasId (player_id p)) (players r)) as [q|] eqn:Hfind.
  - apply find_hasId in Hfind as [Hq Hid].
    assert (player_id p ∈ playerIds r) as Hin
      by (rewrite <-Hid; apply list_elem_of_fmap; eauto).
    destruct rev; simpl.
    + split_and!; [|by destruct (players r)|by destruct (players r)].
      split; [intros _|by destruct (players r)].
      split; [lia | by intros [? _]].
    + split_and!; [|done|done]. split; [done | intros [_ Hn]; by destruct Hn].
  - apply find_hasId_None in Hfind.
    rewrite andb_false_r.
    split_and!; [|by destruct (players r)|by destruct (players r)].
    split; [intros _|by destruct (players r)].
    split; [lia | by intros [_ ?]].
Qed.

(** ** [addVote]: last write wins *)

Lemma map_set_set {K V} `{EqDecision K} (k : K) (v1 v2 : V) (m : list (K * V)) :
  map_set k v2 (map_set k v1 m) = map_set k v2 m.
Proof.
  induction m as [|[k0 v0] m IH]; simpl.
  - by rewrite decide_True.
  - destruct (decide (k0 = k)) as [->|Hne]; simpl.
    + by rewrite decide_True.
    + rewrite decide_False by done. by rewrite IH.
Qed.

(** X4: A voter who votes again replaces the earlier vote: the votes are as
    if only the second vote had been cast, and neither the number of
    votes nor the order of the voters changes. *)
Theorem addVote_again (rev : revision) (now1 now2 : Z) (x t1 t2 : ident)
  (r : GameRoom) :
  let r1 := (addVote rev now1 x t1 r).1.1 in
  let r2 := (addVote rev now2 x t2 r1).1.1 in
  votes (currentRound r2) = map_set x t2 (votes (currentRound r)) ∧
  map_get x (votes (currentRound r2)) = Some t2 ∧
  voters r2 = voters r1 ∧
  map_size (votes (currentRound r2)) = map_size (votes (currentRound r1)).
Proof.
  simpl. unfold voters. rewrite !addVote_votes, map_set_set.
  split; [done|]. split; [apply map_get_set_eq|].
  assert (map_keys (map_set x t2 (votes (currentRound r)))
          = map_keys (map_set x t1 (votes (currentRound r)))) as Hkeys
    by (by rewrite !map_keys_set).
  split; [done|].
  unfold map_size. rewrite <-!(length_fmap fst).
  change (length (map_keys (map_set x t2 (votes (currentRound r))))
          = length (map_keys (map_set x t1 (votes (currentRound r))))).
  by rewrite Hkeys.
Qed.

(** ** The order of the tally *)

Lemma countVotes_snoc (vs : list (ident * ident)) (v : ident * ident) :
  countVotes (vs ++ [v]) = countVote (countVotes vs) v.
Proof. unfold countVotes. by rewrite foldl_app. Qed.

Lemma countVotes_keys_elem (vs : list (ident * ident)) (t : ident) :
  t ∈ map_keys (countVotes vs) ↔ t ∈ vs.*2.
Proof.
  induction vs as [|v vs IH] using rev_ind.
  - split; intros Hin; by apply elem_of_nil in Hin.
  - rewrite countVotes_snoc. unfold countVote. rewrite map_keys_set, fmap_app.
    rewrite elem_of_app, <-IH. simpl. rewrite list_elem_of_singleton.
    case_decide as Hk.
    + split; [by left|]. intros [?| ->]; done.
    + rewrite elem_of_app, list_elem_of_singleton. done.
Qed.


(** ** Votes for identities that are not in the room *)

Lemma countVotes_elem_target (vs : list (ident * ident)) (t : ident) (c : nat) :
  (t, c) ∈ countVotes vs → t ∈ vs.*2.
Proof.
  intros Hin. apply countVotes_keys_elem. unfold map_keys.
  apply list_elem_of_fmap. by exists (t, c).
Qed.

(** X6: [addVote] does not check the target, and [endGame] looks the winner of
    the tally up among the current players.  So an imposter who has left
    the room cannot be voted out and wins whatever the votes are, and when
    no vote names a current player nobody is voted out. *)
Theorem endGame_absent_target (rev : revision) (now : Z) (r : GameRoom)
  (imp : Player) :
  imposter (currentRound r) = Some imp →
  ∃ r' effs out,
    endGame rev now r = (r', effs, Returns out) ∧
    (player_id imp ∉ playerIds r → o_imposterWon out = true) ∧
    ((∀ v, v ∈ votes (currentRound r) → v.2 ∉ playerIds r) →
     o_votedOut out = None ∧ o_imposterWon out = true).
Proof.
  intros Himp.
  destruct (endGame_returns rev now r imp Himp) as (iw & Hiw & ->).
  eexists _, _, _. split; [done|]. simpl.
  pose proof (findMostVoted_countVotes (players r) (votes (currentRound r))) as Hmost.
  split.
  - intros Habsent.
    destruct (findMostVoted (players r) (countVotes (votes (currentRound r))))
      as [m|] eqn:Hm; simpl in Hiw; injection Hiw as <-; [|done].
    apply bool_decide_eq_true. intros Heq. apply Habsent. rewrite <-Heq.
    destruct (votes (currentRound r)) as [|v vs]; [done|].
    destruct Hmost as (t & c & _ & _ & Hfind). symmetry in Hfind.
    apply find_hasId in Hfind as [Hin _]. apply list_elem_of_fmap. eauto.
  - intros Hout.
    assert (findMostVoted (players r) (countVotes (votes (currentRound r))) = None)
      as Hnone.
    { destruct (votes (currentRound r)) as [|v vs] eqn:Hvs; [done|].
      destruct Hmost as (t & c & (before & after & Htally & _) & _ & ->).
      apply find_hasId_None. 
      assert ((t, c) ∈ countVotes (v :: vs)) as Hin.
      { rewrite Htally. apply elem_of_app. right. apply list_elem_of_here. }
      apply countVotes_elem_target in Hin.
      apply list_elem_of_fmap in Hin as (v' & -> & Hv'). by apply Hout. }
    rewrite Hnone in Hiw |- *. simpl in Hiw. by injection Hiw as <-.
Qed.

(** The imposter B has left the room of the scenario. *)
Lemma endGame_absent_target_witness :
  let r := set_players [playerA; playerC] scenarioRoom in
  imposter (currentRound r) = Some playerB ∧
  (player_id playerB ∉ playerIds r) ∧
  ∃ out, (endGame part_000 0 r).2 = Returns out ∧ o_imposterWon out = true.
Proof.
  intros r.
  assert (player_id playerB ∉ playerIds r) as Habsent.
  { intros Hin. repeat (apply elem_of_cons in Hin as [[=]|Hin]).
    by apply elem_of_nil in Hin. }
  split; [reflexivity|]. split; [exact Habsent|].
  destruct (endGame_absent_target part_000 0 r playerB eq_refl)
    as (r' & effs & out & Hend & Hwin & _).
  exists out. split; [by rewrite Hend | by apply Hwin].
Defined.

(** ** The stats deltas of a round *)

(** X7: What [updatePlayerStats] forwards at the end of a round: one delta per
    player of the list, each with one game played; the imposter flag is
    on the deltas of the imposter's identity; a delta counts a win exactly
    when its player is on the winning side; and the imposter is counted
    as caught exactly when the imposter has lost. *)
Theorem endGame_stats (rev : revision) (now : Z) (r : GameRoom) (imp : Player) :
  imposter (currentRound r) = Some imp →
  ∃ r' effs out,
    endGame rev now r = (r', effs, Returns out) ∧
    d_user <$> statsDeltas effs = playerIds r ∧
    ∀ d, d ∈ statsDeltas effs →
      d_games_played d = 1%Z ∧
      d_times_imposter d = Z_of_bool (bool_decide (d_user d = player_id imp)) ∧
      (d_games_won d = 1%Z ↔
         (d_user d = player_id imp ↔ o_imposterWon out = true)) ∧
      (d_times_caught_imposter d = 1%Z ↔
         d_user d = player_id imp ∧ o_imposterWon out = false).
Proof.
  intros Himp.
  destruct (endGame_returns rev now r imp Himp) as (iw & Hiw & ->).
  eexists _, _, _. split; [done|]. simpl.
  set (votedOut := findMostVoted (players r) (countVotes (votes (currentRound r))))
    in *.
  assert (statsDeltas
            (map StatsUpdate (map (statsDelta imp iw votedOut) (players r)) ++
             match rev with server_js => [SetTimeout_resetGame] | part_000 => [] end)
          = map (statsDelta imp iw votedOut) (players r)) as ->.
  { unfold statsDeltas. rewrite omap_app.
    change (omap _ (map StatsUpdate ?ds)) with (statsDeltas (map StatsUpdate ds)).
    rewrite statsDeltas_StatsUpdate. destruct rev; simpl; by rewrite app_nil_r. }
  split.
  { unfold playerIds. generalize (players r). intros ps.
    induction ps as [|p ps IH]; [done|]. simpl. by f_equal. }
  intros d Hd. apply list_elem_of_In, in_map_iff in Hd as (p & <- & _).
  unfold statsDelta. simpl.
  split; [done|]. split; [done|].
  destruct (bool_decide (player_id p = player_id imp)) eqn:Himpb.
  - apply bool_decide_eq_true in Himpb. simpl.
    destruct votedOut as [m|]; simpl in Hiw; injection Hiw as <-.
    + rewrite Himpb. destruct (decide (player_id m = player_id imp)) as [Hm|Hm].
      * rewrite (bool_decide_eq_false_2 (player_id m ≠ player_id imp))
          by (by intros ?).
        rewrite bool_decide_eq_true_2 by done. simpl. intuition congruence.
      * rewrite (bool_decide_eq_true_2 (player_id m ≠ player_id imp)) by done.
        rewrite bool_decide_eq_false_2 by done. simpl. intuition congruence.
    + simpl. intuition congruence.
  - apply bool_decide_eq_false in Himpb. simpl.
    destruct iw; simpl; intuition congruence.
Qed.

Lemma endGame_stats_witness :
  imposter (currentRound scenarioRoom) = Some playerB ∧
  ∃ effs, (endGame part_000 0 scenarioRoom).1.2 = effs ∧
          d_user <$> statsDeltas effs = [idA; idB; idC].
Proof.
  split; [reflexivity|].
  destruct (endGame_stats part_000 0 scenarioRoom playerB eq_refl)
    as (r' & effs & out & Hend & Husers & _).
  exists effs. split; [by rewrite Hend | exact Husers].
Defined.

(** ** The admin is a player *)

(** X8: In every room the server holds that has players, [adminId] is the
    identity of one of them, and that player carries the admin flag: the
    commands that are for the admin only always have somebody who can send
    them. *)
Theorem admin_is_member (rev : revision) (r : GameRoom) :
  reachableRoom rev r → players r ≠ [] →
  ∃ p, p ∈ players r ∧ player_id p = adminId r ∧ isAdmin p = true.
Proof.
  intros Hreach Hne. apply reachableRoom_roomReach, roomReach_adminInv in Hreach.
  destruct Hreach as [Hflag Hcount]. unfold admins in Hcount.
  destruct (filter (fun p => isAdmin p = true) (players r)) as [|p l] eqn:Hf.
  - destruct (players r); [done | discriminate Hcount].
  - assert (p ∈ filter (fun p => isAdmin p = true) (players r)) as Hin
      by (rewrite Hf; apply list_elem_of_here).
    apply list_elem_of_filter in Hin as [Hadm Hin]. eauto.
Qed.

Lemma admin_is_member_witness :
  reachableRoom server_js lobbyRoom ∧ players lobbyRoom ≠ [] ∧
  ∃ p, p ∈ players lobbyRoom ∧ player_id p = idA.
Proof.
  split; [apply lobbyRoom_reachable|]. split; [discriminate|].
  destruct (admin_is_member server_js lobbyRoom (lobbyRoom_reachable server_js)
              ltac:(discriminate)) as (p & Hp & Hid & _).
  by exists p.
Defined.

(** ** A waiting room has no round *)

Lemma startGame_round (rev : revision) (u1 u2 : N) (now : Z) (r : GameRoom) :
  let r' := (startGame rev u1 u2 now r).1 in
  r' = r ∨
  (gameState r' = playing ∧ is_Some (imposter (currentRound r')) ∧
   (word (currentRound r') = word (currentRound r) ∨
    (startGame rev u1 u2 now r).2 = Returns true)).
Proof.
  simpl. unfold startGame.
  destruct (length (players r) <? 3) eqn:Hn; [by left|].
  case_bool_decide; [by left|]. right. apply Nat.ltb_ge in Hn.
  pose proof (randomIndex_lt u1 (length (players r)) ltac:(lia)) as Hi.
  apply lookup_lt_is_Some_2 in Hi. simpl.
  destruct (getProperty wordLibraries _) as [lib| |]; simpl; [|by auto..].
  destruct (getProperty (lib_words lib) _); simpl; [| |by auto];
    destruct rev; simpl; auto.
Qed.

Lemma addVote_round (rev : revision) (now : Z) (x t : ident) (r : GameRoom) :
  let r' := (addVote rev now x t r).1.1 in
  word (currentRound r') = word (currentRound r) ∧
  imposter (currentRound r') = imposter (currentRound r) ∧
  (gameState r' = gameState r ∨ gameState r' = ended).
Proof.
  simpl. unfold addVote. destruct (_ =? _); [|by auto].
  unfold endGame. simpl. destruct (imposterWonOf _ _); [|by auto]. simpl.
  destruct (updatePlayerStats _ _ _); by auto.
Qed.

Lemma endGame_round (rev : revision) (now : Z) (r : GameRoom) :
  let r' := (endGame rev now r).1.1 in
  word (currentRound r') = word (currentRound r) ∧
  imposter (currentRound r') = imposter (currentRound r) ∧
  gameState r' = ended.
Proof.
  simpl. unfold endGame. destruct (imposterWonOf _ _); [|done]. simpl.
  by destruct (updatePlayerStats _ _ _).
Qed.

Lemma applyOp_roundInv (rev : revision) (r : GameRoom) (op : RoomOp) :
  roundInv r → roundInv (applyOp rev r op).
Proof.
  intros [Hwait Hword]. destruct op; simpl.
  - case_bool_decide as Hst; [done|].
    pose proof (addPlayer_playerIds_subseteq rev (mkPlayer x name sid false) r)
      as [_ Hround].
    unfold roundInv. rewrite Hround.
    assert (gameState (addPlayer rev (mkPlayer x name sid false) r).1 = gameState r)
      as ->; [|done].
    unfold addPlayer. destruct (_ <=? _)%Z; [done|]. destruct (_ && _); [done|].
    by destruct (players r).
  - unfold roundInv. rewrite removePlayer_currentRound.
    assert (gameState (removePlayer x r).1 = gameState r) as ->; [|done].
    unfold removePlayer. destruct (filter _ _); [done|]. by case_bool_decide.
  - done.
  - destruct (startGame_round rev u1 u2 now r) as [-> | (Hst & Himp & Hw)]; [done|].
    split; [by rewrite Hst | done].
  - unfold tick. simpl. destruct (_ <=? _)%Z eqn:Ht; simpl.
    + split; [done | exact Hword].
    + split; [|exact Hword]. intros Hst. specialize (Hwait Hst).
      rewrite Hwait in Ht. discriminate Ht.
  - case_bool_decide as Hst; [done|].
    unfold addSkipVote. destruct (_ <=? _); simpl.
    + split; [done | exact Hword].
    + split; [simpl; intros Hwt; congruence | exact Hword].
  - case_bool_decide as Hst; [done|].
    unfold voteOp.
    pose proof (addVote_round rev now x target r) as (Hw & Hi & Hs).
    destruct (addVote rev now x target r) as [[r1 effs] [res|]]; simpl in *.
    + destruct rev.
      * case_bool_decide as Hend.
        -- pose proof (endGame_round server_js now r1) as (Hw' & Hi' & Hs').
           split; [intros Hwt; congruence | by rewrite Hw', Hi', Hw, Hi].
        -- split; [intros Hwt; destruct Hs; congruence | by rewrite Hw, Hi].
      * split; [intros Hwt; destruct Hs; congruence | by rewrite Hw, Hi].
    + split; [intros Hwt; destruct Hs; congruence | by rewrite Hw, Hi].
  - split; [done|]. simpl. by intros [? [=]].
Qed.

(** X9: In every room the server holds: while the room waits, nothing of a
    round is there (no word, no imposter, no votes, no skip votes, clock at
    0), so the secret of the last round is gone once the room waits again;
    and whenever a word is set, an imposter is set. *)
Theorem waiting_room_has_no_round (rev : revision) (r : GameRoom) :
  reachableRoom rev r →
  (gameState r = waiting → currentRound r = emptyRound) ∧
  (is_Some (word (currentRound r)) → is_Some (imposter (currentRound r))).
Proof.
  intros Hreach. apply reachableRoom_roomReach in Hreach.
  induction Hreach as [s rn ri Hf|r op _ IH].
  - rewrite createdRoom_players. split; [done|]. simpl. by intros [? [=]].
  - by apply applyOp_roundInv.
Qed.

Lemma waiting_room_has_no_round_witness :
  reachableRoom part_000 lobbyRoom ∧ currentRound lobbyRoom = emptyRound.
Proof.
  split; [apply lobbyRoom_reachable|].
  exact (proj1 (waiting_room_has_no_round part_000 lobbyRoom
                  (lobbyRoom_reachable part_000)) eq_refl).
Defined.

(** * Further properties of the server *)

(** ** What one event does to registry and store *)

Lemma rooms_clearRoomTimer (roomId : string) (w : World) :
  rooms (clearRoomTimer roomId w) = rooms w.
Proof. unfold clearRoomTimer. by destruct (roomTimers w !! roomId). Qed.

Lemma rooms_notifyStart (room : GameRoom) (imp : Player) (ps : list Player)
  (w : World) :
  rooms (foldl (notifyStart room imp) w ps) = rooms w.
Proof.
  revert w. induction ps as [|p ps IH]; intros w; [done|].
  simpl. rewrite IH. unfold notifyStart. by destruct (find _ _).
Qed.

Lemma rooms_performAll (l : loc) (es : list Effect) (w : World) :
  rooms (performAll l es w) = rooms w.
Proof. apply performAll_fields. Qed.

Lemma on_createRoom_world rev s roomName roomId w :
  worldChange rev w (on_createRoom rev s roomName roomId w).
Proof.
  unfold on_createRoom. destruct (falsy (userId s)) eqn:Hf.
  - by apply wc_same.
  - apply (wc_new _ _ _ roomId (fresh (dom (store w))) s roomName);
      [done | apply is_fresh | done | done].
Qed.

Lemma on_joinRoom_world rev now s roomId w :
  worldChange rev w (on_joinRoom rev now s roomId w).
Proof.
  unfold on_joinRoom. destruct (falsy (userId s)); [by apply wc_same|].
  destruct (getRoom roomId w) as [[l room]|] eqn:Hg; [|by apply wc_same].
  apply getRoom_store in Hg as [_ Hl].
  case_bool_decide as Hst; [by apply wc_same|].
  destruct (addPlayer rev (newPlayer s false) room) as [room' ok] eqn:Hadd.
  destruct ok; [|by apply wc_same].
  apply (wc_op _ _ _ l room (opJoin (userId s) (socket_username s) (socket_id s)));
    [done | done | | done].
  simpl. rewrite bool_decide_eq_false_2 by (by intros ?).
  unfold newPlayer in Hadd. by rewrite Hadd.
Qed.

Lemma departRoom_world rev roomId l room s notice now w :
  rooms w !! roomId = Some l → store w !! l = Some room →
  worldChange rev w (departRoom roomId l room s notice now w).
Proof.
  intros Hk Hl. apply (wc_leave _ _ _ roomId l room (userId s)); [done | done | |].
  - unfold departRoom. destruct (removePlayer (userId s) room) as [room' empty].
    destruct empty; [done|]. by destruct notice.
  - unfold departRoom. destruct (removePlayer (userId s) room) as [room' empty].
    destruct empty; [done|]. by destruct notice.
Qed.

Lemma worldChange_before rev w0 w w' :
  rooms w0 = rooms w → store w0 = store w →
  worldChange rev w0 w' → worldChange rev w w'.
Proof.
  intros Hr Hs [Hr' Hs'|l r op Hl Hop Hs' Hr'|k l r x Hk Hl Hs' Hr'|k l s rn Hf Hl Hs' Hr'];
    rewrite Hr, Hs in *.
  - by apply wc_same.
  - by apply (wc_op _ _ _ l r op).
  - by apply (wc_leave _ _ _ k l r x).
  - by apply (wc_new _ _ _ k l s rn).
Qed.

Lemma worldChange_after rev w w' w'' :
  rooms w'' = rooms w' → store w'' = store w' →
  worldChange rev w w' → worldChange rev w w''.
Proof.
  intros Hr Hs [Hr' Hs'|l r op Hl Hop Hs' Hr'|k l r x Hk Hl Hs' Hr'|k l s rn Hf Hl Hs' Hr'];
    rewrite Hr' in Hr; rewrite Hs' in Hs.
  - by apply wc_same.
  - by apply (wc_op _ _ _ l r op).
  - by apply (wc_leave _ _ _ k l r x).
  - by apply (wc_new _ _ _ k l s rn).
Qed.

Lemma on_leaveRoom_world rev now s roomId w :
  worldChange rev w (on_leaveRoom rev now s roomId w).
Proof.
  unfold on_leaveRoom.
  destruct (getRoom roomId w) as [[l room]|] eqn:Hg; [|by apply wc_same].
  apply getRoom_store in Hg as [Hk Hl].
  destruct rev.
  - eapply worldChange_after; [| |by apply departRoom_world]; done.
  - eapply worldChange_after;
      [| |eapply worldChange_before;
           [apply (rooms_clearRoomTimer roomId) | apply (store_clearRoomTimer roomId)|];
           apply departRoom_world;
           [by rewrite rooms_clearRoomTimer | by rewrite store_clearRoomTimer]];
      done.
Qed.

Lemma on_disconnect_world rev now s w :
  worldChange rev w (on_disconnect rev now s w).
Proof.
  unfold on_disconnect.
  destruct (socket_roomId s) as [roomId|]; [|by apply wc_same].
  case_bool_decide; [by apply wc_same|].
  destruct (getRoom roomId _) as [[l room]|] eqn:Hg; [|by apply wc_same].
  apply getRoom_store in Hg as [Hk Hl]. simpl in Hk, Hl.
  eapply (worldChange_before _ (set_sockets _ w)); [done | done |].
  destruct rev.
  - by apply departRoom_world.
  - eapply worldChange_before;
      [apply (rooms_clearRoomTimer roomId) | apply (store_clearRoomTimer roomId)|].
    apply departRoom_world;
      [by rewrite rooms_clearRoomTimer | by rewrite store_clearRoomTimer].
Qed.

Lemma on_updateSettings_world rev s roomId patch w :
  worldChange rev w (on_updateSettings s roomId patch w).
Proof.
  unfold on_updateSettings.
  destruct (getRoom roomId w) as [[l room]|] eqn:Hg; [|by apply wc_same].
  apply getRoom_store in Hg as [_ Hl].
  case_bool_decide; [by apply wc_same|].
  by apply (wc_op _ _ _ l room (opSettings patch)).
Qed.

Lemma on_startGame_world rev now s roomId u1 u2 w :
  worldChange rev w (on_startGame rev now s roomId u1 u2 w).
Proof.
  unfold on_startGame.
  destruct (getRoom roomId w) as [[l room]|] eqn:Hg; [|by apply wc_same].
  apply getRoom_store in Hg as [_ Hl].
  case_bool_decide; [by apply wc_same|].
  apply (wc_op _ _ _ l room (opStart u1 u2 now)); [done | done | |]; simpl;
    destruct (startGame rev u1 u2 now room) as [room' [[]|]]; simpl; try done;
    (destruct (imposter (currentRound room')); [|done]);
    destruct rev; simpl; by rewrite ?store_notifyStart, ?rooms_notifyStart.
Qed.

Lemma on_interval_world rev timer w :
  worldChange rev w (on_interval rev timer w).
Proof.
  unfold on_interval.
  destruct (intervals w !! timer) as [[roomId l starter| | |]|];
    try by apply wc_same.
  destruct (store w !! l) as [room|] eqn:Hl; [|by apply wc_same].
  apply (wc_op _ _ _ l room opTick); [done | done | |]; simpl; unfold tick;
    (destruct (_ <=? _)%Z; [|done]); by destruct rev.
Qed.

Lemma on_skipVote_world rev s roomId w :
  worldChange rev w (on_skipVote rev s roomId w).
Proof.
  unfold on_skipVote.
  destruct (getRoom roomId w) as [[l room]|] eqn:Hg; [|by apply wc_same].
  apply getRoom_store in Hg as [_ Hl].
  case_bool_decide as Hst; [by apply wc_same|].
  apply (wc_op _ _ _ l room (opSkip (userId s))); [done | done | |]; simpl;
    rewrite ?bool_decide_eq_false_2 by (by intros ?);
    destruct (addSkipVote rev (userId s) room) as [room' reached]; simpl;
    destruct rev; simpl; try (by case_bool_decide);
    (destruct (truthy reached); simpl; [|done]);
    by rewrite ?store_clearRoomTimer, ?rooms_clearRoomTimer.
Qed.

Lemma on_vote_world rev now s roomId playerId w :
  worldChange rev w (on_vote rev now s roomId playerId w).
Proof.
  unfold on_vote.
  destruct (getRoom roomId w) as [[l room]|] eqn:Hg; [|by apply wc_same].
  apply getRoom_store in Hg as [_ Hl].
  case_bool_decide as Hst; [by apply wc_same|].
  apply (wc_op _ _ _ l room (opVote now (userId s) playerId)); [done | done | |].
  - simpl. rewrite bool_decide_eq_false_2 by (by intros ?). unfold voteOp.
    destruct (addVote rev now (userId s) playerId room) as [[room1 effs] [results|]];
      simpl; [|by rewrite store_performAll].
    destruct rev.
    + case_bool_decide; simpl; [|by rewrite store_performAll].
      destruct (endGame server_js now room1) as [[room2 effs2] [o|]]; simpl;
        rewrite !store_performAll; simpl; rewrite store_performAll; simpl;
        by rewrite insert_insert_eq.
    + destruct results; simpl; by rewrite store_performAll.
  - destruct (addVote rev now (userId s) playerId room) as [[room1 effs] [results|]];
      simpl; [|by rewrite rooms_performAll].
    destruct rev.
    + case_bool_decide; simpl; [|by rewrite rooms_performAll].
      destruct (endGame server_js now room1) as [[room2 effs2] [o|]]; simpl;
        rewrite !rooms_performAll; simpl; by rewrite rooms_performAll.
    + destruct results; simpl; by rewrite rooms_performAll.
Qed.

Lemma on_timeout_world rev w : worldChange rev w (on_timeout w).
Proof.
  unfold on_timeout. destruct (timeouts w) as [|cb rest]; [by apply wc_same|].
  destruct cb as [roomId l starter|roomId l|l|roomId l]; simpl.
  - by apply wc_same.
  - destruct (store w !! l) as [room|] eqn:Hl; [|by apply wc_same].
    by apply (wc_op _ _ _ l room opReset).
  - destruct (store w !! l) as [room|] eqn:Hl; [|by apply wc_same].
    by apply (wc_op _ _ _ l room opReset).
  - destruct (store w !! l) as [room|] eqn:Hl; by apply wc_same.
Qed.

Lemma step_world (rev : revision) (w : World) (i : Z * Input) :
  worldChange rev w (step rev w i).
Proof.
  destruct i as [now [sid|sid c|timer|]]; simpl.
  - destruct (map_get sid (sockets w)); by apply wc_same.
  - destruct (map_get sid (sockets w)) as [s|]; [|by apply wc_same].
    destruct c; simpl.
    + apply wc_same; unfold on_authenticate; by destruct decoded as [[? ?]|].
    + apply on_createRoom_world.
    + apply on_joinRoom_world.
    + apply on_leaveRoom_world.
    + apply on_updateSettings_world.
    + apply on_startGame_world.
    + apply on_skipVote_world.
    + apply on_vote_world.
    + apply on_disconnect_world.
  - apply on_interval_world.
  - apply on_timeout_world.
Qed.

(** ** What an operation leaves alone *)

Lemma startGame_frame rev u1 u2 now r :
  let r' := (startGame rev u1 u2 now r).1 in
  room_id r' = room_id r ∧ room_name r' = room_name r ∧
  settings r' = settings r ∧ gameHistory r' = gameHistory r.
Proof.
  unfold startGame. destruct (_ <? 3); [done|]. case_bool_decide; [done|].
  destruct (getProperty wordLibraries _) as [lib| |]; [|done|done].
  by destruct (getProperty (lib_words lib) _).
Qed.

Lemma tick_frame r :
  room_id (tick r) = room_id r ∧ room_name (tick r) = room_name r ∧
  settings (tick r) = settings r ∧ gameHistory (tick r) = gameHistory r.
Proof. unfold tick. by destruct (_ <=? _)%Z. Qed.

Lemma addSkipVote_frame rev x r :
  let r' := (addSkipVote rev x r).1 in
  room_id r' = room_id r ∧ room_name r' = room_name r ∧
  settings r' = settings r ∧ gameHistory r' = gameHistory r.
Proof. unfold addSkipVote. by destruct (_ <=? _). Qed.

Lemma endGame_frame rev now r :
  let r' := (endGame rev now r).1.1 in
  room_id r' = room_id r ∧ room_name r' = room_name r ∧
  settings r' = settings r ∧ currentRound r' = currentRound r ∧
  gameHistory r `prefix_of` gameHistory r'.
Proof.
  unfold endGame. destruct (imposterWonOf _ _) as [won|]; simpl; [|done].
  destruct (updatePlayerStats _ _ _); simpl;
    split_and!; try done; by apply prefix_app_r.
Qed.

Lemma addVote_frame rev now x t r :
  let r' := (addVote rev now x t r).1.1 in
  room_id r' = room_id r ∧ room_name r' = room_name r ∧
  settings r' = settings r ∧ gameHistory r `prefix_of` gameHistory r'.
Proof.
  unfold addVote. destruct (_ =? _); [|done].
  match goal with |- context [endGame rev now ?r1] =>
    pose proof (endGame_frame rev now r1) as (Hi & Hn & Hs & _ & Hh);
    destruct (endGame rev now r1) as [[r2 effs] [o|]] end; done.
Qed.

Lemma voteOp_frame rev now x t r :
  let r' := voteOp rev now x t r in
  room_id r' = room_id r ∧ room_name r' = room_name r ∧
  settings r' = settings r ∧ gameHistory r `prefix_of` gameHistory r'.
Proof.
  unfold voteOp. pose proof (addVote_frame rev now x t r) as (Hi & Hn & Hs & Hh).
  destruct (addVote rev now x t r) as [[r1 effs] [res|]]; simpl in *; [|done].
  destruct rev; [|done]. case_bool_decide; [|done].
  pose proof (endGame_frame server_js now r1) as (Hi2 & Hn2 & Hs2 & _ & Hh2).
  simpl in *. rewrite Hi2, Hn2, Hs2. split_and!; try done. by etrans.
Qed.

Lemma addPlayer_frame rev p r :
  let r' := (addPlayer rev p r).1 in
  room_id r' = room_id r ∧ room_name r' = room_name r ∧
  settings r' = settings r ∧ gameHistory r' = gameHistory r ∧
  gameState r' = gameState r ∧ currentRound r' = currentRound r.
Proof.
  unfold addPlayer. destruct (_ <=? _)%Z; [done|]. destruct (_ && _); [done|].
  by destruct (players r).
Qed.

Lemma removePlayer_frame x r :
  let r' := (removePlayer x r).1 in
  room_id r' = room_id r ∧ room_name r' = room_name r ∧
  settings r' = settings r ∧ gameHistory r' = gameHistory r ∧
  gameState r' = gameState r ∧ currentRound r' = currentRound r.
Proof.
  unfold removePlayer. destruct (filter _ _); [done|]. by case_bool_decide.
Qed.

Lemma applyOp_room_id rev r op :
  room_id (applyOp rev r op) = room_id r ∧
  room_name (applyOp rev r op) = room_name r.
Proof.
  destruct op; simpl.
  - case_bool_decide; [done|]. by destruct (addPlayer_frame rev (mkPlayer x name sid false) r) as (? & ? & _).
  - by destruct (removePlayer_frame x r) as (? & ? & _).
  - done.
  - by destruct (startGame_frame rev u1 u2 now r) as (? & ? & _).
  - by destruct (tick_frame r) as (? & ? & _).
  - case_bool_decide; [done|]. by destruct (addSkipVote_frame rev x r) as (? & ? & _).
  - case_bool_decide; [done|]. by destruct (voteOp_frame rev now x target r) as (? & ? & _).
  - done.
Qed.

Lemma applyOp_history rev r op :
  gameHistory r `prefix_of` gameHistory (applyOp rev r op) ∧
  ((∀ now x t, op ≠ opVote now x t) →
   gameHistory (applyOp rev r op) = gameHistory r).
Proof.
  destruct op; simpl.
  - case_bool_decide; [done|].
    destruct (addPlayer_frame rev (mkPlayer x name sid false) r) as (_ & _ & _ & -> & _).
    done.
  - by destruct (removePlayer_frame x r) as (_ & _ & _ & -> & _).
  - done.
  - by destruct (startGame_frame rev u1 u2 now r) as (_ & _ & _ & ->).
  - by destruct (tick_frame r) as (_ & _ & _ & ->).
  - case_bool_decide; [done|].
    by destruct (addSkipVote_frame rev x r) as (_ & _ & _ & ->).
  - split; [|intros Hno; by destruct (Hno now x target)].
    case_bool_decide; [done|].
    by destruct (voteOp_frame rev now x target r) as (_ & _ & _ & ?).
  - done.
Qed.


Lemma applyOp_sameRoster rev r op :
  (∀ x name sid, op ≠ opJoin x name sid) → (∀ x, op ≠ opLeave x) →
  sameRoster r (applyOp rev r op).
Proof.
  intros Hj Hl. destruct op; simpl.
  - by destruct (Hj x name sid).
  - by destruct (Hl x).
  - done.
  - apply startGame_sameRoster.
  - apply tick_sameRoster.
  - case_bool_decide; [done|]. apply addSkipVote_sameRoster.
  - case_bool_decide; [done|]. apply voteOp_sameRoster.
  - done.
Qed.


(** ** The game states and the moves between them *)

Lemma endGame_ended rev now r :
  gameState (endGame rev now r).1.1 = ended ∧
  players (endGame rev now r).1.1 = players r.
Proof.
  unfold endGame. destruct (imposterWonOf _ _); [|done]. simpl.
  by destruct (updatePlayerStats _ _ _).
Qed.

(** X11: the moves of [gameState].  An operation leaves it as it is, or it
    is one of: waiting to playing by [startGame] with three players or
    more; to voting with a clock of 60 by the timer at its last second or
    by a skip vote of a playing room that fills the quorum; voting to ended
    by a vote, when every player has a vote recorded; to waiting with an
    empty round by the reset. *)
Theorem gameState_moves (rev : revision) (r : GameRoom) (op : RoomOp) :
  gameState (applyOp rev r op) = gameState r ∨
  (gameState r = waiting ∧ gameState (applyOp rev r op) = playing ∧
   3 ≤ length (players r) ∧ ∃ u1 u2 now, op = opStart u1 u2 now) ∨
  (gameState (applyOp rev r op) = voting ∧
   timeRemaining (currentRound (applyOp rev r op)) = votingWindow ∧
   ((op = opTick ∧ (timeRemaining (currentRound r) ≤ 1)%Z) ∨
    (∃ x, op = opSkip x ∧ gameState r = playing ∧
          skipNeeded r ≤ size ({[x]} ∪ skipVotes (currentRound r))))) ∨
  (gameState r = voting ∧ gameState (applyOp rev r op) = ended ∧
   map_size (votes (currentRound (applyOp rev r op))) = length (players r) ∧
   ∃ now x target, op = opVote now x target) ∨
  (gameState (applyOp rev r op) = waiting ∧
   currentRound (applyOp rev r op) = emptyRound ∧ op = opReset).
Proof.
  destruct op; simpl.
  - left. case_bool_decide; [done|].
    by destruct (addPlayer_frame rev (mkPlayer x name sid false) r)
      as (_ & _ & _ & _ & ? & _).
  - left. by destruct (removePlayer_frame x r) as (_ & _ & _ & _ & ? & _).
  - by left.
  - unfold startGame. destruct (length (players r) <? 3) eqn:Hlen; [by left|].
    apply Nat.ltb_ge in Hlen.
    case_bool_decide as Hst; [by left|].
    right; left. split_and!; [done| |done|by eexists _, _, _].
    destruct (getProperty wordLibraries _) as [lib| |]; [|done|done].
    by destruct (getProperty (lib_words lib) _).
  - unfold tick. cbn [timeRemaining currentRound set_currentRound set_timeRemaining].
    destruct (_ <=? _)%Z eqn:Hle; [|by left].
    apply Z.leb_le in Hle. right; right; left.
    split_and!; [done|done|left; split; [done|lia]].
  - case_bool_decide as Hst; [by left|].
    unfold addSkipVote.
    cbn [skipVotes currentRound set_currentRound set_skipVotes].
    destruct (_ <=? _) eqn:Hle; [|by left].
    apply Nat.leb_le in Hle. right; right; left.
    split_and!; [done|done|right; by exists x].
  - case_bool_decide as Hst; [by left|].
    unfold voteOp, addVote.
    destruct (_ =? _) eqn:Hall.
    + apply Nat.eqb_eq in Hall. cbn [players set_currentRound] in Hall.
      right; right; right; left.
      match goal with |- context [endGame rev now ?r1] =>
        pose proof (endGame_ended rev now r1) as [He Hp];
        pose proof (endGame_frame rev now r1) as (_ & _ & _ & Hc & _);
        destruct (endGame rev now r1) as [[r2 effs] [o|]] end;
        simpl in *.
      * destruct rev.
        -- rewrite bool_decide_eq_true_2 by done.
           pose proof (endGame_ended server_js now r2) as [He2 Hp2].
           pose proof (endGame_frame server_js now r2) as (_ & _ & _ & Hc2 & _).
           simpl in *. rewrite Hc2, Hc.
           split_and!; [done|done|done|by eexists _, _, _].
        -- rewrite Hc. split_and!; [done|done|done|by eexists _, _, _].
      * rewrite Hc. split_and!; [done|done|done|by eexists _, _, _].
    + simpl. destruct rev; [|by left].
      rewrite bool_decide_eq_false_2; [by left|]. simpl. congruence.
  - right; right; right; right. done.
Qed.

(** ** The registry *)

Lemma removePlayer_empty (x : ident) (r : GameRoom) :
  (removePlayer x r).2 = true ↔ players (removePlayer x r).1 = [].
Proof.
  unfold removePlayer. destruct (filter _ _) as [|first rest]; [done|].
  by case_bool_decide.
Qed.

Lemma applyOp_players_nonempty rev r op :
  (∀ x, op ≠ opLeave x) → players r ≠ [] → players (applyOp rev r op) ≠ [].
Proof.
  intros Hl Hne. destruct op as [x name sid| | | | | | |];
    try (match goal with |- players (applyOp _ _ ?o) ≠ [] =>
           destruct (applyOp_sameRoster rev r o) as [-> _];
             [by intros | done | done] end).
  - simpl. case_bool_decide; [done|]. unfold addPlayer.
    destruct (_ <=? _)%Z; [done|]. destruct (_ && _); [done|].
    destruct (players r) as [|q ps]; [done|]. simpl. by destruct ps.
Qed.

Lemma worldChange_registryInv rev w w' :
  worldChange rev w w' → registryInv w → registryInv w'.
Proof.
  intros [Hr Hs|l r op Hl Hop Hs Hr|k l r x Hk Hl Hs Hr|k l s rn Hf Hl Hs Hr] Hinv
    k' l' Hk'; rewrite Hs.
  - rewrite Hr in Hk'. by apply Hinv.
  - rewrite Hr in Hk'. destruct (Hinv _ _ Hk') as (r0 & Hl0 & Hid & Hne).
    destruct (decide (l = l')) as [->|Hneq].
    + rewrite lookup_insert_eq. eexists; split; [done|].
      assert (r0 = r) as -> by congruence.
      split; [by rewrite (proj1 (applyOp_room_id rev r op))|].
      by apply applyOp_players_nonempty.
    + rewrite lookup_insert_ne by done. by exists r0.
  - destruct (Hinv _ _ Hk) as (r0 & Hl0 & Hid & Hne).
    assert (r0 = r) as -> by congruence.
    assert (rooms w !! k' = Some l' ∧
            ((removePlayer x r).2 = true → k' ≠ k)) as [Hk0 Hdel].
    { rewrite Hr in Hk'. destruct (removePlayer x r).2.
      - apply lookup_delete_Some in Hk' as [? ?]. split; [done|]. by intros _.
      - split; [done|]. by intros. }
    destruct (Hinv _ _ Hk0) as (r1 & Hl1 & Hid1 & Hne1).
    destruct (decide (l = l')) as [->|Hneq].
    + rewrite lookup_insert_eq. assert (r1 = r) as -> by congruence.
      assert (k' = k) as -> by congruence.
      eexists; split; [done|].
      destruct (removePlayer_frame x r) as (-> & _). split; [done|].
      intros Hemp. apply removePlayer_empty in Hemp. by apply Hdel.
    + rewrite lookup_insert_ne by done. by exists r1.
  - rewrite Hr in Hk'. destruct (decide (k = k')) as [->|Hneq].
    + rewrite lookup_insert_eq in Hk'. injection Hk' as <-.
      rewrite lookup_insert_eq. eexists; split; [done|].
      by rewrite createdRoom_players.
    + rewrite lookup_insert_ne in Hk' by done.
      destruct (Hinv _ _ Hk') as (r0 & Hl0 & Hid & Hne).
      assert (l ≠ l') as Hll.
      { intros ->. apply Hl. apply elem_of_dom. by eexists. }
      rewrite lookup_insert_ne by done. by exists r0.
Qed.

Lemma reachable_registryInv rev w : reachable rev w → registryInv w.
Proof.
  intros [trace ->]. induction trace as [|i trace IH] using rev_ind.
  - intros k l Hk. change (rooms (run rev emptyWorld [])) with (∅ : gmap string loc) in Hk.
    by rewrite lookup_empty in Hk.
  - rewrite run_snoc. eapply worldChange_registryInv; [apply step_world|done].
Qed.

(** X12: in every state the server can reach, each registered room id leads
    to a room object that carries this id and has at least one player, and
    no two ids lead to the same object: [rooms.get] never yields an empty
    room. *)
Theorem registered_rooms (rev : revision) (w : World) (roomId : string) (l : loc) :
  reachable rev w → rooms w !! roomId = Some l →
  (∃ r, getRoom roomId w = Some (l, r) ∧ room_id r = roomId ∧ players r ≠ []) ∧
  (∀ other, rooms w !! other = Some l → other = roomId).
Proof.
  intros Hw Hk. pose proof (reachable_registryInv rev w Hw) as Hinv.
  destruct (Hinv _ _ Hk) as (r & Hl & Hid & Hne). split.
  - exists r. unfold getRoom. rewrite Hk. simpl. by rewrite Hl.
  - intros other Ho. destruct (Hinv _ _ Ho) as (r' & Hl' & Hid' & _). congruence.
Qed.

Lemma registered_rooms_witness :
  (∃ r, getRoom "ROOM01" (run part_000 emptyWorld lobbyTrace) = Some (0, r) ∧
        room_id r = "ROOM01" ∧ players r ≠ []) ∧
  (∀ other, rooms (run part_000 emptyWorld lobbyTrace) !! other = Some 0 →
            other = "ROOM01").
Proof.
  apply (registered_rooms part_000 (run part_000 emptyWorld lobbyTrace) "ROOM01" 0).
  - by exists lobbyTrace.
  - vm_compute. reflexivity.
Defined.

(** ** Room objects stay *)

Lemma worldChange_persist rev w w' l r :
  worldChange rev w w' → store w !! l = Some r →
  ∃ r', store w' !! l = Some r' ∧
        room_id r' = room_id r ∧ room_name r' = room_name r ∧
        gameHistory r `prefix_of` gameHistory r'.
Proof.
  intros [Hr Hs|l0 r0 op Hl0 Hop Hs Hr|k l0 r0 x Hk Hl0 Hs Hr|k l0 s rn Hf Hl0 Hs Hr] Hl;
    rewrite Hs.
  - by exists r.
  - destruct (decide (l0 = l)) as [->|Hneq].
    + rewrite lookup_insert_eq. assert (r0 = r) as -> by congruence.
      eexists; split; [done|].
      destruct (applyOp_room_id rev r op) as [-> ->].
      by destruct (applyOp_history rev r op) as [? _].
    + rewrite lookup_insert_ne by done. by exists r.
  - destruct (decide (l0 = l)) as [->|Hneq].
    + rewrite lookup_insert_eq. assert (r0 = r) as -> by congruence.
      eexists; split; [done|].
      by destruct (removePlayer_frame x r) as (-> & -> & _ & -> & _).
    + rewrite lookup_insert_ne by done. by exists r.
  - assert (l0 ≠ l) as Hneq.
    { intros ->. apply Hl0. apply elem_of_dom. by eexists. }
    rewrite lookup_insert_ne by done. by exists r.
Qed.



(** ** The last player leaves *)

Lemma filter_nil_iff {A} (P : A → Prop) `{!∀ x, Decision (P x)} (l : list A) :
  filter P l = [] ↔ ∀ x, x ∈ l → ¬ P x.
Proof.
  induction l as [|a l IH]; [split; [by intros _ x ?%elem_of_nil|done]|].
  destruct (decide (P a)) as [Ha|Ha].
  - rewrite filter_cons_True by done. split; [done|].
    intros Hall. destruct (Hall a); [by left|done].
  - rewrite filter_cons_False by done. rewrite IH. split.
    + intros Hall x [->|Hx]%elem_of_cons; [done|by apply Hall].
    + intros Hall x Hx. apply Hall. by right.
Qed.

Lemma removePlayer_empty_iff (x : ident) (r : GameRoom) :
  (removePlayer x r).2 = true ↔ ∀ p, p ∈ players r → player_id p = x.
Proof.
  unfold removePlayer.
  destruct (filter _ _) as [|first rest] eqn:Hf.
  - split; [|done]. intros _ p Hp.
    apply (proj1 (filter_nil_iff _ _) Hf) in Hp. by apply dec_stable in Hp.
  - assert (first ∈ filter (λ p, player_id p ≠ x) (players r)) as Hin
      by (rewrite Hf; by left).
    apply list_elem_of_filter in Hin as [Hne Hin].
    split.
    + by case_bool_decide.
    + intros Hall. by destruct Hne; apply Hall.
Qed.

(** X14: [leaveRoom] drops the room id from the registry exactly when no
    player with another identity remains; then nothing is broadcast, and
    a later [joinRoom] for this id by a logged-in connection is answered
    with the error "Raum nicht gefunden" and changes nothing else. *)
Theorem leaveRoom_last_player (rev : revision) (now : Z) (s : Socket)
  (roomId : string) (w : World) (l : loc) (room : GameRoom) :
  getRoom roomId w = Some (l, room) →
  (rooms (on_leaveRoom rev now s roomId w) !! roomId = None ↔
   ∀ p, p ∈ players room → player_id p = userId s) ∧
  (rooms (on_leaveRoom rev now s roomId w) !! roomId = None →
   outbox (on_leaveRoom rev now s roomId w) = outbox w ∧
   ∀ now' s', falsy (userId s') = false →
     on_joinRoom rev now' s' roomId (on_leaveRoom rev now s roomId w) =
       emit (socket_emit (socket_id s') (error "Raum nicht gefunden"))
         (on_leaveRoom rev now s roomId w)).
Proof.
  intros Hg. pose proof Hg as [Hk Hl]%getRoom_store.
  assert (rooms (on_leaveRoom rev now s roomId w) =
            (if (removePlayer (userId s) room).2 then delete roomId (rooms w)
             else rooms w) ∧
          ((removePlayer (userId s) room).2 = true →
           outbox (on_leaveRoom rev now s roomId w) = outbox w)) as [Hr Ho].
  { unfold on_leaveRoom. rewrite Hg. unfold departRoom.
    destruct (removePlayer (userId s) room) as [room' empty].
    destruct empty; simpl.
    - destruct rev; simpl; by rewrite ?rooms_clearRoomTimer;
        unfold clearRoomTimer; try destruct (roomTimers w !! roomId).
    - destruct rev; simpl; by rewrite ?rooms_clearRoomTimer. }
  assert (rooms (on_leaveRoom rev now s roomId w) !! roomId = None ↔
          (removePlayer (userId s) room).2 = true) as Hiff.
  { rewrite Hr. destruct (removePlayer (userId s) room).2.
    - by rewrite lookup_delete_eq.
    - rewrite Hk. split; [done|done]. }
  split.
  - rewrite Hiff. apply removePlayer_empty_iff.
  - intros Hnone. split; [by apply Ho, Hiff|].
    intros now' s' Hs'. unfold on_joinRoom. rewrite Hs'.
    unfold getRoom at 1. by rewrite Hnone.
Qed.

Lemma leaveRoom_last_player_witness :
  (rooms (on_leaveRoom part_000 1 (mkSocket "socketA" idA (Some "A") (Some "ROOM01") {["ROOM01"]})
            "ROOM01" (run part_000 emptyWorld rejoinTrace)) !! "ROOM01" = None ↔
   ∀ p, p ∈ [playerA] → player_id p = idA) ∧
  (rooms (on_leaveRoom part_000 1 (mkSocket "socketA" idA (Some "A") (Some "ROOM01") {["ROOM01"]})
            "ROOM01" (run part_000 emptyWorld rejoinTrace)) !! "ROOM01" = None →
   outbox (on_leaveRoom part_000 1 (mkSocket "socketA" idA (Some "A") (Some "ROOM01") {["ROOM01"]})
            "ROOM01" (run part_000 emptyWorld rejoinTrace)) =
     outbox (run part_000 emptyWorld rejoinTrace) ∧
   ∀ now' s', falsy (userId s') = false →
     on_joinRoom part_000 now' s' "ROOM01"
       (on_leaveRoom part_000 1 (mkSocket "socketA" idA (Some "A") (Some "ROOM01") {["ROOM01"]})
          "ROOM01" (run part_000 emptyWorld rejoinTrace)) =
       emit (socket_emit (socket_id s') (error "Raum nicht gefunden"))
         (on_leaveRoom part_000 1 (mkSocket "socketA" idA (Some "A") (Some "ROOM01") {["ROOM01"]})
            "ROOM01" (run part_000 emptyWorld rejoinTrace))).
Proof.
  apply (leaveRoom_last_player part_000 1%Z
           (mkSocket "socketA" idA (Some "A") (Some "ROOM01") {["ROOM01"]})
           "ROOM01" (run part_000 emptyWorld rejoinTrace) 0
           (mkGameRoom "ROOM01" "room" idA [playerA] waiting defaultSettings
              emptyRound [])).
  vm_compute. reflexivity.
Defined.

(** ** [createRoom] *)

(** X15: [createRoom] from a connection that has not logged in changes
    nothing and answers "Nicht authentifiziert".  From a logged-in one it
    registers, under the given id, a new waiting room with default
    settings whose only player is the creator, flagged as admin; every
    room object that existed stays as it was, also the one that held the
    id before, and every other id keeps its room. *)
Theorem createRoom_outcome (rev : revision) (s : Socket) (roomName roomId : string)
  (w : World) :
  (falsy (userId s) = true →
   rooms (on_createRoom rev s roomName roomId w) = rooms w ∧
   store (on_createRoom rev s roomName roomId w) = store w ∧
   sockets (on_createRoom rev s roomName roomId w) = sockets w ∧
   outbox (on_createRoom rev s roomName roomId w) =
     outbox w ++ [socket_emit (socket_id s) (error "Nicht authentifiziert")]) ∧
  (falsy (userId s) = false →
   (∃ l, store w !! l = None ∧
         getRoom roomId (on_createRoom rev s roomName roomId w) =
           Some (l, mkGameRoom roomId roomName (userId s)
                      [mkPlayer (userId s) (socket_username s) (socket_id s) true]
                      waiting defaultSettings emptyRound [])) ∧
   (∀ l0 r0, store w !! l0 = Some r0 →
             store (on_createRoom rev s roomName roomId w) !! l0 = Some r0) ∧
   (∀ other, other ≠ roomId →
             rooms (on_createRoom rev s roomName roomId w) !! other = rooms w !! other) ∧
   (socket_roomId <$> map_get (socket_id s)
                        (sockets (on_createRoom rev s roomName roomId w))) =
     Some (Some roomId)).
Proof.
  unfold on_createRoom. split; intros Hf; rewrite Hf; [done|].
  pose proof (is_fresh (dom (store w))) as Hfresh.
  apply not_elem_of_dom in Hfresh.
  pose proof (createdRoom_players rev s roomName roomId) as Hroom.
  unfold createdRoom in Hroom. rewrite Hroom.
  split_and!.
  - exists (fresh (dom (store w))). split; [done|].
    unfold getRoom. simpl. rewrite lookup_insert_eq. simpl.
    by rewrite lookup_insert_eq.
  - intros l0 r0 Hl0. simpl. rewrite lookup_insert_ne; [done|]. congruence.
  - intros other Hne. simpl. by rewrite lookup_insert_ne.
  - simpl. by rewrite map_get_set_eq.
Qed.

(** ** [disconnect] *)

Lemma map_get_filter_ne {V} (k : string) (m : list (string * V)) :
  map_get k (filter (fun e => e.1 ≠ k) m) = None.
Proof.
  apply map_get_None. unfold map_keys. intros Hin.
  apply list_elem_of_fmap in Hin as ([k' v] & -> & Hin).
  by apply list_elem_of_filter in Hin as [Hne _].
Qed.

(** X16: a connection that goes away while [socket.roomId] names a room
    leaves that room as [leaveRoom] does: registry, room objects, round
    timers and pending timeouts end up the same, and nothing is forwarded
    to the stats store; the connection itself is gone afterwards. *)
Theorem disconnect_as_leaveRoom (rev : revision) (now : Z) (s : Socket)
  (roomId : string) (w : World) :
  socket_roomId s = Some roomId → roomId ≠ "" →
  rooms (on_disconnect rev now s w) = rooms (on_leaveRoom rev now s roomId w) ∧
  store (on_disconnect rev now s w) = store (on_leaveRoom rev now s roomId w) ∧
  roomTimers (on_disconnect rev now s w) = roomTimers (on_leaveRoom rev now s roomId w) ∧
  intervals (on_disconnect rev now s w) = intervals (on_leaveRoom rev now s roomId w) ∧
  timeouts (on_disconnect rev now s w) = timeouts (on_leaveRoom rev now s roomId w) ∧
  statsLog (on_disconnect rev now s w) = statsLog w ∧
  map_get (socket_id s) (sockets (on_disconnect rev now s w)) = None.
Proof.
  intros Hrid Hne. unfold on_disconnect, on_leaveRoom. rewrite Hrid.
  rewrite bool_decide_eq_false_2 by done.
  change (getRoom roomId (set_sockets _ w)) with (getRoom roomId w).
  destruct (getRoom roomId w) as [[l room]|];
    [|split_and!; try done; apply map_get_filter_ne].
  unfold departRoom. destruct (removePlayer (userId s) room) as [room' empty].
  destruct empty, rev, (socket_username s) as [[|]|]; simpl;
    unfold clearRoomTimer; simpl; try destruct (roomTimers w !! roomId); simpl;
    split_and!; try done; apply map_get_filter_ne.
Qed.

Lemma disconnect_as_leaveRoom_witness :
  rooms (on_disconnect server_js 1 (mkSocket "socketA" idA (Some "A") (Some "ROOM01") {["ROOM01"]})
           (run server_js emptyWorld playingTrace)) =
    rooms (on_leaveRoom server_js 1 (mkSocket "socketA" idA (Some "A") (Some "ROOM01") {["ROOM01"]})
             "ROOM01" (run server_js emptyWorld playingTrace)) ∧
  store (on_disconnect server_js 1 (mkSocket "socketA" idA (Some "A") (Some "ROOM01") {["ROOM01"]})
           (run server_js emptyWorld playingTrace)) =
    store (on_leaveRoom server_js 1 (mkSocket "socketA" idA (Some "A") (Some "ROOM01") {["ROOM01"]})
             "ROOM01" (run server_js emptyWorld playingTrace)) ∧
  roomTimers (on_disconnect server_js 1 (mkSocket "socketA" idA (Some "A") (Some "ROOM01") {["ROOM01"]})
           (run server_js emptyWorld playingTrace)) =
    roomTimers (on_leaveRoom server_js 1 (mkSocket "socketA" idA (Some "A") (Some "ROOM01") {["ROOM01"]})
             "ROOM01" (run server_js emptyWorld playingTrace)) ∧
  intervals (on_disconnect server_js 1 (mkSocket "socketA" idA (Some "A") (Some "ROOM01") {["ROOM01"]})
           (run server_js emptyWorld playingTrace)) =
    intervals (on_leaveRoom server_js 1 (mkSocket "socketA" idA (Some "A") (Some "ROOM01") {["ROOM01"]})
             "ROOM01" (run server_js emptyWorld playingTrace)) ∧
  timeouts (on_disconnect server_js 1 (mkSocket "socketA" idA (Some "A") (Some "ROOM01") {["ROOM01"]})
           (run server_js emptyWorld playingTrace)) =
    timeouts (on_leaveRoom server_js 1 (mkSocket "socketA" idA (Some "A") (Some "ROOM01") {["ROOM01"]})
             "ROOM01" (run server_js emptyWorld playingTrace)) ∧
  statsLog (on_disconnect server_js 1 (mkSocket "socketA" idA (Some "A") (Some "ROOM01") {["ROOM01"]})
           (run server_js emptyWorld playingTrace)) =
    statsLog (run server_js emptyWorld playingTrace) ∧
  map_get "socketA"
    (sockets (on_disconnect server_js 1
                (mkSocket "socketA" idA (Some "A") (Some "ROOM01") {["ROOM01"]})
                (run server_js emptyWorld playingTrace))) = None.
Proof.
  apply (disconnect_as_leaveRoom server_js 1%Z
           (mkSocket "socketA" idA (Some "A") (Some "ROOM01") {["ROOM01"]})
           "ROOM01" (run server_js emptyWorld playingTrace)).
  - reflexivity.
  - discriminate.
Defined.

(** ** The round timer *)





(** ** The notices of [startGame] *)

Lemma find_Some_elem {A} (f : A → bool) (l : list A) (x : A) :
  find f l = Some x → x ∈ l ∧ f x = true.
Proof.
  induction l as [|a l IH]; [done|]. simpl. destruct (f a) eqn:Hfa.
  - intros [= ->]. split; [by left|done].
  - intros [Hin Hx]%IH. split; [by right|done].
Qed.

Lemma notifyStart_outbox (room : GameRoom) (imp : Player) (ps : list Player)
  (w : World) (e : Event) :
  e ∈ outbox (foldl (notifyStart room imp) w ps) →
  e ∈ outbox w ∨
  ∃ sock p, p ∈ ps ∧ sock ∈ (sockets w).*2 ∧ userId sock = player_id p ∧
    e = socket_emit (socket_id sock)
          (gameStarted
             (if bool_decide (player_id p = player_id imp) then None
              else word (currentRound room))
             (bool_decide (player_id p = player_id imp))
             (roundTime (settings room))).
Proof.
  revert w. induction ps as [|p ps IH]; intros w; [by left|].
  simpl. intros [Hin|(sock & q & Hq & Hsock & Hid & ->)]%IH.
  - unfold notifyStart in Hin.
    destruct (find _ _) as [sock|] eqn:Hfind; [|by left].
    simpl in Hin. apply elem_of_app in Hin as [Hin|Hin]; [by left|].
    apply list_elem_of_singleton in Hin as ->.
    apply find_Some_elem in Hfind as [Hsock Hid].
    apply bool_decide_eq_true in Hid.
    right. exists sock, p. split_and!; [by left|done|done|done].
  - right. exists sock, q. split_and!; [by right| |done|done].
    unfold notifyStart in Hsock. by destruct (find _ _).
Qed.

(** X18: what the startGame handler sends.  Every event it adds is an
    error to the sender, the roomUpdate broadcast, or a gameStarted notice
    to a connection logged in as a player of the room; the notice carries
    the word exactly when that player's identity is not the imposter's,
    so no connection logged in as the imposter is sent the word. *)
Theorem startGame_notices (rev : revision) (now : Z) (s : Socket) (roomId : string)
  (u1 u2 : N) (w : World) (e : Event) :
  e ∈ outbox (on_startGame rev now s roomId u1 u2 w) →
  e ∈ outbox w ∨
  (∃ text, e = socket_emit (socket_id s) (error text)) ∨
  (∃ view, e = room_emit roomId (roomUpdate view)) ∨
  (∃ l room imp sock,
     getRoom roomId (on_startGame rev now s roomId u1 u2 w) = Some (l, room) ∧
     gameState room = playing ∧
     imposter (currentRound room) = Some imp ∧
     sock ∈ (sockets w).*2 ∧ userId sock ∈ playerIds room ∧
     e = socket_emit (socket_id sock)
           (gameStarted
              (if bool_decide (userId sock = player_id imp) then None
               else word (currentRound room))
              (bool_decide (userId sock = player_id imp))
              (roundTime (settings room)))).
Proof.
  unfold on_startGame.
  destruct (getRoom roomId w) as [[l room]|] eqn:Hg.
  2: { simpl. intros [?| ->%list_elem_of_singleton]%elem_of_app; [by left|].
       right; left. by eexists. }
  pose proof Hg as [Hk Hl]%getRoom_store.
  case_bool_decide.
  { simpl. intros [?| ->%list_elem_of_singleton]%elem_of_app; [by left|].
    right; left. by eexists. }
  destruct (startGame rev u1 u2 now room) as [room' [[]|]] eqn:Hstart.
  - destruct (imposter (currentRound room')) as [imp|] eqn:Himp; [|by left].
    assert (gameState room' = playing) as Hplaying.
    { revert Hstart. unfold startGame. destruct (_ <? 3); [by intros [= <- ?]|].
      case_bool_decide; [by intros [= <- ?]|].
      destruct (getProperty wordLibraries _) as [lib| |]; [|done|done].
      destruct (getProperty (lib_words lib) _); by intros [= <-]. }
    intros He.
    assert (e ∈ outbox (foldl (notifyStart room' imp) (putRoom l room' w) (players room'))
            ∨ e = room_emit roomId (roomUpdate (toJSON room'))) as [Hin| ->].
    { destruct rev; simpl in He;
        apply elem_of_app in He as [?| ->%list_elem_of_singleton]; (by left) || (by right). }
    2: { right; right; left. by eexists. }
    apply notifyStart_outbox in Hin as [Hin|(sock & q & Hq & Hsock & Hid & ->)];
      [by left|].
    right; right; right. exists l, room', imp, sock. split_and!; try done.
    + unfold getRoom.
      assert (rooms match rev with
                    | server_js => _
                    | part_000 => _
                    end = rooms w) as -> by
        (destruct rev; simpl; by rewrite rooms_notifyStart).
      rewrite Hk. simpl.
      assert (store match rev with
                    | server_js => _
                    | part_000 => _
                    end = <[l := room']> (store w)) as -> by
        (destruct rev; simpl; by rewrite store_notifyStart).
      by rewrite lookup_insert_eq.
    + unfold playerIds. rewrite Hid. apply list_elem_of_fmap. by exists q.
    + by rewrite Hid.
  - simpl. intros [?| ->%list_elem_of_singleton]%elem_of_app; [by left|].
    right; left. by eexists.
  - by left.
Qed.

Lemma startGame_notices_witness :
  socket_emit "socketB" (gameStarted (Some "Elefant") false 300)
    ∈ outbox (run part_000 emptyWorld lobbyTrace) ∨
  (∃ text, socket_emit "socketB" (gameStarted (Some "Elefant") false 300) =
             socket_emit "socketA" (error text)) ∨
  (∃ view, socket_emit "socketB" (gameStarted (Some "Elefant") false 300) =
             room_emit "ROOM01" (roomUpdate view)) ∨
  (∃ l room imp sock,
     getRoom "ROOM01"
       (on_startGame part_000 0
          (mkSocket "socketA" idA (Some "A") (Some "ROOM01") {["ROOM01"]})
          "ROOM01" 0 0 (run part_000 emptyWorld lobbyTrace)) = Some (l, room) ∧
     gameState room = playing ∧
     imposter (currentRound room) = Some imp ∧
     sock ∈ (sockets (run part_000 emptyWorld lobbyTrace)).*2 ∧
     userId sock ∈ playerIds room ∧
     socket_emit "socketB" (gameStarted (Some "Elefant") false 300) =
       socket_emit (socket_id sock)
         (gameStarted
            (if bool_decide (userId sock = player_id imp) then None
             else word (currentRound room))
            (bool_decide (userId sock = player_id imp))
            (roundTime (settings room)))).
Proof.
  apply (startGame_notices part_000 0%Z
           (mkSocket "socketA" idA (Some "A") (Some "ROOM01") {["ROOM01"]})
           "ROOM01" 0 0 (run part_000 emptyWorld lobbyTrace)
           (socket_emit "socketB" (gameStarted (Some "Elefant") false 300))).
  vm_compute. repeat (first [by left | right]).
Defined.

(** ** Chat *)

Lemma trimStart_split (s : list N) :
  ∃ pre, s = pre ++ trimStart s ∧ Forall (fun c => isWhiteSpace c = true) pre.
Proof.
  induction s as [|c s (pre & Hs & Hpre)]; [by exists []|].
  simpl. destruct (isWhiteSpace c) eqn:Hc.
  - exists (c :: pre). split; [simpl; by f_equal|by constructor].
  - by exists [].
Qed.

Lemma trimStart_head (s : list N) (c : N) :
  head (trimStart s) = Some c → isWhiteSpace c = false.
Proof.
  induction s as [|d s IH]; [done|]. simpl.
  destruct (isWhiteSpace d) eqn:Hd; [done|]. by intros [= <-].
Qed.

Lemma trimStart_id (s : list N) :
  (∀ c, head s = Some c → isWhiteSpace c = false) → trimStart s = s.
Proof.
  destruct s as [|c s]; [done|]. intros Hc. simpl. by rewrite (Hc c).
Qed.

Lemma trim_split (s : list N) :
  ∃ pre post, s = pre ++ trim s ++ post ∧
              Forall (fun c => isWhiteSpace c = true) pre ∧
              Forall (fun c => isWhiteSpace c = true) post.
Proof.
  destruct (trimStart_split s) as (pre & Hs & Hpre).
  destruct (trimStart_split (reverse (trimStart s))) as (post & Ht & Hpost).
  exists pre, (reverse post). split_and!; [|done|by apply Forall_reverse].
  unfold trim, trimEnd. rewrite <- reverse_app, <- Ht, reverse_involutive. done.
Qed.

Lemma trim_last (s : list N) (c : N) :
  last (trim s) = Some c → isWhiteSpace c = false.
Proof.
  unfold trim, trimEnd. rewrite last_reverse. apply trimStart_head.
Qed.

Lemma trim_head (s : list N) (c : N) :
  head (trim s) = Some c → isWhiteSpace c = false.
Proof.
  intros Hc. apply (trimStart_head s).
  destruct (trimStart_split (reverse (trimStart s))) as (post & Ht & _).
  apply (f_equal reverse) in Ht. rewrite reverse_involutive, reverse_app in Ht.
  rewrite Ht. fold (trimEnd (trimStart s)). fold (trim s).
  destruct (trim s); [done|]. done.
Qed.

Lemma trim_trim (s : list N) : trim (trim s) = trim s.
Proof.
  unfold trim at 1. rewrite (trimStart_id (trim s)) by apply trim_head.
  unfold trimEnd. rewrite trimStart_id; [by rewrite reverse_involutive|].
  intros c. rewrite head_reverse. apply trim_last.
Qed.

(** X19: the chat handler.  Whatever it broadcasts goes to the room named
    in the command, which exists; the text is the message without the
    white space at its two ends, is not empty and neither starts nor ends
    with white space; in part_000 it has at most 500 code units and the
    sender has a name.  Sending the broadcast text again broadcasts the
    same text. *)
Theorem sendMessage_text (rev : revision) (now : Z) (s : Socket) (roomId : string)
  (message : list N) (w : World) (target : string) (m : ChatMessage) :
  on_sendMessage rev now s roomId message w = Some (target, m) →
  target = roomId ∧ is_Some (getRoom roomId w) ∧
  chat_sender m = socket_username s ∧
  (∃ pre post, message = pre ++ chat_text m ++ post ∧
               Forall (fun c => isWhiteSpace c = true) pre ∧
               Forall (fun c => isWhiteSpace c = true) post) ∧
  chat_text m ≠ [] ∧
  (∀ c, head (chat_text m) = Some c ∨ last (chat_text m) = Some c →
        isWhiteSpace c = false) ∧
  (rev = part_000 →
   length (chat_text m) ≤ 500 ∧ noName (socket_username s) = false) ∧
  ∀ now', on_sendMessage rev now' s roomId (chat_text m) w =
            Some (roomId, mkChatMessage (socket_username s) (chat_text m) now').
Proof.
  unfold on_sendMessage. destruct (getRoom roomId w) as [room|]; [|done].
  destruct (bool_decide (rev = part_000) && noName (socket_username s)) eqn:Hname;
    [done|].
  destruct ((0 <? length (trim message))
            && (bool_decide (rev = server_js) || (length (trim message) <=? 500)))
    eqn:Hlen; [|done].
  intros [= <- <-]. simpl. rewrite trim_trim, Hlen.
  apply andb_true_iff in Hlen as [Hpos Hmax]. apply Nat.ltb_lt in Hpos.
  split_and!; try done.
  - apply trim_split.
  - intros Hnil. rewrite Hnil in Hpos. simpl in Hpos. lia.
  - intros c [Hc|Hc]; [by apply (trim_head message)|by apply (trim_last message)].
  - intros ->. simpl in *. split; [by apply Nat.leb_le|done].
Qed.

Lemma sendMessage_text_witness :
  "ROOM01" = "ROOM01" ∧
  is_Some (getRoom "ROOM01" (run part_000 emptyWorld lobbyTrace)) ∧
  chat_sender (mkChatMessage (Some "B") [104; 105]%N 7) = Some "B" ∧
  (∃ pre post,
     [32; 104; 105; 10]%N =
       pre ++ chat_text (mkChatMessage (Some "B") [104; 105]%N 7) ++ post ∧
     Forall (fun c => isWhiteSpace c = true) pre ∧
     Forall (fun c => isWhiteSpace c = true) post) ∧
  chat_text (mkChatMessage (Some "B") [104; 105]%N 7) ≠ [] ∧
  (∀ c, head (chat_text (mkChatMessage (Some "B") [104; 105]%N 7)) = Some c ∨
        last (chat_text (mkChatMessage (Some "B") [104; 105]%N 7)) = Some c →
        isWhiteSpace c = false) ∧
  (part_000 = part_000 →
   length (chat_text (mkChatMessage (Some "B") [104; 105]%N 7)) ≤ 500 ∧
   noName (Some "B") = false) ∧
  ∀ now',
    on_sendMessage part_000 now'
      (mkSocket "socketB" idB (Some "B") (Some "ROOM01") {["ROOM01"]}) "ROOM01"
      (chat_text (mkChatMessage (Some "B") [104; 105]%N 7))
      (run part_000 emptyWorld lobbyTrace) =
    Some ("ROOM01", mkChatMessage (Some "B")
                      (chat_text (mkChatMessage (Some "B") [104; 105]%N 7)) now').
Proof.
  apply (sendMessage_text part_000 7%Z
           (mkSocket "socketB" idB (Some "B") (Some "ROOM01") {["ROOM01"]})
           "ROOM01" [32; 104; 105; 10]%N (run part_000 emptyWorld lobbyTrace)
           "ROOM01" (mkChatMessage (Some "B") [104; 105]%N 7)).
  vm_compute. reflexivity.
Defined.

(** X20: the chat handler broadcasts nothing for a message that is white
    space only, for a room id that is not registered, and, in part_000,
    from a connection without a name or for a text of more than 500 code
    units; in every other case it broadcasts. *)
Theorem sendMessage_silent (rev : revision) (now : Z) (s : Socket) (roomId : string)
  (message : list N) (w : World) :
  on_sendMessage rev now s roomId message w = None ↔
  getRoom roomId w = None ∨
  Forall (fun c => isWhiteSpace c = true) message ∨
  (rev = part_000 ∧
   (noName (socket_username s) = true ∨ 500 < length (trim message))).
Proof.
  assert (trim message = [] ↔ Forall (fun c => isWhiteSpace c = true) message) as Hws.
  { split.
    - intros Hnil. destruct (trim_split message) as (pre & post & Hm & Hpre & Hpost).
      rewrite Hm, Hnil. apply Forall_app. split; [done|]. by apply Forall_app.
    - intros Hall.
      assert (trimStart message = []) as Hts.
      { induction Hall as [|c l Hc Hl IH]; [done|]. simpl. by rewrite Hc. }
      unfold trim. by rewrite Hts. }
  unfold on_sendMessage. destruct (getRoom roomId w) as [room|]; [|by split; [left|]].
  destruct rev; simpl.
  - destruct (trim message) as [|c t] eqn:Ht; simpl.
    + split; [|done]. intros _. right; left. by apply Hws.
    + split; [done|]. intros [?|[Hall|[? _]]]; [done| |done].
      by apply Hws in Hall.
  - destruct (noName (socket_username s)); simpl.
    { split; [|done]. intros _. right; right. split; [done|by left]. }
    destruct (0 <? length (trim message)) eqn:Hpos; simpl.
    + apply Nat.ltb_lt in Hpos.
      destruct (length (trim message) <=? 500) eqn:Hle.
      * apply Nat.leb_le in Hle. split; [done|].
        intros [?|[Hall|[_ [?|?]]]]; [done| |done|lia].
        apply Hws in Hall. rewrite Hall in Hpos. simpl in Hpos. lia.
      * apply Nat.leb_gt in Hle. split; [|done]. intros _.
        right; right. split; [done|by right].
    + apply Nat.ltb_ge in Hpos. split; [|done]. intros _. right; left.
      apply Hws. destruct (trim message); [done|]. simpl in Hpos. lia.
Qed.

(** ** [leaveRoom] and the round timer *)



(** ** [joinRoom] *)

(** X22: [joinRoom] for a registered room of a reachable server state.  It
    is accepted exactly when the sender is logged in, the room waits, is
    below [maxPlayers] and, in part_000, does not hold the sender's
    identity yet.  Then the sender becomes the last player of the room,
    never its admin, and [socket.roomId] is set; otherwise registry, room
    objects and connections stay as they are and the sender gets one error
    event. *)
Theorem joinRoom_outcome (rev : revision) (now : Z) (s : Socket) (roomId : string)
  (w : World) (l : loc) (room : GameRoom) :
  reachable rev w → getRoom roomId w = Some (l, room) →
  (falsy (userId s) = false ∧ gameState room = waiting ∧
   (Z.of_nat (length (players room)) < maxPlayers (settings room))%Z ∧
   (rev = part_000 → userId s ∉ playerIds room) →
   getRoom roomId (on_joinRoom rev now s roomId w) =
     Some (l, set_players
                (players room ++
                   [mkPlayer (userId s) (socket_username s) (socket_id s) false])
                room) ∧
   (socket_roomId <$> map_get (socket_id s) (sockets (on_joinRoom rev now s roomId w)))
     = Some (Some roomId)) ∧
  (¬ (falsy (userId s) = false ∧ gameState room = waiting ∧
      (Z.of_nat (length (players room)) < maxPlayers (settings room))%Z ∧
      (rev = part_000 → userId s ∉ playerIds room)) →
   rooms (on_joinRoom rev now s roomId w) = rooms w ∧
   store (on_joinRoom rev now s roomId w) = store w ∧
   sockets (on_joinRoom rev now s roomId w) = sockets w ∧
   ∃ text, outbox (on_joinRoom rev now s roomId w) =
             outbox w ++ [socket_emit (socket_id s) (error text)]).
Proof.
  intros Hw Hg. pose proof Hg as [Hk Hl]%getRoom_store.
  destruct (reachable_registryInv rev w Hw _ _ Hk) as (room0 & Hl0 & _ & Hne).
  assert (room0 = room) as -> by congruence.
  unfold on_joinRoom. rewrite Hg.
  destruct (falsy (userId s)) eqn:Hf.
  { split; [by intros [? _]|]. intros _. split_and!; try done. by eexists. }
  case_bool_decide as Hst.
  { split; [by intros (_ & ? & _)|]. intros _. split_and!; try done. by eexists. }
  unfold addPlayer. cbn [players player_id newPlayer].
  destruct (maxPlayers (settings room) <=? Z.of_nat (length (players room)))%Z eqn:Hfull.
  { apply Z.leb_le in Hfull. split; [intros (_ & _ & ? & _); lia|].
    intros _. split_and!; try done. by eexists. }
  apply Z.leb_gt in Hfull.
  destruct (bool_decide (rev = part_000)
            && bool_decide (is_Some (find (hasId (userId s)) (players room))))
    eqn:Hdup.
  { apply andb_true_iff in Hdup as [Hrev Hfind].
    apply bool_decide_eq_true in Hrev. apply bool_decide_eq_true in Hfind.
    destruct Hfind as [q Hq]. apply find_hasId in Hq as [Hq Hid].
    split.
    - intros (_ & _ & _ & Hnot). destruct (Hnot Hrev).
      rewrite <- Hid. apply list_elem_of_fmap. by exists q.
    - intros _. split_and!; try done. by eexists. }
  split.
  - intros _. destruct (players room) as [|q ps] eqn:Hps; [done|].
    split.
    + unfold getRoom. simpl. rewrite Hk. simpl. by rewrite lookup_insert_eq.
    + simpl. by rewrite map_get_set_eq.
  - intros Hno. destruct Hno. split_and!; [done|done|lia|].
    intros Hrev Hin. apply andb_false_iff in Hdup as [Hn|Hn].
    + by apply bool_decide_eq_false in Hn.
    + apply bool_decide_eq_false in Hn. apply Hn.
      destruct (find (hasId (userId s)) (players room)) eqn:Hfind; [by eexists|].
      by apply find_hasId_None in Hfind.
Qed.

Lemma joinRoom_outcome_witness :
  (falsy idB = false ∧ gameState (createdRoom part_000
       (mkSocket "socketA" idA (Some "A") None ∅) "room" "ROOM01") = waiting ∧
   (Z.of_nat (length (players (createdRoom part_000
       (mkSocket "socketA" idA (Some "A") None ∅) "room" "ROOM01")))
    < maxPlayers (settings (createdRoom part_000
       (mkSocket "socketA" idA (Some "A") None ∅) "room" "ROOM01")))%Z ∧
   (part_000 = part_000 → idB ∉ playerIds (createdRoom part_000
       (mkSocket "socketA" idA (Some "A") None ∅) "room" "ROOM01")) →
   getRoom "ROOM01"
     (on_joinRoom part_000 1 (mkSocket "socketB" idB (Some "B") None ∅) "ROOM01"
        (run part_000 emptyWorld rejoinTrace)) =
     Some (0, set_players
                (players (createdRoom part_000
                   (mkSocket "socketA" idA (Some "A") None ∅) "room" "ROOM01") ++
                   [mkPlayer idB (Some "B") "socketB" false])
                (createdRoom part_000
                   (mkSocket "socketA" idA (Some "A") None ∅) "room" "ROOM01")) ∧
   (socket_roomId <$> map_get "socketB"
      (sockets (on_joinRoom part_000 1 (mkSocket "socketB" idB (Some "B") None ∅)
                  "ROOM01" (run part_000 emptyWorld rejoinTrace))))
     = Some (Some "ROOM01")) ∧
  (¬ (falsy idB = false ∧ gameState (createdRoom part_000
       (mkSocket "socketA" idA (Some "A") None ∅) "room" "ROOM01") = waiting ∧
      (Z.of_nat (length (players (createdRoom part_000
          (mkSocket "socketA" idA (Some "A") None ∅) "room" "ROOM01")))
       < maxPlayers (settings (createdRoom part_000
          (mkSocket "socketA" idA (Some "A") None ∅) "room" "ROOM01")))%Z ∧
      (part_000 = part_000 → idB ∉ playerIds (createdRoom part_000
          (mkSocket "socketA" idA (Some "A") None ∅) "room" "ROOM01"))) →
   rooms (on_joinRoom part_000 1 (mkSocket "socketB" idB (Some "B") None ∅) "ROOM01"
            (run part_000 emptyWorld rejoinTrace)) =
     rooms (run part_000 emptyWorld rejoinTrace) ∧
   store (on_joinRoom part_000 1 (mkSocket "socketB" idB (Some "B") None ∅) "ROOM01"
            (run part_000 emptyWorld rejoinTrace)) =
     store (run part_000 emptyWorld rejoinTrace) ∧
   sockets (on_joinRoom part_000 1 (mkSocket "socketB" idB (Some "B") None ∅) "ROOM01"
              (run part_000 emptyWorld rejoinTrace)) =
     sockets (run part_000 emptyWorld rejoinTrace) ∧
   ∃ text, outbox (on_joinRoom part_000 1 (mkSocket "socketB" idB (Some "B") None ∅)
                     "ROOM01" (run part_000 emptyWorld rejoinTrace)) =
             outbox (run part_000 emptyWorld rejoinTrace) ++
               [socket_emit "socketB" (error text)]).
Proof.
  apply (joinRoom_outcome part_000 1%Z (mkSocket "socketB" idB (Some "B") None ∅)
           "ROOM01" (run part_000 emptyWorld rejoinTrace) 0
           (createdRoom part_000 (mkSocket "socketA" idA (Some "A") None ∅)
              "room" "ROOM01")).
  - by exists rejoinTrace.
  - vm_compute. reflexivity.
Defined.

(** ** [vote] *)

(** X23: the vote handler asks neither whether the sender plays in the room
    nor whether the target does: in a voting room the vote of any
    connection for any identity is recorded under the sender's identity,
    and the round ends exactly when the number of recorded votes equals
    the number of players. *)
Theorem vote_recorded (rev : revision) (now : Z) (s : Socket) (roomId : string)
  (target : ident) (w : World) (l : loc) (room : GameRoom) :
  getRoom roomId w = Some (l, room) → gameState room = voting →
  ∃ room', store (on_vote rev now s roomId target w) !! l = Some room' ∧
    votes (currentRound room') =
      map_set (userId s) target (votes (currentRound room)) ∧
    players room' = players room ∧
    (gameState room' = ended ↔
     map_size (votes (currentRound room')) = length (players room)) ∧
    (gameState room' ≠ ended → gameState room' = voting).
Proof.
  intros Hg Hst. unfold on_vote. rewrite Hg.
  rewrite bool_decide_eq_false_2 by (by intros ?).
  unfold addVote. cbn [players votes currentRound set_currentRound set_votes].
  set (r1 := set_currentRound
               (set_votes (map_set (userId s) target (votes (currentRound room)))
                  (currentRound room)) room).
  destruct (map_size (map_set (userId s) target (votes (currentRound room)))
            =? length (players room)) eqn:Hall.
  - apply Nat.eqb_eq in Hall.
    pose proof (endGame_ended rev now r1) as [He Hp].
    pose proof (endGame_frame rev now r1) as (_ & _ & _ & Hc & _).
    destruct (endGame rev now r1) as [[r2 effs] [o|]]; simpl in He, Hp, Hc.
    + destruct rev.
      * rewrite bool_decide_eq_true_2 by done.
        pose proof (endGame_ended server_js now r2) as [He2 Hp2].
        pose proof (endGame_frame server_js now r2) as (_ & _ & _ & Hc2 & _).
        destruct (endGame server_js now r2) as [[r3 effs3] [o3|]];
          simpl in He2, Hp2, Hc2; exists r3; simpl;
          rewrite !store_performAll; simpl; rewrite store_performAll; simpl;
          rewrite lookup_insert_eq; rewrite Hc2, Hc, Hp2, Hp;
          split_and!; try done.
      * exists r2. simpl. rewrite store_performAll. simpl.
        rewrite lookup_insert_eq. rewrite Hc, Hp. split_and!; try done.
    + exists r2. simpl. rewrite store_performAll. simpl.
      rewrite lookup_insert_eq. rewrite Hc, Hp. split_and!; try done.
  - apply Nat.eqb_neq in Hall. exists r1. split.
    + destruct rev; simpl; [rewrite bool_decide_eq_false_2 by (simpl; congruence)|];
        simpl; by rewrite lookup_insert_eq.
    + simpl. split_and!; try done. split; [congruence|done].
Qed.

Lemma vote_recorded_witness :
  ∃ room', store (on_vote part_000 3 (mkSocket "socketX" undefined None None ∅)
                    "ROOM01" (uid 99)
                    (run part_000 emptyWorld votingTrace)) !! 0 = Some room' ∧
    votes (currentRound room') =
      map_set undefined (uid 99)
        (votes (currentRound
                  votingRoom)) ∧
    players room' =
      players votingRoom ∧
    (gameState room' = ended ↔
     map_size (votes (currentRound room')) =
       length (players votingRoom)) ∧
    (gameState room' ≠ ended → gameState room' = voting).
Proof.
  apply (vote_recorded part_000 3%Z (mkSocket "socketX" undefined None None ∅)
           "ROOM01" (uid 99) (run part_000 emptyWorld votingTrace) 0
           votingRoom).
  - vm_compute. reflexivity.
  - reflexivity.
Defined.

(** ** The round timers are live *)

Lemma timersOf_performAll (l : loc) (es : list Effect) (w : World) :
  timersOf (performAll l es w) = timersOf w.
Proof.
  unfold performAll. revert w. induction es as [|e es IH]; intros w; [done|].
  simpl. rewrite IH. by destruct e.
Qed.

Lemma timersOf_notifyStart (room : GameRoom) (imp : Player) (ps : list Player)
  (w : World) :
  timersOf (foldl (notifyStart room imp) w ps) = timersOf w.
Proof.
  revert w. induction ps as [|p ps IH]; intros w; [done|].
  simpl. rewrite IH. unfold notifyStart. by destruct (find _ _).
Qed.

Lemma timersOf_departRoom roomId l room s notice now w :
  timersOf (departRoom roomId l room s notice now w) = timersOf w.
Proof.
  unfold departRoom. destruct (removePlayer (userId s) room) as [room' empty].
  destruct empty; [done|]. by destruct notice.
Qed.

Lemma timersOf_fields (w w' : World) :
  timersOf w' = timersOf w ↔
  intervals w' = intervals w ∧ roomTimers w' = roomTimers w ∧
  nextHandle w' = nextHandle w.
Proof.
  unfold timersOf. split; [by intros [= -> -> ->]|by intros (-> & -> & ->)].
Qed.

Lemma step_timers (rev : revision) (w : World) (i : Z * Input) :
  timerChange rev w (step rev w i).
Proof.
  destruct i as [now [sid|sid c|timer|]]; simpl.
  - destruct (map_get sid (sockets w)); by apply tc_same.
  - destruct (map_get sid (sockets w)) as [s|]; [|by apply tc_same].
    destruct c; simpl.
    + apply tc_same. unfold on_authenticate. by destruct decoded as [[? ?]|].
    + apply tc_same. unfold on_createRoom. by destruct (falsy _).
    + apply tc_same. unfold on_joinRoom. destruct (falsy _); [done|].
      destruct (getRoom roomId w) as [[l room]|]; [|done].
      case_bool_decide; [done|].
      by destruct (addPlayer rev (newPlayer s false) room) as [room' []].
    + unfold on_leaveRoom. destruct (getRoom roomId w) as [[l room]|];
        [|by apply tc_same].
      destruct rev.
      * apply tc_same. simpl.
        change (timersOf (set_socket ?s ?w0)) with (timersOf w0).
        apply timersOf_departRoom.
      * apply (tc_cleared _ _ _ roomId); [done|].
        change (timersOf (set_socket ?s ?w0)) with (timersOf w0).
        apply timersOf_departRoom.
    + apply tc_same. unfold on_updateSettings.
      destruct (getRoom roomId w) as [[l room]|]; [|done]. by case_bool_decide.
    + unfold on_startGame. destruct (getRoom roomId w) as [[l room]|] eqn:Hg;
        [|by apply tc_same].
      apply getRoom_store in Hg as [_ Hl].
      case_bool_decide; [by apply tc_same|].
      destruct (startGame rev u1 u2 now room) as [room' [[]|]];
        [|by apply tc_same|by apply tc_same].
      destruct (imposter (currentRound room')) as [imp|]; [|by apply tc_same].
      pose proof (timersOf_notifyStart room' imp (players room') (putRoom l room' w))
        as (Hi & Hr & Hn)%timersOf_fields.
      apply (tc_armed _ _ _ roomId l (userId s)); [by eexists| | |];
        destruct rev; simpl; by rewrite ?Hi, ?Hr, ?Hn.
    + unfold on_skipVote. destruct (getRoom roomId w) as [[l room]|];
        [|by apply tc_same].
      case_bool_decide; [by apply tc_same|].
      destruct (addSkipVote rev (userId s) room) as [room' reached].
      destruct rev.
      * apply tc_same. by case_bool_decide.
      * destruct (truthy reached); [|by apply tc_same].
        apply (tc_cleared _ _ _ roomId); [done|]. simpl.
        unfold clearRoomTimer. simpl. by destruct (roomTimers w !! roomId).
    + apply tc_same. unfold on_vote.
      destruct (getRoom roomId w) as [[l room]|]; [|done].
      case_bool_decide; [done|].
      destruct (addVote rev now (userId s) playerId room) as [[room1 effs] [results|]];
        [|unfold throw; simpl; apply timersOf_fields; split_and!;
          by destruct (proj1 (timersOf_fields _ _)
                         (timersOf_performAll l effs (putRoom l room1 w)))
            as (? & ? & ?)].
      pose proof (proj1 (timersOf_fields _ _)
                    (timersOf_performAll l effs (putRoom l room1 w)))
        as (Hi & Hr & Hn).
      destruct rev.
      * case_bool_decide; [|by apply timersOf_fields].
        destruct (endGame server_js now room1) as [[room2 effs2] [o|]];
          pose proof (proj1 (timersOf_fields _ _)
                        (timersOf_performAll l effs2
                           (putRoom l room2 (performAll l effs (putRoom l room1 w)))))
            as (Hi2 & Hr2 & Hn2);
          apply timersOf_fields; simpl in *; split_and!; congruence.
      * destruct results; by apply timersOf_fields.
    + unfold on_disconnect. destruct (socket_roomId s) as [roomId|];
        [|by apply tc_same].
      case_bool_decide; [by apply tc_same|].
      destruct (getRoom roomId _) as [[l room]|]; [|by apply tc_same].
      destruct rev.
      * apply tc_same. by rewrite timersOf_departRoom.
      * apply (tc_cleared _ _ _ roomId); [done|].
        rewrite timersOf_departRoom. unfold clearRoomTimer. simpl.
        by destruct (roomTimers w !! roomId).
  - unfold on_interval.
    destruct (intervals w !! timer) as [[roomId l starter| | |]|] eqn:Hi;
      try by apply tc_same.
    destruct (store w !! l) as [room|]; [|by apply tc_same].
    destruct (_ <=? _)%Z; [|by apply tc_same].
    apply (tc_stopped _ _ _ timer roomId l starter); [done|..]; by destruct rev.
  - apply tc_same. unfold on_timeout. destruct (timeouts w) as [|cb rest]; [done|].
    destruct cb as [roomId l starter|roomId l|l|roomId l]; simpl; [done|..];
      by destruct (store w !! l).
Qed.

Lemma timerChange_timerInv rev w w' :
  timerChange rev w w' →
  (∀ l, is_Some (store w !! l) → is_Some (store w' !! l)) →
  timerInv rev w → timerInv rev w'.
Proof.
  intros Hc Hstore [Hlive Hrec].
  assert (∀ w0, timersOf w' = timersOf w0 →
            (∀ h cb, intervals w0 !! h = Some cb →
               h < nextHandle w0 ∧
               ∃ roomId l starter, cb = roundTimer roomId l starter ∧
                                   is_Some (store w !! l)) →
            (∀ roomId h, roomTimers w0 !! roomId = Some h →
               rev = part_000 ∧
               ∃ l starter, intervals w0 !! h = Some (roundTimer roomId l starter)) →
            timerInv rev w') as Hsame.
  { intros w0 (Hi & Hr & Hn)%timersOf_fields Hlive0 Hrec0. split.
    - intros h cb Hh. rewrite Hi in Hh. rewrite Hn.
      destruct (Hlive0 h cb Hh) as (Hlt & k & l & st & -> & Hl).
      split; [done|]. exists k, l, st. split; [done|by apply Hstore].
    - intros k h Hk. rewrite Hr in Hk. rewrite Hi. by apply Hrec0. }
  destruct Hc as [Heq|k Hrev Heq|h k l st Hh Hi Hr Hn|k l st Hl Hi Hr Hn].
  - by apply (Hsame w).
  - apply (Hsame (clearRoomTimer k w)); [done|..]; unfold clearRoomTimer;
      destruct (roomTimers w !! k) as [h|] eqn:Hk; simpl; try done.
    + intros h' cb [Hne Hh']%lookup_delete_Some. by apply Hlive.
    + intros k' h' [Hne Hk']%lookup_delete_Some.
      destruct (Hrec _ _ Hk') as (_ & l' & st' & Hh').
      destruct (Hrec _ _ Hk) as (_ & l0 & st0 & Hh0).
      split; [done|]. exists l', st'. rewrite lookup_delete_ne; [done|].
      intros ->. congruence.
  - split.
    + intros h' cb Hh'. rewrite Hi in Hh'. rewrite Hn.
      apply lookup_delete_Some in Hh' as [Hne Hh'].
      destruct (Hlive h' cb Hh') as (Hlt & k' & l' & st' & -> & Hl').
      split; [done|]. exists k', l', st'. split; [done|by apply Hstore].
    + intros k' h' Hk'. rewrite Hr in Hk'. rewrite Hi.
      assert (roomTimers w !! k' = Some h' ∧ (rev = part_000 → k' ≠ k)) as [Hk0 Hkk].
      { destruct rev; [split; [done|by intros]|].
        apply lookup_delete_Some in Hk' as [? ?]. split; [done|by intros]. }
      destruct (Hrec _ _ Hk0) as (Hrev & l' & st' & Hh').
      split; [done|]. exists l', st'. rewrite lookup_delete_ne; [done|].
      intros ->. apply (Hkk Hrev). congruence.
  - split.
    + intros h' cb Hh'. rewrite Hi in Hh'. rewrite Hn.
      destruct (decide (nextHandle w = h')) as [<-|Hne].
      * rewrite lookup_insert_eq in Hh'. injection Hh' as <-.
        split; [lia|]. exists k, l, st. split; [done|by apply Hstore].
      * rewrite lookup_insert_ne in Hh' by done.
        destruct (Hlive h' cb Hh') as (Hlt & k' & l' & st' & -> & Hl').
        split; [lia|]. exists k', l', st'. split; [done|by apply Hstore].
    + intros k' h' Hk'. rewrite Hr in Hk'. rewrite Hi.
      destruct rev.
      * by destruct (Hrec _ _ Hk') as [? _].
      * split; [done|]. destruct (decide (k = k')) as [<-|Hne].
        -- rewrite lookup_insert_eq in Hk'. injection Hk' as <-.
           exists l, st. by rewrite lookup_insert_eq.
        -- rewrite lookup_insert_ne in Hk' by done.
           destruct (Hrec _ _ Hk') as (_ & l' & st' & Hh').
           exists l', st'. rewrite lookup_insert_ne; [done|].
           destruct (Hlive _ _ Hh') as [Hlt _]. lia.
Qed.

Lemma reachable_timerInv rev w : reachable rev w → timerInv rev w.
Proof.
  intros [trace ->]. induction trace as [|i trace IH] using rev_ind.
  - split.
    + intros h cb Hh.
      change (intervals (run rev emptyWorld [])) with (∅ : gmap nat Callback) in Hh.
      by rewrite lookup_empty in Hh.
    + intros k h Hk.
      change (roomTimers (run rev emptyWorld [])) with (∅ : gmap string nat) in Hk.
      by rewrite lookup_empty in Hk.
  - rewrite run_snoc. eapply timerChange_timerInv; [apply step_timers| |done].
    intros l [r Hl].
    destruct (worldChange_persist rev _ _ l r (step_world rev _ i) Hl)
      as (r' & Hl' & _). by eexists.
Qed.

(** X24: the timers of a reachable server state.  Every live interval is a
    round timer whose room object exists, under a handle that will not be
    handed out again.  server.js records nothing in [roomTimers]; in
    part_000 the timer recorded for a room id is live and was armed for
    that id, so [clearInterval(roomTimers.get(roomId))] stops a timer of
    that room id and no other. *)
Theorem round_timers_live (rev : revision) (w : World) :
  reachable rev w →
  (∀ h cb, intervals w !! h = Some cb →
     h < nextHandle w ∧
     ∃ roomId l starter, cb = roundTimer roomId l starter ∧ is_Some (store w !! l)) ∧
  (rev = server_js → roomTimers w = ∅) ∧
  (∀ roomId h, roomTimers w !! roomId = Some h →
     ∃ l starter, intervals w !! h = Some (roundTimer roomId l starter)).
Proof.
  intros [Hlive Hrec]%reachable_timerInv. split_and!; [done| |].
  - intros ->. apply map_empty. intros k.
    destruct (roomTimers w !! k) as [h|] eqn:Hk; [|done].
    by destruct (Hrec _ _ Hk) as [? _].
  - intros k h Hk. by destruct (Hrec _ _ Hk) as [_ ?].
Qed.

Lemma round_timers_live_witness :
  (∀ h cb, intervals (run part_000 emptyWorld playingTrace) !! h = Some cb →
     h < nextHandle (run part_000 emptyWorld playingTrace) ∧
     ∃ roomId l starter,
       cb = roundTimer roomId l starter ∧
       is_Some (store (run part_000 emptyWorld playingTrace) !! l)) ∧
  (part_000 = server_js → roomTimers (run part_000 emptyWorld playingTrace) = ∅) ∧
  (∀ roomId h, roomTimers (run part_000 emptyWorld playingTrace) !! roomId = Some h →
     ∃ l starter,
       intervals (run part_000 emptyWorld playingTrace) !! h =
         Some (roundTimer roomId l starter)).
Proof.
  apply (round_timers_live part_000 (run part_000 emptyWorld playingTrace)).
  by exists playingTrace.
Defined.
